(** * FinOpti-AI: the analysis pipeline, the user table and the password check

    A shallow embedding of [backend.py], [database.py] and [auth.py], and of
    the forms, the list of institutions and the session of [app.py].

    Conventions of the model.
    - A Python [float] is a [pyfloat]: a rational, or one of the three
      non-finite values.  Arithmetic on finite values is exact: rounding,
      overflow and signed zeros are not represented.
    - A spreadsheet cell is blank, a number or a text; spreadsheet numbers
      are finite (a workbook has no way to store an infinity).  A sheet has
      the four columns of the input contract by its type, so the test for a
      [Banks] column at the head of [run_analysis] has no counterpart.
    - A pandas [DataFrame] is an index length and an ordered list of named
      columns; data frames live in a store, so that copying and assignment
      to a column can be told apart.
    - Library calls whose result the repository does not determine (the
      SLSQP solver, the ARIMA forecaster, the parsers and printers of
      numbers, bcrypt) are section variables.
    - The workbook, chart and PDF that [run_analysis] writes, and the summary
      text, are rendered from the combined table and are left out; the paths
      they are written to are those of [os.path.join] on POSIX.
    - A text is a [string], a list of characters with codes below 256.  The
      patterns of the module [re] are matched by derivatives.
    - The pages of [app.py] are functions of the session and of the click
      that caused the run of the script. *)

From Stdlib Require Import ZArith QArith Qround Lqa Lia String Ascii List Bool.
From stdpp Require Import base option list sorting gmap strings.

Set Default Proof Using "Type".
Open Scope Z_scope.

(** ** Python floats *)

Inductive pyfloat : Type :=
| Fin (q : Q)
| PInf
| NInf
| NaN.

Declare Scope float_scope.
Delimit Scope float_scope with F.
Bind Scope float_scope with pyfloat.

Definition isfinite (a : pyfloat) : bool :=
  match a with Fin _ => true | _ => false end.

Definition isnan (a : pyfloat) : bool :=
  match a with NaN => true | _ => false end.

Definition fopp (a : pyfloat) : pyfloat :=
  match a with
  | Fin q => Fin (- q)
  | PInf => NInf
  | NInf => PInf
  | NaN => NaN
  end.

Definition fadd (a b : pyfloat) : pyfloat :=
  match a, b with
  | NaN, _ | _, NaN => NaN
  | Fin p, Fin q => Fin (p + q)
  | PInf, NInf | NInf, PInf => NaN
  | PInf, _ | _, PInf => PInf
  | NInf, _ | _, NInf => NInf
  end.

Definition fsub (a b : pyfloat) : pyfloat := fadd a (fopp b).

(** The infinity with the sign of [q], and [NaN] for [q = 0]. *)
Definition inf_of_sign (q : Q) (pos : pyfloat) (neg : pyfloat) : pyfloat :=
  match (q ?= 0)%Q with
  | Gt => pos
  | Lt => neg
  | Eq => NaN
  end.

Definition fmul (a b : pyfloat) : pyfloat :=
  match a, b with
  | NaN, _ | _, NaN => NaN
  | Fin p, Fin q => Fin (p * q)
  | Fin p, PInf | PInf, Fin p => inf_of_sign p PInf NInf
  | Fin p, NInf | NInf, Fin p => inf_of_sign p NInf PInf
  | PInf, PInf | NInf, NInf => PInf
  | PInf, NInf | NInf, PInf => NInf
  end.

(** [a <= b]; every comparison with [NaN] is false. *)
Definition fle (a b : pyfloat) : bool :=
  match a, b with
  | NaN, _ | _, NaN => false
  | Fin p, Fin q => Qle_bool p q
  | NInf, _ | _, PInf => true
  | _, _ => false
  end.

(** [a >= b]. *)
Definition fge (a b : pyfloat) : bool := fle b a.

Infix "+" := fadd : float_scope.
Infix "-" := fsub : float_scope.
Infix "*" := fmul : float_scope.
Infix "<=?" := fle : float_scope.
Infix ">=?" := fge : float_scope.

(** [a ** 2]. *)
Definition fsquare (a : pyfloat) : pyfloat := (a * a)%F.

(** Truth value of a float in a condition: zero is false, everything else
    (the non-finite values too) is true. *)
Definition truthy (a : pyfloat) : bool :=
  match a with
  | Fin q => negb (Qeq_bool q 0)
  | _ => true
  end.

(** ** Exceptions and results *)

Inductive exn : Type :=
| ValueError_points (found : nat)
    (* "Not enough historical points to forecast (found .., need >= 3)." *)
| ValueError_no_bank (bank_name : string)
    (* "No data for bank: .." *)
| ValueError_history (bank_name : string) (current_year : Z) (found : nat)
    (* "Not enough historical data for '..' before year .. (found ..
       years, need at least 3)." *)
| ValueError_float (s : string)
    (* float() of a text that is no number *)
| ValueError_length
    (* a column or index whose length does not match *)
| KeyError (key : string)
| TypeError
| NameError
| ZeroDivisionError.

Definition is_ValueError (e : exn) : bool :=
  match e with
  | ValueError_points _ | ValueError_no_bank _ | ValueError_history _ _ _
  | ValueError_float _ | ValueError_length => true
  | _ => false
  end.

Inductive result (A : Type) : Type :=
| Ok (a : A)
| Raise (e : exn).
Arguments Ok {A} a.
Arguments Raise {A} e.

Definition rbind {A B} (r : result A) (k : A → result B) : result B :=
  match r with
  | Ok a => k a
  | Raise e => Raise e
  end.

Definition returns {A} (r : result A) : Prop := ∃ a, r = Ok a.

(** ** Data frames *)

Inductive value : Type :=
| VInt (z : Z)
| VFloat (f : pyfloat)
| VStr (s : string).

Record DataFrame : Type := mkDataFrame {
  nrows : nat;
  columns : list (string * list value)
}.

Definition names (df : DataFrame) : list string := (columns df).*1.

Fixpoint assoc (c : string) (cols : list (string * list value)) : option (list value) :=
  match cols with
  | [] => None
  | (c', col) :: rest => if String.eqb c c' then Some col else assoc c rest
  end.

(** [df[c]]: the column named [c]. *)
Definition getitem (df : DataFrame) (c : string) : result (list value) :=
  match assoc c (columns df) with
  | Some col => Ok col
  | None => Raise (KeyError c)
  end.

(** [row[c]] for the row at position [i] of [df.iterrows()]. *)
Definition row_getitem (df : DataFrame) (i : nat) (c : string) : result value :=
  match assoc c (columns df) with
  | Some col =>
      match col !! i with
      | Some v => Ok v
      | None => Raise (KeyError c)
      end
  | None => Raise (KeyError c)
  end.

Fixpoint set_assoc (c : string) (col : list value) (cols : list (string * list value))
  : list (string * list value) :=
  match cols with
  | [] => [(c, col)]
  | (c', col') :: rest =>
      if String.eqb c c' then (c', col) :: rest
      else (c', col') :: set_assoc c col rest
  end.

(** [df[c] = col]: the column is replaced where it stands, or added last;
    a list of the wrong length is refused. *)
Definition setitem (df : DataFrame) (c : string) (col : list value) : result DataFrame :=
  if Nat.eqb (length col) (nrows df)
  then Ok {| nrows := nrows df; columns := set_assoc c col (columns df) |}
  else Raise ValueError_length.

(** ** The store of data frames and the monad of the pipeline *)

Definition loc : Type := positive.
Abbreviation store := (gmap loc DataFrame).

(** A computation reads and updates the store and may raise. *)
Definition M (A : Type) : Type := store → result (A * store).

#[global] Instance result_ret : MRet result := @Ok.
#[global] Instance result_bind : MBind result := λ A B k r, rbind r k.
#[global] Instance M_ret : MRet M := λ A a σ, Ok (a, σ).
#[global] Instance M_bind : MBind M := λ A B k m σ,
  match m σ with
  | Ok (a, σ') => k a σ'
  | Raise e => Raise e
  end.

Definition lift {A} (r : result A) : M A := λ σ,
  match r with
  | Ok a => Ok (a, σ)
  | Raise e => Raise e
  end.

(** The frame a reference points to.  A reference obtained from [alloc] is
    never dangling; the [NameError] here is for references from nowhere. *)
Definition deref (l : loc) : M DataFrame := λ σ,
  match σ !! l with
  | Some df => Ok (df, σ)
  | None => Raise NameError
  end.

Definition alloc (df : DataFrame) : M loc := λ σ,
  let l := fresh (dom σ) in Ok (l, <[l := df]> σ).

Definition update (l : loc) (df : DataFrame) : M unit := λ σ, Ok (tt, <[l := df]> σ).

(** [df.copy()] *)
Definition copy (df : loc) : M loc :=
  frame ← deref df; alloc frame.

(** [df[c] = col], in place. *)
Definition setitem_inplace (df : loc) (c : string) (col : list value) : M unit :=
  frame ← deref df;
  frame' ← lift (setitem frame c col);
  update df frame'.

(** ** [optimize_expenditures] *)

Definition point : Type := pyfloat * pyfloat.

Definition all_finite (p : point) : bool := isfinite p.1 && isfinite p.2.

(** What [scipy.optimize.minimize] returns, as far as the code reads it. *)
Record OptimizeResult : Type := mkOptimizeResult {
  success : bool;
  result_x : point
}.

(** A pair [(lower, upper)]; [None] is no bound. *)
Definition bound : Type := option pyfloat * option pyfloat.

Definition solver : Type :=
  (point → pyfloat) → point → list bound → list (point → pyfloat) → OptimizeResult.

Definition objective (inflation_rate alpha beta gamma pred_capex pred_opex : pyfloat)
  (x : point) : pyfloat :=
  let '(capex, opex) := x in
  ((alpha * capex + beta * opex) * (Fin 1 + inflation_rate)
   + gamma * (fsquare (capex - pred_capex) + fsquare (opex - pred_opex)))%F.

Definition constraints (pred_capex pred_opex : pyfloat) : list (point → pyfloat) :=
  [ (λ x, x.1 - Fin (8 # 10) * pred_capex)%F;
    (λ x, x.2 - Fin (7 # 10) * pred_opex)%F ].

Definition bounds : list bound := [ (Some (Fin 0), None); (Some (Fin 0), None) ].

(** The default arguments of [optimize_expenditures]. *)
Definition default_inflation_rate : pyfloat := Fin (3 # 100).
Definition default_alpha : pyfloat := Fin (5 # 10).
Definition default_beta : pyfloat := Fin (5 # 10).
Definition default_gamma : pyfloat := Fin (1 # 1000).

Section Optimize.

(** [minimize(objective, x0, method="SLSQP", bounds=.., constraints=..)];
    every constraint of the code is of type "ineq". *)
Variable minimize : solver.

(** [float(s)] for a text [s]; [None] when Python raises [ValueError]. *)
Variable float_of_str : string → option pyfloat.

(** [float(v)] *)
Definition to_float (v : value) : result pyfloat :=
  match v with
  | VInt z => Ok (Fin (inject_Z z))
  | VFloat f => Ok f
  | VStr s =>
      match float_of_str s with
      | Some f => Ok f
      | None => Raise (ValueError_float s)
      end
  end.

(** The body of the loop after the two forecasts are read: the solver is
    called and its answer kept or replaced. *)
Definition optimize_point (inflation_rate alpha beta gamma pred_capex pred_opex : pyfloat)
  : point :=
  let result :=
    minimize (objective inflation_rate alpha beta gamma pred_capex pred_opex)
      (pred_capex, pred_opex) bounds (constraints pred_capex pred_opex) in
  if success result && all_finite (result_x result)
  then result_x result
  else (Fin (8 # 10) * pred_capex, Fin (7 # 10) * pred_opex)%F.

(** The same on the pair of forecasts of a row. *)
Definition optimize_row (inflation_rate alpha beta gamma : pyfloat) (p : point) : point :=
  optimize_point inflation_rate alpha beta gamma p.1 p.2.

(** [for _, row in df.iterrows(): ...], over the positions [rows] still to
    visit, with the two lists built so far. *)
Fixpoint iterrows_loop (inflation_rate alpha beta gamma : pyfloat) (df : DataFrame)
  (rows : list nat) (optimized_capex optimized_opex : list pyfloat)
  : result (list pyfloat * list pyfloat) :=
  match rows with
  | [] => Ok (optimized_capex, optimized_opex)
  | i :: rest =>
      pred_capex ← row_getitem df i "Forecast_CapEx" ≫= to_float;
      pred_opex ← row_getitem df i "Forecast_OpEx" ≫= to_float;
      let '(capex_opt, opex_opt) :=
        optimize_point inflation_rate alpha beta gamma pred_capex pred_opex in
      iterrows_loop inflation_rate alpha beta gamma df rest
        (optimized_capex ++ [capex_opt]) (optimized_opex ++ [opex_opt])
  end.

(** The two forecasts of the row at position [i], as the loop reads them. *)
Definition row_forecast (df : DataFrame) (i : nat) : result point :=
  pred_capex ← row_getitem df i "Forecast_CapEx" ≫= to_float;
  pred_opex ← row_getitem df i "Forecast_OpEx" ≫= to_float;
  mret (pred_capex, pred_opex).

Definition optimize_expenditures (df : loc) (inflation_rate alpha beta gamma : pyfloat)
  : M loc :=
  frame ← deref df;
  '(optimized_capex, optimized_opex) ←
    lift (iterrows_loop inflation_rate alpha beta gamma frame (seq 0 (nrows frame)) [] []);
  out ← copy df;
  setitem_inplace out "Optimized_CapEx" (VFloat <$> optimized_capex);;
  setitem_inplace out "Optimized_OpEx" (VFloat <$> optimized_opex);;
  mret out.

End Optimize.

(** ** Text helpers: [str.strip] and [str.lower] on ASCII text *)

(** Python's [str.isspace] on the ASCII range. *)
Definition is_space (a : ascii) : bool :=
  let n := nat_of_ascii a in
  ((9 <=? n) && (n <=? 13) || (28 <=? n) && (n <=? 32))%nat.

Fixpoint lstrip (l : list ascii) : list ascii :=
  match l with
  | a :: rest => if is_space a then lstrip rest else l
  | [] => []
  end.

Definition py_strip (s : string) : string :=
  string_of_list_ascii (rev (lstrip (rev (lstrip (list_ascii_of_string s))))).

Definition lower_ascii (a : ascii) : ascii :=
  let n := nat_of_ascii a in
  if ((65 <=? n) && (n <=? 90))%nat then ascii_of_nat (n + 32) else a.

Definition py_lower (s : string) : string :=
  string_of_list_ascii (lower_ascii <$> list_ascii_of_string s).

(** ** The spreadsheet *)

Inductive cell : Type :=
| Blank
| Number (q : Q)
| Text (s : string).

(** One row of the workbook, under the columns the input contract names. *)
Record SheetRow : Type := mkSheetRow {
  Banks : cell;
  Year : cell;
  Capital_Expenditure : cell;
  Operating_Expenditure : cell
}.

(** [Series.ffill()]: a blank takes the last value that was not blank. *)
Fixpoint ffill (last : cell) (col : list cell) : list cell :=
  match col with
  | [] => []
  | Blank :: rest => last :: ffill last rest
  | c :: rest => c :: ffill c rest
  end.

(** [int(q)] and [astype(int)]: truncation towards zero. *)
Definition Qtrunc (q : Q) : Z := Z.quot (Qnum q) (Zpos (Qden q)).

(** A row once [Year] is an integer. *)
Record YearRow : Type := mkYearRow {
  yr_banks : cell;
  yr_year : Z;
  yr_capex : cell;
  yr_opex : cell
}.

(** A row of [historical_df] once the expenditures are numbers, and a row of
    [grouped]. *)
Record HistRow : Type := mkHistRow {
  h_year : Z;
  h_capex : Q;
  h_opex : Q
}.

(** [groupby('Year').agg(sum)], one row at a time: groups are kept in
    increasing order of the year, and a row is added to the sums of its
    year. *)
Fixpoint group_insert (r : HistRow) (groups : list HistRow) : list HistRow :=
  match groups with
  | [] => [r]
  | g :: rest =>
      if h_year r <? h_year g then r :: g :: rest
      else if h_year r =? h_year g
           then mkHistRow (h_year g) (h_capex g + h_capex r) (h_opex g + h_opex r) :: rest
           else g :: group_insert r rest
  end.

Definition groupby_year_sum (rows : list HistRow) : list HistRow :=
  fold_left (λ groups r, group_insert r groups) rows [].

(** [range(start, stop)] *)
Definition py_range (start stop : Z) : list Z :=
  (λ k : nat, start + Z.of_nat k) <$> seq 0 (Z.to_nat (stop - start)).

(** [Series.max()] of a column of integers ([0] stands for the empty case,
    which the length test of the caller excludes). *)
Definition year_max (l : list Z) : Z :=
  match l with
  | [] => 0
  | y :: rest => fold_left Z.max rest y
  end.

(** ** Sums and division *)

(** [Series.sum()] on floats: [NaN] is skipped. *)
Definition fsum (l : list pyfloat) : pyfloat :=
  fold_left (λ acc v, if isnan v then acc else (acc + v)%F) l (Fin 0).

Definition as_float (v : value) : result pyfloat :=
  match v with
  | VInt z => Ok (Fin (inject_Z z))
  | VFloat f => Ok f
  | VStr _ => Raise TypeError
  end.

(** [df[c].sum()] *)
Definition column_sum (df : DataFrame) (c : string) : result pyfloat :=
  col ← getitem df c;
  fs ← mapM as_float col;
  mret (fsum fs).

(** [a / b] on Python floats: a zero divisor raises.  (On NumPy scalars it
    would warn and give an infinity or [NaN]; the reading under which a
    division can fail is the one modelled.) *)
Definition fdiv (a b : pyfloat) : result pyfloat :=
  match b with
  | Fin q => if Qeq_bool q 0 then Raise ZeroDivisionError else Ok (a * Fin (/ q))%F
  | NaN => Ok NaN
  | _ => Ok (match a with Fin _ => Fin 0 | _ => NaN end)
  end.

(** ** Column selection and the left merge *)

(** [df[[c1; ..; cn]]] *)
Definition select (df : DataFrame) (cs : list string) : result DataFrame :=
  cols ← mapM (λ c, col ← getitem df c; mret (c, col)) cs;
  mret {| nrows := nrows df; columns := cols |}.

(** Equality of two merge keys. *)
Definition value_eqb (a b : value) : bool :=
  match a, b with
  | VInt x, VInt y => x =? y
  | VStr s, VStr t => String.eqb s t
  | VFloat (Fin p), VFloat (Fin q) => Qeq_bool p q
  | VInt x, VFloat (Fin q) | VFloat (Fin q), VInt x => Qeq_bool (inject_Z x) q
  | VFloat PInf, VFloat PInf | VFloat NInf, VFloat NInf | VFloat NaN, VFloat NaN => true
  | _, _ => false
  end.

(** The positions, counted from [j], at which [k] stands in [rkey]. *)
Fixpoint positions_from (j : nat) (k : value) (rkey : list value) : list nat :=
  match rkey with
  | [] => []
  | v :: rest =>
      if value_eqb k v then j :: positions_from (S j) k rest
      else positions_from (S j) k rest
  end.

(** The rows of a left join: every left position, in order, with each right
    position of the same key, or with none. *)
Definition left_join (lkey rkey : list value) : list (nat * option nat) :=
  concat (imap (λ i k,
    match positions_from 0 k rkey with
    | [] => [(i, None)]
    | js => (λ j, (i, Some j)) <$> js
    end) lkey).

Definition take_left (col : list value) (hits : list (nat * option nat)) : list value :=
  (λ h, default (VFloat NaN) (col !! h.1)) <$> hits.

Definition take_right (col : list value) (hits : list (nat * option nat)) : list value :=
  (λ h, default (VFloat NaN) (h.2 ≫= (col !!.))) <$> hits.

Definition mem (c : string) (l : list string) : bool := existsb (String.eqb c) l.

(** [left.merge(right, on=on, how='left')]; a name other than the key that
    both frames have gets the suffix [_x] on the left and [_y] on the
    right. *)
Definition merge_left (left right : DataFrame) (on : string) : result DataFrame :=
  lkey ← getitem left on;
  rkey ← getitem right on;
  let hits := left_join lkey rkey in
  let clash c := negb (String.eqb c on) && mem c (names left) && mem c (names right) in
  mret {| nrows := length hits;
          columns :=
            ((λ p, (if clash p.1 then p.1 +:+ "_x" else p.1, take_left p.2 hits))
               <$> columns left)
            ++ ((λ p, (if clash p.1 then p.1 +:+ "_y" else p.1, take_right p.2 hits))
               <$> List.filter (λ p, negb (String.eqb p.1 on)) (columns right)) |}.

(** Padding of a series that is shorter than the index of the frame. *)
Definition pad (n : nat) (l : list pyfloat) : list pyfloat :=
  l ++ replicate (n - length l) NaN.

(** [pd.DataFrame({'Year': years, 'Forecast_CapEx': capex, 'Forecast_OpEx':
    opex})] for a list and two series with the default index: the index is
    the longer series', and the list must have its length. *)
Definition new_pred_frame (years : list Z) (capex opex : list pyfloat) : result DataFrame :=
  let n := Nat.max (length capex) (length opex) in
  if Nat.eqb (length years) n
  then Ok {| nrows := n;
             columns := [ ("Year", VInt <$> years);
                          ("Forecast_CapEx", VFloat <$> pad n capex);
                          ("Forecast_OpEx", VFloat <$> pad n opex) ] |}
  else Raise ValueError_length.

Definition throw {A} (e : exn) : M A := λ _, Raise e.

(** ** The pipeline *)

Record KPI : Type := mkKPI {
  total_savings : pyfloat;
  savings_pct : pyfloat;
  total_forecast : pyfloat;
  total_optimized : pyfloat
}.

(** What [run_analysis] returns, without the files it writes and the texts
    and charts it renders from [combined_df]. *)
Record Analysis : Type := mkAnalysis {
  recommendations : string;
  combined_df : loc;
  kpi_metrics : KPI
}.

Section Pipeline.

Variable minimize : solver.
Variable float_of_str : string → option pyfloat.

(** [pd.to_numeric(.., errors='coerce')] on a text; [None] is [NaN]. *)
Variable to_numeric_str : string → option Q.

(** [str(q)] as [astype(str)] prints a number. *)
Variable str_of_number : Q → string.

(** [auto_arima(series, seasonal=False, ..)] and [model.predict(n_periods)]. *)
Variable Model : Type.
Variable auto_arima : list Q → Model.
Variable predict : Model → Z → list pyfloat.

(** [f"{a:spec}"] for a float. *)
Variable format_float : string → pyfloat → string.

Definition to_numeric (c : cell) : option Q :=
  match c with
  | Blank => None
  | Number q => Some q
  | Text s => to_numeric_str s
  end.

(** [df['Year'] = pd.to_numeric(df['Year'].ffill(), errors='coerce')] *)
Definition with_numeric_year (sheet : list SheetRow) : list (SheetRow * option Q) :=
  zip sheet (to_numeric <$> ffill Blank (Year <$> sheet)).

(** [df.dropna(subset=['Year'], inplace=True)] *)
Definition dropna_year (df : list (SheetRow * option Q)) : list (SheetRow * Q) :=
  omap (λ p, (λ q, (p.1, q)) <$> p.2) df.

(** [df['Year'] = df['Year'].astype(int)] *)
Definition astype_int (df : list (SheetRow * Q)) : list YearRow :=
  (λ p, mkYearRow (Banks p.1) (Qtrunc p.2) (Capital_Expenditure p.1)
          (Operating_Expenditure p.1)) <$> df.

(** [astype(str)] on a cell. *)
Definition astype_str (c : cell) : string :=
  match c with
  | Blank => "nan"
  | Number q => str_of_number q
  | Text s => s
  end.

(** [df['Banks'].astype(str).str.strip().str.lower() ==
    bank_name.strip().lower()], for one row. *)
Definition is_bank (bank_name : string) (r : YearRow) : bool :=
  String.eqb (py_lower (py_strip (astype_str (yr_banks r))))
             (py_lower (py_strip bank_name)).

(** [pd.to_numeric(historical_df[..], errors='coerce').fillna(0)], on both
    expenditure columns. *)
Definition coerce_expenditures (df : list YearRow) : list HistRow :=
  (λ r, mkHistRow (yr_year r) (default 0%Q (to_numeric (yr_capex r)))
          (default 0%Q (to_numeric (yr_opex r)))) <$> df.

(** The first part of [run_analysis], "Data Loading and Robust Cleaning":
    from the sheet to [grouped]. *)
Definition load_history (sheet : list SheetRow) (bank_name : string) (current_year : Z)
  : result (list HistRow) :=
  let df := astype_int (dropna_year (with_numeric_year sheet)) in
  let bank_df := List.filter (is_bank bank_name) df in
  match bank_df with
  | [] => Raise (ValueError_no_bank bank_name)
  | _ =>
      let max_year_for_forecast := current_year - 1 in
      let historical_df :=
        List.filter (λ r, yr_year r <=? max_year_for_forecast) bank_df in
      let historical_df := coerce_expenditures historical_df in
      Ok (groupby_year_sum historical_df)
  end.

Definition forecast_expenditure (series : list cell) (periods : Z) : result (list pyfloat) :=
  let series := omap to_numeric series in
  if (length series <? 3)%nat
  then Raise (ValueError_points (length series))
  else
    let model := auto_arima series in
    let fc := predict model periods in
    Ok fc.

(** The figures [generate_recommendations] prints: the total savings and
    the three percentages. *)
Definition recommendation_figures (pred opt : DataFrame)
  : result (pyfloat * pyfloat * pyfloat * pyfloat) :=
  forecast_capex ← column_sum pred "Forecast_CapEx";
  forecast_opex ← column_sum pred "Forecast_OpEx";
  let total_forecast := fsum [forecast_capex; forecast_opex] in
  optimized_capex ← column_sum opt "Optimized_CapEx";
  optimized_opex ← column_sum opt "Optimized_OpEx";
  let total_optimized := fsum [optimized_capex; optimized_opex] in
  let total_savings := (total_forecast - total_optimized)%F in
  savings_pct ←
    (if truthy total_forecast
     then q ← fdiv total_savings total_forecast; mret (q * Fin 100)%F
     else mret (Fin 0));
  capex_reduction_pct ←
    (if truthy forecast_capex
     then q ← fdiv optimized_capex forecast_capex; mret ((Fin 1 - q) * Fin 100)%F
     else mret (Fin 0));
  opex_reduction_pct ←
    (if truthy forecast_opex
     then q ← fdiv optimized_opex forecast_opex; mret ((Fin 1 - q) * Fin 100)%F
     else mret (Fin 0));
  mret (total_savings, savings_pct, capex_reduction_pct, opex_reduction_pct).

Definition generate_recommendations (pred_df opt_df : loc) : M string :=
  pred ← deref pred_df;
  opt ← deref opt_df;
  '(total_savings, savings_pct, capex_reduction_pct, opex_reduction_pct) ←
    lift (recommendation_figures pred opt);
  mret ("Total projected savings of " +:+ format_float ",.2f" total_savings
        +:+ " (" +:+ format_float ".2f" savings_pct
        +:+ "%) achievable without disrupting critical operations. "
        +:+ "CapEx can be reduced by ~" +:+ format_float ".2f" capex_reduction_pct
        +:+ "% via deferring non-critical upgrades and phasing multi-year rollouts. "
        +:+ "OpEx can be reduced by ~" +:+ format_float ".2f" opex_reduction_pct
        +:+ "% via process automation and vendor renegotiations. "
        +:+ "Lock in supplier/service contracts ahead of renewals to mitigate inflation passthrough. "
        +:+ "Prioritize high-ROI initiatives; sunset low-yield spend to free budget. "
        +:+ "Maintain a contingency reserve for regulatory or market shocks.").

(** The second part of [run_analysis], "Forecasting and Optimization":
    from [grouped] to [pred_df] and [full_df]. *)
Definition forecast_and_optimize (grouped : list HistRow) (forecast_years : Z)
  : M (loc * loc) :=
  let last_historical_year := year_max (h_year <$> grouped) in
  let start_year := last_historical_year + 1 in
  let forecast_years_list := py_range start_year (start_year + forecast_years) in
  capex_forecast ←
    lift (forecast_expenditure ((λ g, Number (h_capex g)) <$> grouped) forecast_years);
  opex_forecast ←
    lift (forecast_expenditure ((λ g, Number (h_opex g)) <$> grouped) forecast_years);
  pred_df ← lift (new_pred_frame forecast_years_list capex_forecast opex_forecast) ≫= alloc;
  optimized_df ←
    optimize_expenditures minimize float_of_str pred_df default_inflation_rate
      default_alpha default_beta default_gamma;
  pred ← deref pred_df;
  optimized ← deref optimized_df;
  full_df ←
    lift (right ← select optimized ["Year"; "Optimized_CapEx"; "Optimized_OpEx"];
          merge_left pred right "Year") ≫= alloc;
  mret (pred_df, full_df).

(** The third part, "Calculate Metrics for Return Dictionary". *)
Definition calculate_metrics (full_df : loc) : M KPI :=
  full ← deref full_df;
  total_forecast_capex ← lift (column_sum full "Forecast_CapEx");
  total_forecast_opex ← lift (column_sum full "Forecast_OpEx");
  total_optimized_capex ← lift (column_sum full "Optimized_CapEx");
  total_optimized_opex ← lift (column_sum full "Optimized_OpEx");
  let total_savings :=
    ((total_forecast_capex + total_forecast_opex)
     - (total_optimized_capex + total_optimized_opex))%F in
  let total_forecast := (total_forecast_capex + total_forecast_opex)%F in
  let total_optimized := (total_optimized_capex + total_optimized_opex)%F in
  savings_pct ←
    lift (if truthy total_forecast
          then q ← fdiv total_savings total_forecast; mret (q * Fin 100)%F
          else mret (Fin 0));
  mret (mkKPI total_savings savings_pct total_forecast total_optimized).

Definition run_analysis (sheet : list SheetRow) (bank_name : string)
  (forecast_years current_year : Z) : M Analysis :=
  grouped ← lift (load_history sheet bank_name current_year);
  if (length grouped <? 3)%nat
  then throw (ValueError_history bank_name current_year (length grouped))
  else
    '(pred_df, full_df) ← forecast_and_optimize grouped forecast_years;
    kpi_metrics ← calculate_metrics full_df;
    recommendations ← generate_recommendations pred_df full_df;
    mret {| recommendations := recommendations;
            combined_df := full_df;
            kpi_metrics := kpi_metrics |}.

(** *** The cleaning as the specification words it

    The rows of the selected institution, once [Year] is forward-filled,
    coerced and the rows without a numeric year are dropped. *)
Definition bank_rows (sheet : list SheetRow) (bank_name : string) : list YearRow :=
  List.filter (is_bank bank_name) (astype_int (dropna_year (with_numeric_year sheet))).

(** The distinct years of the institution at or before [current_year - 1]. *)
Definition historical_years (sheet : list SheetRow) (bank_name : string) (current_year : Z)
  : list Z :=
  remove_dups
    (List.filter (λ y, y <=? current_year - 1) (yr_year <$> bank_rows sheet bank_name)).

(** The number of cells of a series that are numbers after coercion. *)
Definition numeric_points (series : list cell) : nat :=
  length (List.filter (λ c, bool_decide (is_Some (to_numeric c))) series).

(** The expenditure columns coerced to numeric; [None] is [NaN]. *)
Definition spec_coerce (df : list YearRow) : list (Z * option Q * option Q) :=
  (λ r, (yr_year r, to_numeric (yr_capex r), to_numeric (yr_opex r))) <$> df.

(** The sum of one column over the rows of year [y], [NaN] skipped. *)
Definition sum_of_year {A} (y : Z) (amount : A → option Q) (year : A → Z) (rows : list A) : Q :=
  fold_right (λ r acc, if year r =? y then (default 0 (amount r) + acc)%Q else acc) 0%Q rows.

(** Grouping by year with sums: one row for every year that occurs, in
    increasing order of the year. *)
Definition spec_groupby (rows : list (Z * option Q * option Q)) : list HistRow :=
  (λ y, mkHistRow y (sum_of_year y (λ r, r.1.2) (λ r, r.1.1) rows)
          (sum_of_year y (λ r, r.2) (λ r, r.1.1) rows))
    <$> merge_sort Z.le (remove_dups ((λ r, r.1.1) <$> rows)).

(** The steps the specification lists, in its order: forward fill and
    coercion of [Year], the institution's rows, coercion of the
    expenditures, grouping by year with sums. *)
Definition spec_clean (sheet : list SheetRow) (bank_name : string) : list HistRow :=
  spec_groupby (spec_coerce (bank_rows sheet bank_name)).

(** The same steps with the rows restricted to the years at or before
    [current_year - 1] between the selection of the institution and the
    coercion of the expenditures. *)
Definition spec_clean_historical (sheet : list SheetRow) (bank_name : string)
  (current_year : Z) : list HistRow :=
  spec_groupby (spec_coerce
    (List.filter (λ r, yr_year r <=? current_year - 1) (bank_rows sheet bank_name))).

End Pipeline.

(** Two rows of a grouped table stand for the same numbers. *)
Definition hist_eq (a b : HistRow) : Prop :=
  h_year a = h_year b ∧ (h_capex a == h_capex b)%Q ∧ (h_opex a == h_opex b)%Q.

(** ** What is asked of the solver

    [minimize] is SciPy's.  These are the two properties of its answer that
    the statements below name as hypotheses where they are needed. *)

Definition in_bound (b : bound) (v : pyfloat) : bool :=
  from_option (λ l, l <=? v)%F true b.1 && from_option (λ u, v <=? u)%F true b.2.

Definition within_bounds (bnds : list bound) (x : point) : bool :=
  forallb (λ p, in_bound p.1 p.2) (zip bnds [x.1; x.2]).

Definition feasible (bnds : list bound) (cons : list (point → pyfloat)) (x : point) : bool :=
  within_bounds bnds x && forallb (λ g, Fin 0 <=? g x)%F cons.

(** A point reported with success satisfies the bounds and the
    constraints. *)
Definition solver_feasible (minimize : solver) : Prop :=
  ∀ obj x0 bnds cons,
    success (minimize obj x0 bnds cons) = true →
    all_finite (result_x (minimize obj x0 bnds cons)) = true →
    feasible bnds cons (result_x (minimize obj x0 bnds cons)) = true.

(** From a feasible start, a point reported with success is no worse than
    the start. *)
Definition solver_descends (minimize : solver) : Prop :=
  ∀ obj x0 bnds cons,
    success (minimize obj x0 bnds cons) = true →
    feasible bnds cons x0 = true →
    isfinite (obj x0) = true →
    (obj (result_x (minimize obj x0 bnds cons)) <=? obj x0)%F = true.

(** ** Instances of the library calls, for the examples *)

(** A solver that never converges. *)
Definition solver_fail : solver := λ _ x0 _ _, {| success := false; result_x := x0 |}.

Definition clip (b : bound) (v : pyfloat) : pyfloat :=
  let v := match b.1 with Some l => if (l <=? v)%F then v else l | None => v end in
  match b.2 with Some u => if (v <=? u)%F then v else u | None => v end.

Definition clip_point (bnds : list bound) (x : point) : point :=
  match bnds with
  | [b1; b2] => (clip b1 x.1, clip b2 x.2)
  | _ => x
  end.

(** A solver that moves the start into the bounds and stops there. *)
Definition solver_clip : solver := λ obj x0 bnds cons,
  let x := clip_point bnds x0 in
  {| success := feasible bnds cons x; result_x := x |}.

(** A solver that takes one exact Newton step per coordinate, from
    differences of the objective, and keeps the better of that point and
    the start among those that are feasible. *)
Definition newton_coord (f : pyfloat → pyfloat) (v : pyfloat) : pyfloat :=
  match f (v - Fin 1)%F, f v, f (v + Fin 1)%F, v with
  | Fin a, Fin b, Fin c, Fin q =>
      let h := (a - 2 * b + c)%Q in
      if Qle_bool h 0 then v else Fin (Qred (q - ((c - a) / 2) / h))
  | _, _, _, _ => v
  end.

Definition solver_newton : solver := λ obj x0 bnds cons,
  let x := (newton_coord (λ v, obj (v, x0.2)) x0.1, newton_coord (λ v, obj (x0.1, v)) x0.2) in
  if feasible bnds cons x && (obj x <=? obj x0)%F
  then {| success := true; result_x := x |}
  else solver_clip obj x0 bnds cons.

(** A forecaster that continues the last difference: the forecast of an
    ARIMA(0,2,0) model. *)
Definition trend_predict (series : list Q) (periods : Z) : list pyfloat :=
  match rev series with
  | last :: prev :: _ =>
      (λ k : nat, Fin (last + inject_Z (Z.of_nat (S k)) * (last - prev))) <$> seq 0 (Z.to_nat periods)
  | [last] => (λ _, Fin last) <$> seq 0 (Z.to_nat periods)
  | [] => (λ _, Fin 0) <$> seq 0 (Z.to_nat periods)
  end.

(** No text is a number. *)
Definition no_number : string → option Q := λ _, None.
Definition no_float : string → option pyfloat := λ _, None.
Definition plain_str : Q → string := λ _, "0".
Definition plain_format : string → pyfloat → string := λ _ _, "0.00".

(** ** The user table ([database.py]) *)

Module Database.

Record user : Type := mkUser {
  id : Z;
  username : string;
  password_hash : string
}.

(** The table [users] with the counter of [AUTOINCREMENT]: the largest
    [id] handed out so far. *)
Record users_table : Type := mkTable {
  rows : list user;
  sequence : Z
}.

(** The file [users.db]; [None] before the table is created. *)
Definition database : Type := option users_table.

Inductive sql_error : Type :=
| IntegrityError
| OperationalError.

(** [CREATE TABLE IF NOT EXISTS users (..)] *)
Definition setup_database (db : database) : database :=
  match db with
  | Some t => Some t
  | None => Some {| rows := []; sequence := 0 |}
  end.

Definition taken (name : string) (t : users_table) : bool :=
  existsb (λ r, String.eqb (username r) name) (rows t).

(** [INSERT INTO users(username, password_hash) VALUES (?, ?)] under the
    constraints of the table: both columns [NOT NULL] ([None] is SQL's
    NULL), [username] [UNIQUE]. *)
Definition insert (name hash : option string) (t : users_table)
  : sql_error + (Z * users_table) :=
  match name, hash with
  | Some name, Some hash =>
      if taken name t then inl IntegrityError
      else
        let rowid := sequence t + 1 in
        inr (rowid, {| rows := rows t ++ [mkUser rowid name hash]; sequence := rowid |})
  | _, _ => inl IntegrityError
  end.

(** The outcome of a call: the value returned, or the exception that
    leaves the function. *)
Inductive outcome (A : Type) : Type :=
| Returned (a : A)
| Raised (e : sql_error).
Arguments Returned {A} a.
Arguments Raised {A} e.

(** [add_user]: the new [id], or [None] on [sqlite3.IntegrityError]; any
    other database error is not caught. *)
Definition add_user (name hash : option string) (db : database)
  : outcome (option Z) * database :=
  match db with
  | None => (Raised OperationalError, db)
  | Some t =>
      match insert name hash t with
      | inr (user_id, t') => (Returned (Some user_id), Some t')
      | inl IntegrityError => (Returned None, db)
      | inl e => (Raised e, db)
      end
  end.

(** [SELECT password_hash FROM users WHERE username=?] and [fetchone]. *)
Definition select_hash (name : string) (t : users_table) : option string :=
  password_hash <$> List.find (λ r, String.eqb (username r) name) (rows t).

(** [check_user]: the stored hash, or [None]; every database error is
    caught and printed. *)
Definition check_user (name : string) (db : database) : option string :=
  match db with
  | None => None
  | Some t => select_hash name t
  end.

End Database.

(** ** The password check ([auth.py]) *)

Module Auth.
Section Bcrypt.

(** [bcrypt.hashpw], [bcrypt.checkpw] and the salt [bcrypt.gensalt()]
    draws; [encode] is [str.encode('utf-8')]. *)
Variable salt : Type.
Variable hashpw : string → salt → string.
Variable checkpw : string → string → bool.
Variable encode : string → string.

Definition hash_password (password : string) (gensalt : salt) : string :=
  hashpw (encode password) gensalt.

Definition verify_password (stored_hash provided_password : string) : bool :=
  checkpw (encode provided_password) stored_hash.

End Bcrypt.
End Auth.

(** ** The combined table, column by column

    The table with the years, the two forecast columns, and the two
    optimized columns that the solver step of [optimize_expenditures], with
    its default arguments, yields row by row. *)
Definition optimized_points (minimize : solver) (capex opex : list pyfloat) : list point :=
  optimize_row minimize default_inflation_rate default_alpha default_beta default_gamma
    <$> zip capex opex.

Definition forecast_table (years : list Z) (capex opex : list pyfloat) : DataFrame :=
  {| nrows := length years;
     columns := [ ("Year", VInt <$> years);
                  ("Forecast_CapEx", VFloat <$> capex);
                  ("Forecast_OpEx", VFloat <$> opex) ] |}.

Definition combined_table (minimize : solver) (years : list Z) (capex opex : list pyfloat)
  : DataFrame :=
  {| nrows := length years;
     columns := [ ("Year", VInt <$> years);
                  ("Forecast_CapEx", VFloat <$> capex);
                  ("Forecast_OpEx", VFloat <$> opex);
                  ("Optimized_CapEx", VFloat <$> (optimized_points minimize capex opex).*1);
                  ("Optimized_OpEx", VFloat <$> (optimized_points minimize capex opex).*2) ] |}.

(** A cell that holds a finite float that is not negative. *)
Definition nonneg (v : value) : Prop := ∃ q, v = VFloat (Fin q) ∧ (0 <= q)%Q.

(** ** Kinds of exceptions *)

(** The errors about the data of the institution: no row, too few years,
    too few points. *)
Definition data_error (e : exn) : bool :=
  match e with
  | ValueError_points _ | ValueError_no_bank _ | ValueError_history _ _ _ => true
  | _ => false
  end.

(** The errors of the table operations: a missing name or object, a value
    of the wrong kind, a length that does not match. *)
Definition table_error (e : exn) : bool :=
  match e with
  | KeyError _ | TypeError | NameError | ValueError_float _ | ValueError_length => true
  | _ => false
  end.

(** Every exception a computation can raise is one of [P]. *)
Definition fails_only {A} (P : exn → Prop) (r : result A) : Prop :=
  ∀ e, r = Raise e → P e.

Definition raises_only {A} (P : exn → Prop) (m : M A) : Prop :=
  ∀ σ, fails_only P (m σ).

(** ** Data of the examples *)

(** A forecast table of one institution: a year and the two forecasts. *)
Definition forecast_frame (rows : list (Z * Q * Q)) : DataFrame :=
  {| nrows := length rows;
     columns := [ ("Year", (λ r, VInt r.1.1) <$> rows);
                  ("Forecast_CapEx", (λ r, VFloat (Fin r.1.2)) <$> rows);
                  ("Forecast_OpEx", (λ r, VFloat (Fin r.2)) <$> rows) ] |}.

(** The same table with the two optimized columns after the forecasts. *)
Definition optimized_frame (rows : list (Z * Q * Q)) (optimized : list point) : DataFrame :=
  {| nrows := length rows;
     columns := columns (forecast_frame rows)
                ++ [ ("Optimized_CapEx", (λ p : point, VFloat p.1) <$> optimized);
                     ("Optimized_OpEx", (λ p : point, VFloat p.2) <$> optimized) ] |}.

Definition one_frame (df : DataFrame) : store := {[ 1%positive := df ]}.

(** A workbook of two institutions.  The first has three years of falling
    expenditures, one of them on two rows under a blank [Year], and a row
    for a year to come; the second has one year. *)
Definition example_sheet : list SheetRow :=
  [ mkSheetRow (Text " Alpha ") (Number 2020) (Number 30) (Number 30);
    mkSheetRow (Text "alpha") (Number 2021) (Number 20) (Text "tbd");
    mkSheetRow (Text "ALPHA") Blank (Number 5) (Number 20);
    mkSheetRow (Text "Beta") (Number 2021) (Number 70) (Number 70);
    mkSheetRow (Text "Alpha") (Number 2022) (Number 10) (Number 10);
    mkSheetRow (Text "Alpha") (Number 2030) (Number 10) (Number 10) ].

(** A workbook of one institution with four years of rising expenditures. *)
Definition rising_sheet : list SheetRow :=
  [ mkSheetRow (Text "Gamma") (Number 2019) (Number 1000) (Number 2000);
    mkSheetRow (Text "Gamma") (Number 2020) (Number 1500) (Number 2500);
    mkSheetRow (Text "Gamma") (Number 2021) (Number 2000) (Number 3000);
    mkSheetRow (Text "Gamma") (Number 2022) (Number 2500) (Number 3500) ].

(** A workbook of one institution that spent nothing in three years. *)
Definition idle_sheet : list SheetRow :=
  [ mkSheetRow (Text "Delta") (Number 2020) (Number 0) (Number 0);
    mkSheetRow (Text "Delta") (Number 2021) (Number 0) Blank;
    mkSheetRow (Text "Delta") (Number 2022) Blank (Number 0) ].

(** What a run returned; a run that raised gives a table of nothing. *)
Definition outcome_of (run : result (Analysis * store)) : Analysis * store :=
  match run with
  | Ok p => p
  | Raise _ => (mkAnalysis "none" 1%positive (mkKPI NaN NaN NaN NaN), ∅)
  end.

(** Two years of forecasts for the institution with rising expenditures,
    and three for the one with falling expenditures. *)
Definition rising_run : result (Analysis * store) :=
  run_analysis solver_newton no_float no_number plain_str (list Q) id trend_predict
    plain_format rising_sheet "gamma" 2 2023 ∅.

Definition falling_run : result (Analysis * store) :=
  run_analysis solver_clip no_float no_number plain_str (list Q) id trend_predict
    plain_format example_sheet "alpha" 3 2023 ∅.

Definition idle_run : result (Analysis * store) :=
  run_analysis solver_newton no_float no_number plain_str (list Q) id trend_predict
    plain_format idle_sheet "delta" 2 2023 ∅.

(** ** Regular expressions, as far as [app.py] uses the module [re]

    Text is a list of characters with codes below 256; the patterns of the
    application name ASCII characters only. *)

Inductive class_item : Type :=
| Lit (c : ascii)
| Range (lo hi : ascii).

Definition in_item (a : ascii) (i : class_item) : bool :=
  match i with
  | Lit c => Ascii.eqb a c
  | Range lo hi =>
      ((nat_of_ascii lo <=? nat_of_ascii a) && (nat_of_ascii a <=? nat_of_ascii hi))%nat
  end.

(** [Chars items] is the class [[..]]; [Never] and [Alt] are there for the
    derivatives. *)
Inductive regex : Type :=
| Never
| Empty
| Chars (items : list class_item)
| Seq (r1 r2 : regex)
| Alt (r1 r2 : regex)
| Star (r : regex).

(** [r+] *)
Definition Plus (r : regex) : regex := Seq r (Star r).

(** A pattern that is plain text. *)
Fixpoint literal (w : list ascii) : regex :=
  match w with
  | [] => Empty
  | c :: rest => Seq (Chars [Lit c]) (literal rest)
  end.

Fixpoint nullable (r : regex) : bool :=
  match r with
  | Never => false
  | Empty => true
  | Chars _ => false
  | Seq r1 r2 => nullable r1 && nullable r2
  | Alt r1 r2 => nullable r1 || nullable r2
  | Star _ => true
  end.

(** What is left of [r] after the character [c]. *)
Fixpoint deriv (c : ascii) (r : regex) : regex :=
  match r with
  | Never | Empty => Never
  | Chars items => if existsb (in_item c) items then Empty else Never
  | Seq r1 r2 =>
      if nullable r1 then Alt (Seq (deriv c r1) r2) (deriv c r2) else Seq (deriv c r1) r2
  | Alt r1 r2 => Alt (deriv c r1) (deriv c r2)
  | Star r1 => Seq (deriv c r1) (Star r1)
  end.

(** [re.match(r, s) is not None]: [r] matches at the start of [s]. *)
Fixpoint re_match (r : regex) (s : list ascii) : bool :=
  nullable r ||
  match s with
  | [] => false
  | c :: rest => re_match (deriv c r) rest
  end.

Definition newline : ascii := ascii_of_nat 10.

(** [re.match(r + '$', s) is not None]: [$] holds at the end of the text
    and before a newline that ends it. *)
Fixpoint re_match_dollar (r : regex) (s : list ascii) : bool :=
  match s with
  | [] => nullable r
  | c :: rest =>
      nullable r && Ascii.eqb c newline && bool_decide (rest = [])
      || re_match_dollar (deriv c r) rest
  end.

(** [re.search(r, s) is not None]: [r] matches somewhere in [s]. *)
Fixpoint re_search (r : regex) (s : list ascii) : bool :=
  re_match r s ||
  match s with
  | [] => false
  | _ :: rest => re_search r rest
  end.

(** The texts a pattern stands for. *)
Inductive lang : regex → list ascii → Prop :=
| lang_Empty : lang Empty []
| lang_Chars items c : existsb (in_item c) items = true → lang (Chars items) [c]
| lang_Seq r1 r2 s t : lang r1 s → lang r2 t → lang (Seq r1 r2) (s ++ t)
| lang_Alt_l r1 r2 s : lang r1 s → lang (Alt r1 r2) s
| lang_Alt_r r1 r2 s : lang r2 s → lang (Alt r1 r2) s
| lang_Star_nil r : lang (Star r) []
| lang_Star_app r s t : lang r s → lang (Star r) t → lang (Star r) (s ++ t).

(** ** More text helpers *)

(** [s.startswith(start)] and [s.endswith(suffix)] *)
Definition startswith (s start : string) : bool :=
  bool_decide (list_ascii_of_string start `prefix_of` list_ascii_of_string s).

Definition endswith (s suffix : string) : bool :=
  bool_decide (list_ascii_of_string suffix `suffix_of` list_ascii_of_string s).

(** ** The files of a report

    [os.path.join(a, b)] as the module [posixpath] has it. *)
Definition path_join (a b : string) : string :=
  if startswith b "/" then b
  else if String.eqb a EmptyString || endswith a "/" then a +:+ b
  else a +:+ "/" +:+ b.

(** The three paths that [run_analysis], [plot_and_save_chart] and
    [create_pdf_report] write to, in this order. *)
Definition excel_path (output_dir bank_name : string) : string :=
  path_join output_dir (bank_name +:+ "_forecast_optimized.xlsx").

Definition chart_path (output_dir bank_name : string) : string :=
  path_join output_dir (bank_name +:+ "_chart.png").

Definition pdf_path (output_dir bank_name : string) : string :=
  path_join output_dir (bank_name +:+ "_report.pdf").

Definition report_files (output_dir bank_name : string) : list string :=
  [ excel_path output_dir bank_name; chart_path output_dir bank_name;
    pdf_path output_dir bank_name ].

(** ** The forms and the list of institutions ([app.py]) *)

Module App.

(** [[a-zA-Z0-9._%+-]] *)
Definition local_part_class : list class_item :=
  [ Range "a" "z"; Range "A" "Z"; Range "0" "9";
    Lit "."; Lit "_"; Lit "%"; Lit "+"; Lit "-" ].

(** [^[a-zA-Z0-9._%+-]+@gmail\.com$], without the two anchors. *)
Definition gmail_pattern : regex :=
  Seq (Plus (Chars local_part_class)) (literal (list_ascii_of_string "@gmail.com")).

Definition is_valid_gmail (email : string) : bool :=
  if String.eqb email EmptyString || negb (endswith email "@gmail.com") then false
  else re_match_dollar gmail_pattern (list_ascii_of_string email).

(** The double quote, character 34. *)
Definition double_quote : ascii := ascii_of_nat 34.

(** The class of the last test: the double quote and
    ! @ # $ % ^ & * ( ) , . ? : { } | < > *)
Definition special_class : list class_item :=
  [ Lit "!"; Lit "@"; Lit "#"; Lit "$"; Lit "%"; Lit "^"; Lit "&"; Lit "*"; Lit "(";
    Lit ")"; Lit ","; Lit "."; Lit "?"; Lit double_quote; Lit ":"; Lit "{"; Lit "}";
    Lit "|"; Lit "<"; Lit ">" ].

Definition is_strong_password (password : string) : bool * string :=
  if (String.length password <? 8)%nat
  then (false, "Password must be at least 8 characters long.")
  else if negb (re_search (Chars [Range "A" "Z"]) (list_ascii_of_string password))
  then (false, "Password must contain an uppercase letter.")
  else if negb (re_search (Chars [Range "a" "z"]) (list_ascii_of_string password))
  then (false, "Password must contain a lowercase letter.")
  else if negb (re_search (Chars [Range "0" "9"]) (list_ascii_of_string password))
  then (false, "Password must contain a number.")
  else if negb (re_search (Chars special_class) (list_ascii_of_string password))
  then (false, "Password must contain a special character.")
  else (true, "Password is strong.").

(** What a form shows: [st.warning], [st.error] or [st.success]. *)
Inductive notice : Type :=
| Warning (body : string)
| Error (body : string)
| Success (body : string).

(** What the button "Log In" does: [Signed_in username] is the update of
    the session ([authenticated=True, username=username, ..]) and the rerun;
    [Refused] is the error shown. *)
Inductive sign_in : Type :=
| Signed_in (username : string)
| Refused (body : string).

(** The truth value of what [add_user] returns: [None] and [0] are
    false. *)
Definition truthy_id (user_id : option Z) : bool :=
  match user_id with
  | Some z => negb (z =? 0)
  | None => false
  end.

(** The two tests of the sign-up form on what was typed. *)
Definition passes (new_username new_password : string) : Prop :=
  is_valid_gmail new_username = true ∧ (is_strong_password new_password).1 = true.

Section Forms.

Variable salt : Type.
Variable hashpw : string → salt → string.
Variable checkpw : string → string → bool.
Variable encode : string → string.

(** The button "Create Account" of [login_signup_page]; [gensalt] is the
    salt that [hash_password] draws when it is reached. *)
Definition create_account (new_username new_password : string) (gensalt : salt)
  (db : Database.database) : Database.outcome notice * Database.database :=
  let '(is_strong, message) := is_strong_password new_password in
  if String.eqb new_username EmptyString || String.eqb new_password EmptyString
  then (Database.Returned (Warning "Please fill out all fields."), db)
  else if negb (is_valid_gmail new_username)
  then (Database.Returned (Error "Invalid email. Please use a valid @gmail.com address."), db)
  else if negb is_strong
  then (Database.Returned (Error message), db)
  else
    match Database.add_user (Some new_username)
            (Some (Auth.hash_password salt hashpw encode new_password gensalt)) db with
    | (Database.Returned user_id, db') =>
        if truthy_id user_id
        then (Database.Returned (Success "Account created! Please sign in."), db')
        else (Database.Returned (Error "Email already exists."), db')
    | (Database.Raised e, db') => (Database.Raised e, db')
    end.

(** The button "Log In". *)
Definition log_in (username password : string) (db : Database.database) : sign_in :=
  let stored_hash := Database.check_user username db in
  if match stored_hash with
     | Some h => negb (String.eqb h EmptyString) && Auth.verify_password checkpw encode h password
     | None => false
     end
  then Signed_in username
  else Refused "Incorrect email or password.".

(** The sign-up form submitted once for every entry of a list, in order:
    an address, a password and the salt drawn. *)
Definition submissions (entries : list (string * string * salt)) (db : Database.database)
  : Database.database :=
  fold_left (λ db entry, (create_account entry.1.1 entry.1.2 entry.2 db).2) entries db.

End Forms.

(** [Series.unique()]: the values in the order in which they first
    appear. *)
Definition unique (l : list string) : list string :=
  fold_left (λ seen x, if bool_decide (x ∈ seen) then seen else seen ++ [x]) l [].

(** [sorted(..)] on texts: the order of the character codes. *)
Definition sorted (l : list string) : list string :=
  merge_sort String.le l.

(** [get_bank_list], for a workbook that opens and has a sheet [Final] with
    a column [Banks]: the branches that return the empty list have no
    counterpart, nor has the cache. *)
Definition get_bank_list (str_of_number : Q → string) (sheet : list SheetRow) : list string :=
  sorted (unique ((λ r, py_strip (astype_str str_of_number (Banks r))) <$> sheet)).

End App.

(** The rows of a sheet whose cell [Banks] names the institution, by the
    comparison of [run_analysis]. *)
Definition rows_of (str_of_number : Q → string) (bank_name : string)
  (sheet : list SheetRow) : list SheetRow :=
  List.filter (λ r, is_bank str_of_number bank_name (mkYearRow (Banks r) 0 Blank Blank)) sheet.

(** [add_user] called once for every pair of a list, in order. *)
Definition add_users (calls : list (option string * option string)) (db : Database.database)
  : Database.database :=
  fold_left (λ db call, (Database.add_user call.1 call.2 db).2) calls db.

(** A table as [add_user] keeps it: no username stands in two rows, the
    ids grow along the rows, and each id is at least [1] and at most the
    counter of [AUTOINCREMENT]. *)
Definition ordered (t : Database.users_table) : Prop :=
  NoDup (Database.username <$> Database.rows t)
  ∧ StronglySorted Z.lt (Database.id <$> Database.rows t)
  ∧ Forall (λ r, 1 ≤ Database.id r ≤ Database.sequence t) (Database.rows t)
  ∧ 0 ≤ Database.sequence t.

(** Instances of [bcrypt] for the examples: the hash is the salt, a
    separator and the password. *)
Definition toy_hashpw (password salt : string) : string := salt +:+ "$" +:+ password.
Definition toy_checkpw (password hashed : string) : bool :=
  endswith hashed ("$" +:+ password).

(** ** The session ([st.session_state]) and the pages of the application *)

Module Session.

(** A click that the pages of [app.py] react to.  [Log_in] carries what the
    button "Log In" found; [Generate_forecast] carries the institution, the
    number of years and the current year of the form. *)
Inductive event : Type :=
| Log_in (found : App.sign_in)
| Logout
| Generate_forecast (selected_bank : string) (forecast_horizon current_year : Z)
| New_analysis
| Set_active_tab (tab_name : string).

Section Session.

(** The dictionary that [run_analysis] returns, the call
    [run_analysis(DATA_FILE_PATH, ., ., ., OUTPUT_DIR)], [str(e)] for an
    exception, and the institutions of the select box. *)
Variable R : Type.
Variable analyse : string → Z → Z → result R.
Variable str_of_exn : exn → string.
Variable banks : list string.

(** The seven keys of [st.session_state]. *)
Record state : Type := mkState {
  authenticated : bool;
  username : option string;
  results : option R;
  error : option string;
  run_clicked : bool;
  selected_bank : option string;
  active_tab : string
}.

(** The keys as [main] sets them at the first run. *)
Definition initial : state :=
  {| authenticated := false; username := None; results := None; error := None;
     run_clicked := false; selected_bank := None; active_tab := "chart" |}.

(** [st.session_state.update(authenticated=True, username=username,
    run_clicked=False, results=None, error=None)] *)
Definition logged_in (name : string) (s : state) : state :=
  {| authenticated := true; username := Some name; results := None; error := None;
     run_clicked := false; selected_bank := selected_bank s; active_tab := active_tab s |}.

Definition logout (s : state) : state :=
  {| authenticated := false; username := None; results := results s; error := error s;
     run_clicked := false; selected_bank := selected_bank s; active_tab := "chart" |}.

Definition set_active_tab (tab_name : string) (s : state) : state :=
  {| authenticated := authenticated s; username := username s; results := results s;
     error := error s; run_clicked := run_clicked s; selected_bank := selected_bank s;
     active_tab := tab_name |}.

(** The button "Generate Forecast". *)
Definition generate_forecast (bank : string) (forecast_horizon current_year : Z)
  (s : state) : state :=
  match analyse bank forecast_horizon current_year with
  | Ok r =>
      {| authenticated := authenticated s; username := username s; results := Some r;
         error := error s; run_clicked := true; selected_bank := Some bank;
         active_tab := "chart" |}
  | Raise e =>
      {| authenticated := authenticated s; username := username s; results := results s;
         error := Some (str_of_exn e); run_clicked := true; selected_bank := Some bank;
         active_tab := "chart" |}
  end.

(** The button "New Analysis". *)
Definition new_analysis (s : state) : state :=
  {| authenticated := authenticated s; username := username s; results := results s;
     error := error s; run_clicked := false; selected_bank := selected_bank s;
     active_tab := "chart" |}.

(** What the page of the results holds under its header. *)
Inductive content : Type :=
| Shows_error (message : string)
| Shows_results (r : R)
| Shows_nothing.

Inductive page : Type :=
| Login_page
| Form_page
| Results_page (c : content).

(** The page that [main] and [show_main_app] draw. *)
Definition view (s : state) : page :=
  if negb (authenticated s) then Login_page
  else if negb (run_clicked s) then Form_page
  else
    Results_page
      match error s, results s with
      | Some message, _ =>
          if String.eqb message EmptyString
          then match results s with Some r => Shows_results r | None => Shows_nothing end
          else Shows_error message
      | None, Some r => Shows_results r
      | None, None => Shows_nothing
      end.

(** One click, on the page where its button is drawn; the button "Generate
    Forecast" is disabled without an institution, the two number inputs
    keep [1 <= forecast_horizon <= 10] and [2010 <= current_year <= 2100],
    and there is a button for each of three tabs. *)
Definition step (s : state) (ev : event) : state :=
  match view s, ev with
  | Login_page, Log_in (App.Signed_in name) => logged_in name s
  | Form_page, Generate_forecast bank forecast_horizon current_year =>
      if bool_decide (bank ∈ banks) && negb (String.eqb bank EmptyString)
         && (1 <=? forecast_horizon) && (forecast_horizon <=? 10)
         && (2010 <=? current_year) && (current_year <=? 2100)
      then generate_forecast bank forecast_horizon current_year s
      else s
  | Form_page, Logout | Results_page _, Logout => logout s
  | Results_page _, New_analysis => new_analysis s
  | Results_page (Shows_results _), Set_active_tab tab_name =>
      if bool_decide (tab_name ∈ ["chart"; "data"; "recs"])
      then set_active_tab tab_name s
      else s
  | _, _ => s
  end.

Definition steps (events : list event) (s : state) : state := fold_left step events s.

(** The results in the session are those of an analysis that the form
    allows, for the institution in the session; and a session in which this
    is so while there is no error, or in which there is the message of an
    error. *)
Definition from_form (s : state) : Prop :=
  ∀ r, results s = Some r →
       ∃ bank forecast_horizon current_year,
         selected_bank s = Some bank ∧ bank ∈ banks
         ∧ 1 ≤ forecast_horizon ≤ 10 ∧ 2010 ≤ current_year ≤ 2100
         ∧ analyse bank forecast_horizon current_year = Ok r.

Definition sound (s : state) : Prop :=
  (error s = None ∧ from_form s)
  ∨ ∃ message, error s = Some message ∧ message ≠ EmptyString.

End Session.

Arguments authenticated {R} s.
Arguments username {R} s.
Arguments results {R} s.
Arguments error {R} s.
Arguments run_clicked {R} s.
Arguments selected_bank {R} s.
Arguments active_tab {R} s.
Arguments Shows_error {R} message.
Arguments Shows_results {R} r.
Arguments Shows_nothing {R}.
Arguments Login_page {R}.
Arguments Form_page {R}.
Arguments Results_page {R} c.

End Session.

(** The analysis of the example workbook, for the examples of the
    session; every exception reads "error". *)
Definition example_analyse (bank : string) (forecast_horizon current_year : Z)
  : result (Analysis * store) :=
  run_analysis solver_clip no_float no_number plain_str (list Q) id trend_predict
    plain_format example_sheet bank forecast_horizon current_year ∅.

Definition plain_exn : exn → string := λ _, "error".

Definition example_step : Session.state (Analysis * store) → Session.event
  → Session.state (Analysis * store) :=
  Session.step (Analysis * store) example_analyse plain_exn
    (App.get_bank_list plain_str example_sheet).

(** ** The point that the optimisation asks for

    The larger of two rationals, and the point at which the objective of a
    row, with the default arguments, is least under the bounds and the
    constraints: in each coordinate the largest of [0], the floor of the
    constraint and the forecast less [alpha * (1 + inflation_rate) / (2 *
    gamma)], which is [257.5]. *)
Definition qmax (a b : Q) : Q := if Qle_bool a b then b else a.

Definition least (floor pred : Q) : Q := qmax 0 (qmax (floor * pred) (pred - (515 # 2))).

Definition least_point (pred_capex pred_opex : Q) : point :=
  (Fin (least (8 # 10) pred_capex), Fin (least (7 # 10) pred_opex)).

(** * Properties *)

(** ** Floats *)

Example float_comparisons :
  (NaN <=? NaN)%F = false ∧ (NInf <=? Fin 0)%F = true ∧ (Fin 0 <=? NInf)%F = false
  ∧ (PInf <=? PInf)%F = true ∧ (PInf <=? Fin 0)%F = false ∧ (Fin 1 <=? Fin (3 # 2))%F = true.
Proof. repeat split. Qed.

Example float_arithmetic :
  (PInf + NInf)%F = NaN ∧ (Fin 0 * PInf)%F = NaN ∧ (Fin (8 # 10) * NInf)%F = NInf
  ∧ (Fin 1 - PInf)%F = NInf ∧ fsum [Fin 1; NaN; Fin 2] = Fin (0 + 1 + 2)
  ∧ fdiv (Fin 1) (Fin 0) = Raise ZeroDivisionError ∧ truthy NaN = true.
Proof. repeat split. Qed.

Lemma fle_Fin p q : (Fin p <=? Fin q)%F = true ↔ (p <= q)%Q.
Proof. apply Qle_bool_iff. Qed.

Lemma fle_refl a : isnan a = false → (a <=? a)%F = true.
Proof.
  destruct a as [q| | |]; simpl; try done.
  intros _. apply Qle_bool_iff. apply Qle_refl.
Qed.

Lemma isfinite_inv a : isfinite a = true → ∃ q, a = Fin q.
Proof. destruct a; simpl; try done. eauto. Qed.

Lemma all_finite_inv (x : point) :
  all_finite x = true → ∃ c o, x = (Fin c, Fin o).
Proof.
  destruct x as [a b]. unfold all_finite. simpl.
  intros [Ha Hb]%andb_prop.
  apply isfinite_inv in Ha as [c ->]. apply isfinite_inv in Hb as [o ->]. eauto.
Qed.

(** A positive constant times a float that is no [NaN] is no [NaN]. *)
Lemma fmul_pos_not_nan k a :
  (0 < k)%Q → isnan a = false → isnan (Fin k * a)%F = false.
Proof.
  intros Hk. destruct a as [q| | |]; simpl; try done; intros _;
    unfold inf_of_sign; rewrite (proj1 (Qgt_alt k 0) Hk); done.
Qed.

(** The constraint [x - k * pred >= 0] read as [x >= k * pred]. *)
Lemma constraint_floor k c pred :
  (0 < k)%Q →
  (Fin 0 <=? Fin c - Fin k * pred)%F = true → (Fin k * pred <=? Fin c)%F = true.
Proof.
  intros Hk. destruct pred as [q| | |]; simpl; try done.
  - rewrite !Qle_bool_iff. lra.
  - unfold inf_of_sign. rewrite (proj1 (Qgt_alt k 0) Hk). simpl. done.
  - unfold inf_of_sign. rewrite (proj1 (Qgt_alt k 0) Hk). simpl. done.
Qed.

(** ** Columns by name *)

Lemma assoc_set_assoc_eq c col cols : assoc c (set_assoc c col cols) = Some col.
Proof.
  induction cols as [|[c' col'] cols IH]; simpl.
  - by rewrite String.eqb_refl.
  - destruct (String.eqb c c') eqn:E; simpl; rewrite E; [done | apply IH].
Qed.

Lemma assoc_set_assoc_ne c c' col cols :
  c ≠ c' → assoc c (set_assoc c' col cols) = assoc c cols.
Proof.
  intros Hne. induction cols as [|[d col'] cols IH]; simpl.
  - destruct (String.eqb c c') eqn:E; [|done].
    apply String.eqb_eq in E. done.
  - destruct (String.eqb c' d) eqn:E; simpl.
    + apply String.eqb_eq in E as <-.
      destruct (String.eqb c c') eqn:E'; [|done].
      apply String.eqb_eq in E'. done.
    + by rewrite IH.
Qed.

Lemma assoc_None_names c cols : assoc c cols = None ↔ c ∉ cols.*1.
Proof.
  induction cols as [|[d col] cols IH]; simpl.
  - split; [intros _; apply not_elem_of_nil | done].
  - rewrite not_elem_of_cons. destruct (String.eqb c d) eqn:E.
    + apply String.eqb_eq in E. split; [done | intros [? _]; done].
    + apply String.eqb_neq in E. rewrite IH. tauto.
Qed.

Lemma set_assoc_fresh c col cols :
  assoc c cols = None → set_assoc c col cols = cols ++ [(c, col)].
Proof.
  induction cols as [|[d col'] cols IH]; simpl; [done|].
  destruct (String.eqb c d); [done|]. intros H. by rewrite IH.
Qed.

Lemma set_assoc_names_present c col cols :
  assoc c cols ≠ None → (set_assoc c col cols).*1 = cols.*1.
Proof.
  induction cols as [|[d col'] cols IH]; [done|]. simpl.
  destruct (String.eqb c d) eqn:E; [done|].
  intros H. csimpl. f_equal. by apply IH.
Qed.

(** ** [optimize_expenditures] *)

Ltac unfold_result :=
  unfold mbind, mret, result_bind, result_ret, rbind in *.

Ltac unfold_M :=
  unfold mbind, mret, M_bind, M_ret, lift, throw, deref, alloc, update in *.

Section OptimizeFacts.

Variable minimize : solver.
Variable float_of_str : string → option pyfloat.
Variables inflation_rate alpha beta gamma : pyfloat.

Local Abbreviation opt := (optimize_row minimize inflation_rate alpha beta gamma).

Lemma iterrows_loop_cons df i rest acc1 acc2 :
  iterrows_loop minimize float_of_str inflation_rate alpha beta gamma df (i :: rest) acc1 acc2
  = match row_forecast float_of_str df i with
    | Ok p =>
        iterrows_loop minimize float_of_str inflation_rate alpha beta gamma df rest
          (acc1 ++ [(opt p).1]) (acc2 ++ [(opt p).2])
    | Raise e => Raise e
    end.
Proof.
  simpl. unfold row_forecast. unfold_result.
  destruct (row_getitem df i "Forecast_CapEx") as [v1|e1]; [|done].
  destruct (to_float float_of_str v1) as [pc|e1]; [|done].
  destruct (row_getitem df i "Forecast_OpEx") as [v2|e2]; [|done].
  destruct (to_float float_of_str v2) as [po|e2]; [|done].
  unfold optimize_row. simpl.
  by destruct (optimize_point minimize inflation_rate alpha beta gamma pc po).
Qed.

Lemma iterrows_loop_Ok df rows : ∀ acc1 acc2 a1 a2,
  iterrows_loop minimize float_of_str inflation_rate alpha beta gamma df rows acc1 acc2
    = Ok (a1, a2) ↔
  ∃ preds, Forall2 (λ i p, row_forecast float_of_str df i = Ok p) rows preds
           ∧ a1 = acc1 ++ ((λ p, (opt p).1) <$> preds)
           ∧ a2 = acc2 ++ ((λ p, (opt p).2) <$> preds).
Proof.
  induction rows as [|i rows IH]; intros acc1 acc2 a1 a2.
  - simpl. split.
    + intros [= <- <-]. exists []. rewrite !app_nil_r. by split; [constructor|].
    + intros (preds & H & -> & ->). inversion H; subst. by rewrite !app_nil_r.
  - rewrite iterrows_loop_cons.
    destruct (row_forecast float_of_str df i) as [p|e] eqn:Hp.
    + rewrite IH. split.
      * intros (preds & H & -> & ->). exists (p :: preds).
        split; [by constructor|]. by rewrite !fmap_cons, <- !app_assoc.
      * intros (preds & H & -> & ->). inversion H as [|? p' ? preds' Hp' H']; subst.
        rewrite Hp in Hp'. injection Hp' as <-.
        exists preds'. split; [done|]. by rewrite !fmap_cons, <- !app_assoc.
    + split; [done|]. intros (preds & H & _). inversion H; subst. congruence.
Qed.

Lemma iterrows_loop_length df rows a1 a2 :
  iterrows_loop minimize float_of_str inflation_rate alpha beta gamma df rows [] [] = Ok (a1, a2) →
  length a1 = length rows ∧ length a2 = length rows.
Proof.
  intros (preds & H & -> & ->)%iterrows_loop_Ok. simpl.
  rewrite !length_fmap. apply Forall2_length in H. by rewrite H.
Qed.

Lemma optimize_expenditures_Ok df σ out σ' :
  optimize_expenditures minimize float_of_str df inflation_rate alpha beta gamma σ
    = Ok (out, σ') ↔
  ∃ frame preds,
    σ !! df = Some frame
    ∧ Forall2 (λ i p, row_forecast float_of_str frame i = Ok p) (seq 0 (nrows frame)) preds
    ∧ out = fresh (dom σ)
    ∧ σ' = <[out := {| nrows := nrows frame;
                       columns :=
                         set_assoc "Optimized_OpEx" (VFloat <$> ((λ p, (opt p).2) <$> preds))
                           (set_assoc "Optimized_CapEx" (VFloat <$> ((λ p, (opt p).1) <$> preds))
                              (columns frame)) |}]> σ.
Proof.
  unfold optimize_expenditures, copy, setitem_inplace. unfold_M.
  destruct (σ !! df) as [frame|] eqn:Hdf.
  2:{ split; [done|]. by intros (? & ? & ? & _). }
  destruct (iterrows_loop _ _ _ _ _ _ _ _ _ _) as [[a1 a2]|e] eqn:Hloop.
  2:{ split; [done|]. intros (frame' & preds & [= <-] & H & _).
      assert (iterrows_loop minimize float_of_str inflation_rate alpha beta gamma
                frame (seq 0 (nrows frame)) [] [] = Ok ((λ p, (opt p).1) <$> preds, (λ p, (opt p).2) <$> preds)) as H'.
      { apply iterrows_loop_Ok. by exists preds. }
      congruence. }
  pose proof (iterrows_loop_length _ _ _ _ Hloop) as [Hl1 Hl2].
  rewrite length_seq in Hl1, Hl2.
  apply iterrows_loop_Ok in Hloop as (preds & Hpreds & -> & ->). simpl in *.
  rewrite Hdf. rewrite lookup_insert_eq.
  unfold setitem. simpl. rewrite length_fmap, Hl1, Nat.eqb_refl. simpl.
  rewrite lookup_insert_eq. simpl. rewrite length_fmap, Hl2, Nat.eqb_refl. simpl.
  rewrite !insert_insert_eq.
  split.
  - intros [= <- <-]. by exists frame, preds.
  - intros (frame' & preds' & [= <-] & Hpreds' & -> & ->).
    assert (preds' = preds) as ->; [|done].
    clear -Hpreds Hpreds'. revert preds' Hpreds'.
    induction Hpreds; intros preds' H'; inversion H'; subst; [done|].
    f_equal; [congruence | by apply IHHpreds].
Qed.

(** The rows of the output, one by one. *)
Lemma optimize_expenditures_row df σ out σ' frame frame' i p :
  optimize_expenditures minimize float_of_str df inflation_rate alpha beta gamma σ
    = Ok (out, σ') →
  σ !! df = Some frame → σ' !! out = Some frame' → (i < nrows frame)%nat →
  row_forecast float_of_str frame i = Ok p →
  row_getitem frame' i "Optimized_CapEx" = Ok (VFloat (opt p).1)
  ∧ row_getitem frame' i "Optimized_OpEx" = Ok (VFloat (opt p).2).
Proof.
  intros (frame0 & preds & Hdf & Hpreds & -> & ->)%optimize_expenditures_Ok Hdf' Hout Hi Hp.
  rewrite Hdf in Hdf'. injection Hdf' as ->.
  rewrite lookup_insert_eq in Hout. injection Hout as <-.
  assert (preds !! i = Some p) as Hpi.
  { destruct (Forall2_lookup_l _ _ _ i i Hpreds) as (p' & Hp' & Hrow).
    - by apply lookup_seq_lt.
    - rewrite Hp in Hrow. by injection Hrow as <-. }
  unfold row_getitem. simpl.
  rewrite assoc_set_assoc_ne by done.
  rewrite assoc_set_assoc_eq, assoc_set_assoc_eq.
  by rewrite !list_lookup_fmap, Hpi.
Qed.

End OptimizeFacts.

(** C5.  In [optimize_expenditures], for the row at position [i] with the
    forecasts [pred_capex] and [pred_opex]: whenever the solver reports
    failure on that row, or returns a point that is not finite, the
    optimized values stored for the row are exactly [0.8 * pred_capex] and
    [0.7 * pred_opex]. *)
Theorem fallback_is_constraint_floor
  (minimize : solver) (float_of_str : string → option pyfloat)
  (inflation_rate alpha beta gamma : pyfloat)
  (df out : loc) (σ σ' : store) (frame frame' : DataFrame) (i : nat)
  (pred_capex pred_opex : pyfloat) :
  optimize_expenditures minimize float_of_str df inflation_rate alpha beta gamma σ
    = Ok (out, σ') →
  σ !! df = Some frame → σ' !! out = Some frame' → (i < nrows frame)%nat →
  row_forecast float_of_str frame i = Ok (pred_capex, pred_opex) →
  (let result :=
     minimize (objective inflation_rate alpha beta gamma pred_capex pred_opex)
       (pred_capex, pred_opex) bounds (constraints pred_capex pred_opex) in
   success result = false ∨ all_finite (result_x result) = false) →
  row_getitem frame' i "Optimized_CapEx" = Ok (VFloat (Fin (8 # 10) * pred_capex))
  ∧ row_getitem frame' i "Optimized_OpEx" = Ok (VFloat (Fin (7 # 10) * pred_opex)).
Proof.
  intros Hrun Hdf Hout Hi Hp Hfail.
  destruct (optimize_expenditures_row _ _ _ _ _ _ _ _ _ _ _ _ _ _ Hrun Hdf Hout Hi Hp)
    as [Hc Ho].
  rewrite Hc, Ho. unfold optimize_row, optimize_point. simpl in *.
  assert (success (minimize (objective inflation_rate alpha beta gamma pred_capex pred_opex)
                     (pred_capex, pred_opex) bounds (constraints pred_capex pred_opex))
          && all_finite (result_x (minimize (objective inflation_rate alpha beta gamma pred_capex pred_opex)
                     (pred_capex, pred_opex) bounds (constraints pred_capex pred_opex))) = false) as ->.
  { apply andb_false_iff. exact Hfail. }
  done.
Qed.

Lemma fallback_is_constraint_floor_witness :
  let frame' :=
    optimized_frame [(2024, 1000%Q, 2000%Q)]
      [(Fin (8 # 10) * Fin 1000, Fin (7 # 10) * Fin 2000)%F] in
  row_getitem frame' 0 "Optimized_CapEx" = Ok (VFloat (Fin (8 # 10) * Fin 1000))
  ∧ row_getitem frame' 0 "Optimized_OpEx" = Ok (VFloat (Fin (7 # 10) * Fin 2000)).
Proof.
  apply (fallback_is_constraint_floor solver_fail no_float
           default_inflation_rate default_alpha default_beta default_gamma
           1%positive 2%positive
           (one_frame (forecast_frame [(2024, 1000%Q, 2000%Q)]))
           (<[2%positive :=
                optimized_frame [(2024, 1000%Q, 2000%Q)]
                  [(Fin (8 # 10) * Fin 1000, Fin (7 # 10) * Fin 2000)%F]]>
              (one_frame (forecast_frame [(2024, 1000%Q, 2000%Q)])))
           (forecast_frame [(2024, 1000%Q, 2000%Q)]) _ 0 (Fin 1000) (Fin 2000)).
  - vm_compute. reflexivity.
  - reflexivity.
  - reflexivity.
  - simpl. lia.
  - reflexivity.
  - left. reflexivity.
Defined.

(** *** The solvers of the examples meet what is asked of a solver *)

Lemma solver_fail_feasible : solver_feasible solver_fail.
Proof. intros obj x0 bnds cons. simpl. done. Qed.

Lemma solver_fail_descends : solver_descends solver_fail.
Proof. intros obj x0 bnds cons. simpl. done. Qed.

Lemma solver_clip_feasible : solver_feasible solver_clip.
Proof. intros obj x0 bnds cons. simpl. done. Qed.

Lemma solver_newton_feasible : solver_feasible solver_newton.
Proof.
  intros obj x0 bnds cons. unfold solver_newton.
  destruct (feasible bnds cons _ && _) eqn:E; simpl.
  - apply andb_prop in E as [E _]. by intros _ _.
  - done.
Qed.

(** The floor of a forecast that is not negative is not negative. *)
Lemma floor_nonneg k pred :
  (0 < k)%Q → (pred >=? Fin 0)%F = true → (Fin k * pred >=? Fin 0)%F = true.
Proof.
  intros Hk. unfold fge. destruct pred as [q| | |]; simpl; try done.
  - rewrite !Qle_bool_iff. nra.
  - intros _. unfold inf_of_sign. by rewrite (proj1 (Qgt_alt k 0) Hk).
Qed.

(** What one row gets, on either branch. *)
Lemma optimize_point_floor (minimize : solver)
  (inflation_rate alpha beta gamma pred_capex pred_opex : pyfloat) :
  solver_feasible minimize →
  isnan pred_capex = false → isnan pred_opex = false →
  let result :=
    minimize (objective inflation_rate alpha beta gamma pred_capex pred_opex)
      (pred_capex, pred_opex) bounds (constraints pred_capex pred_opex) in
  let x := optimize_point minimize inflation_rate alpha beta gamma pred_capex pred_opex in
  (x.1 >=? Fin (8 # 10) * pred_capex)%F = true
  ∧ (x.2 >=? Fin (7 # 10) * pred_opex)%F = true
  ∧ (success result && all_finite (result_x result) = true
     ∨ ((pred_capex >=? Fin 0)%F = true ∧ (pred_opex >=? Fin 0)%F = true) →
     (x.1 >=? Fin 0)%F = true ∧ (x.2 >=? Fin 0)%F = true).
Proof.
  intros Hsolver Hnc Hno. unfold optimize_point. simpl.
  specialize (Hsolver (objective inflation_rate alpha beta gamma pred_capex pred_opex)
                (pred_capex, pred_opex) bounds (constraints pred_capex pred_opex)).
  destruct (minimize _ _ _ _) as [ok x]. simpl in *.
  destruct (ok && all_finite x) eqn:E.
  - apply andb_prop in E as [-> Hfin]. specialize (Hsolver eq_refl Hfin).
    apply all_finite_inv in Hfin as (c & o & ->).
    unfold feasible, within_bounds, in_bound in Hsolver. simpl in Hsolver.
    rewrite !andb_true_r in Hsolver.
    apply andb_prop in Hsolver as [[Hc0 Ho0]%andb_prop [Hc1 Ho1]%andb_prop].
    unfold fge. simpl.
    split; [by apply constraint_floor|]. split; [by apply constraint_floor|].
    intros _. by split.
  - simpl. unfold fge at 1 2.
    split; [by apply fle_refl, fmul_pos_not_nan|].
    split; [by apply fle_refl, fmul_pos_not_nan|].
    intros [?|[Hc Ho]]; [done|].
    split; by apply floor_nonneg.
Qed.


(** ** The frame of [optimize_expenditures] *)

Lemma elem_of_set_assoc_names c c' col cols :
  c ∈ (set_assoc c' col cols).*1 ↔ c ∈ cols.*1 ∨ c = c'.
Proof.
  induction cols as [|[d col'] cols IH]; simpl.
  - rewrite list_elem_of_singleton. split; [by right | intros [[]%elem_of_nil|]; done].
  - destruct (String.eqb c' d) eqn:E; csimpl.
    + apply String.eqb_eq in E as ->. rewrite !elem_of_cons. tauto.
    + rewrite !elem_of_cons, IH. tauto.
Qed.




(** ** Grouping by year *)

Section Grouping.

Implicit Types (r g : HistRow) (gs rows : list HistRow) (y : Z).

Lemma elem_of_group_insert r gs y :
  y ∈ h_year <$> group_insert r gs ↔ y = h_year r ∨ y ∈ h_year <$> gs.
Proof.
  induction gs as [|g gs IH]; simpl.
  - rewrite list_elem_of_singleton, elem_of_nil. tauto.
  - destruct (h_year r <? h_year g) eqn:E1; [csimpl; rewrite !elem_of_cons; tauto|].
    destruct (h_year r =? h_year g) eqn:E2; csimpl.
    + apply Z.eqb_eq in E2. rewrite !elem_of_cons, E2. tauto.
    + rewrite !elem_of_cons, IH. tauto.
Qed.

Lemma group_insert_sorted r gs :
  StronglySorted Z.lt (h_year <$> gs) →
  StronglySorted Z.lt (h_year <$> group_insert r gs).
Proof.
  induction gs as [|g gs IH]; simpl; intros Hs.
  - repeat constructor.
  - csimpl in Hs. apply StronglySorted_inv in Hs as [Hs Hall].
    destruct (h_year r <? h_year g) eqn:E1.
    + apply Z.ltb_lt in E1. csimpl. constructor.
      * by constructor.
      * constructor; [done|]. eapply Forall_impl; [exact Hall|]. simpl. lia.
    + apply Z.ltb_ge in E1.
      destruct (h_year r =? h_year g) eqn:E2; csimpl.
      * by constructor.
      * apply Z.eqb_neq in E2. constructor; [by apply IH|].
        apply Forall_forall. intros y [->|Hy]%elem_of_group_insert; [lia|].
        rewrite Forall_forall in Hall. by apply Hall.
Qed.

Lemma groupby_fold_sorted rows : ∀ gs,
  StronglySorted Z.lt (h_year <$> gs) →
  StronglySorted Z.lt (h_year <$> fold_left (λ groups r, group_insert r groups) rows gs).
Proof.
  induction rows as [|r rows IH]; intros gs Hs; simpl; [done|].
  by apply IH, group_insert_sorted.
Qed.

Lemma elem_of_groupby_fold rows : ∀ gs y,
  y ∈ h_year <$> fold_left (λ groups r, group_insert r groups) rows gs
  ↔ y ∈ h_year <$> gs ∨ y ∈ h_year <$> rows.
Proof.
  induction rows as [|r rows IH]; intros gs y; simpl.
  - rewrite elem_of_nil. tauto.
  - rewrite IH, elem_of_group_insert. csimpl. rewrite elem_of_cons. tauto.
Qed.

Lemma groupby_sorted rows : StronglySorted Z.lt (h_year <$> groupby_year_sum rows).
Proof. apply groupby_fold_sorted. constructor. Qed.

Lemma elem_of_groupby rows y :
  y ∈ h_year <$> groupby_year_sum rows ↔ y ∈ h_year <$> rows.
Proof.
  unfold groupby_year_sum. rewrite elem_of_groupby_fold. csimpl.
  rewrite elem_of_nil. tauto.
Qed.

Lemma StronglySorted_lt_NoDup (l : list Z) : StronglySorted Z.lt l → NoDup l.
Proof.
  induction 1 as [|x l Hs IH Hall]; [constructor|].
  apply NoDup_cons. split; [|done].
  intros Hx. rewrite Forall_forall in Hall. specialize (Hall x Hx). lia.
Qed.

Lemma StronglySorted_lt_le (l : list Z) : StronglySorted Z.lt l → StronglySorted Z.le l.
Proof.
  induction 1 as [|x l Hs IH Hall]; constructor; [done|].
  eapply Forall_impl; [exact Hall|]. simpl. lia.
Qed.

Lemma groupby_NoDup rows : NoDup (h_year <$> groupby_year_sum rows).
Proof. apply StronglySorted_lt_NoDup, groupby_sorted. Qed.

(** [grouped] has one row for each year that occurs. *)
Lemma groupby_length rows :
  length (groupby_year_sum rows) = length (remove_dups (h_year <$> rows)).
Proof.
  rewrite <- (length_fmap h_year). apply Permutation_length.
  apply NoDup_Permutation; [apply groupby_NoDup | apply NoDup_remove_dups |].
  intros y. by rewrite elem_of_groupby, elem_of_remove_dups.
Qed.

(** The years of [grouped], in its order. *)
Lemma groupby_years rows :
  h_year <$> groupby_year_sum rows = merge_sort Z.le (remove_dups (h_year <$> rows)).
Proof.
  apply (StronglySorted_unique Z.le).
  - apply StronglySorted_lt_le, groupby_sorted.
  - apply StronglySorted_merge_sort; apply _.
  - apply NoDup_Permutation.
    + apply groupby_NoDup.
    + rewrite merge_sort_Permutation. apply NoDup_remove_dups.
    + intros y. by rewrite merge_sort_Permutation, elem_of_groupby, elem_of_remove_dups.
Qed.

(** Sums: a row joins the sums of its year and of no other. *)
Lemma sum_group_insert (f : HistRow → Q) r gs y :
  (∀ g r, f (mkHistRow (h_year g) (h_capex g + h_capex r) (h_opex g + h_opex r))
          == f g + f r)%Q →
  (sum_of_year y (λ g, Some (f g)) h_year (group_insert r gs)
   == (if h_year r =? y then f r else 0) + sum_of_year y (λ g, Some (f g)) h_year gs)%Q.
Proof.
  intros Hf. induction gs as [|g gs IH]; simpl.
  - destruct (h_year r =? y); lra.
  - destruct (h_year r <? h_year g) eqn:E1; simpl.
    { destruct (h_year r =? y), (h_year g =? y); lra. }
    destruct (h_year r =? h_year g) eqn:E2; simpl.
    + apply Z.eqb_eq in E2. rewrite E2. specialize (Hf g r).
      destruct (h_year g =? y); lra.
    + destruct (h_year g =? y), (h_year r =? y); lra.
Qed.

Lemma sum_groupby_fold (f : HistRow → Q) rows y :
  (∀ g r, f (mkHistRow (h_year g) (h_capex g + h_capex r) (h_opex g + h_opex r))
          == f g + f r)%Q →
  ∀ gs,
  (sum_of_year y (λ g, Some (f g)) h_year
     (fold_left (λ groups r, group_insert r groups) rows gs)
   == sum_of_year y (λ g, Some (f g)) h_year gs
      + sum_of_year y (λ g, Some (f g)) h_year rows)%Q.
Proof.
  intros Hf. induction rows as [|r rows IH]; intros gs; simpl.
  - lra.
  - rewrite IH. pose proof (sum_group_insert f r gs y Hf) as H.
    destruct (h_year r =? y); lra.
Qed.

Lemma sum_of_year_absent (f : HistRow → Q) gs y :
  y ∉ h_year <$> gs → (sum_of_year y (λ g, Some (f g)) h_year gs == 0)%Q.
Proof.
  induction gs as [|g gs IH]; simpl; [lra|].
  csimpl. rewrite not_elem_of_cons. intros [Hne Hy].
  destruct (h_year g =? y) eqn:E; [apply Z.eqb_eq in E; congruence|].
  by apply IH.
Qed.

Lemma sum_of_year_unique (f : HistRow → Q) gs g :
  NoDup (h_year <$> gs) → g ∈ gs →
  (sum_of_year (h_year g) (λ g, Some (f g)) h_year gs == f g)%Q.
Proof.
  induction gs as [|g' gs IH]; [by intros _ ?%elem_of_nil|].
  csimpl. rewrite NoDup_cons. intros [Hnot Hnd] [->|Hin]%elem_of_cons.
  - simpl. rewrite Z.eqb_refl. rewrite (sum_of_year_absent f gs (h_year g') Hnot). lra.
  - simpl. destruct (h_year g' =? h_year g) eqn:E.
    + apply Z.eqb_eq in E. exfalso. apply Hnot. rewrite E.
      by apply list_elem_of_fmap_2.
    + by apply IH.
Qed.

(** Every row of [grouped] holds the sums of its year. *)
Lemma groupby_sums (f : HistRow → Q) rows g :
  (∀ g r, f (mkHistRow (h_year g) (h_capex g + h_capex r) (h_opex g + h_opex r))
          == f g + f r)%Q →
  g ∈ groupby_year_sum rows →
  (f g == sum_of_year (h_year g) (λ g, Some (f g)) h_year rows)%Q.
Proof.
  intros Hf Hg.
  rewrite <- (sum_of_year_unique f (groupby_year_sum rows) g (groupby_NoDup rows) Hg).
  unfold groupby_year_sum. rewrite (sum_groupby_fold f rows (h_year g) Hf []). simpl. lra.
Qed.

End Grouping.

(** ** Which exceptions the steps can raise *)

Section Raises.

Context {A B : Type} (P : exn → Prop).

Lemma fails_only_Ok (a : A) : fails_only P (Ok a).
Proof. by intros e. Qed.

Lemma fails_only_Raise e : P e → fails_only P (@Raise A e).
Proof. by intros He e' [= <-]. Qed.

Lemma fails_only_bind (r : result A) (k : A → result B) :
  fails_only P r → (∀ a, r = Ok a → fails_only P (k a)) → fails_only P (r ≫= k).
Proof.
  intros Hr Hk e. unfold_result. destruct r as [a|e']; [by apply Hk|].
  intros [= ->]. by apply Hr.
Qed.

Lemma raises_only_ret (a : A) : raises_only P (mret a).
Proof. by intros σ e. Qed.

Lemma raises_only_bind (m : M A) (k : A → M B) :
  raises_only P m → (∀ a, raises_only P (k a)) → raises_only P (m ≫= k).
Proof.
  intros Hm Hk σ e. unfold mbind, M_bind.
  destruct (m σ) as [[a σ']|e'] eqn:E; [apply Hk|].
  intros [= ->]. by apply (Hm σ).
Qed.

Lemma raises_only_lift (r : result A) : fails_only P r → raises_only P (lift r).
Proof. intros Hr σ e. unfold lift. destruct r; [done|]. intros [= ->]. by apply Hr. Qed.

Lemma raises_only_throw e : P e → raises_only P (@throw A e).
Proof. by intros He σ e' [= <-]. Qed.

End Raises.

Lemma fails_only_mapM {A B} (P : exn → Prop) (f : A → result B) (l : list A) :
  (∀ a, fails_only P (f a)) → fails_only P (mapM f l).
Proof.
  intros Hf. induction l as [|a l IH]; simpl; [by intros e|].
  apply fails_only_bind; [apply Hf|]. intros b _.
  apply fails_only_bind; [apply IH|]. by intros bs _ e.
Qed.

Lemma fails_only_impl {A} (P Q : exn → Prop) (r : result A) :
  (∀ e, P e → Q e) → fails_only P r → fails_only Q r.
Proof. intros H Hr e He. by apply H, Hr. Qed.

Lemma raises_only_impl {A} (P Q : exn → Prop) (m : M A) :
  (∀ e, P e → Q e) → raises_only P m → raises_only Q m.
Proof. intros H Hm σ. by eapply fails_only_impl. Qed.

Local Abbreviation table := (λ e, table_error e = true).

Lemma getitem_fails df c : fails_only table (getitem df c).
Proof. unfold getitem. destruct (assoc c (columns df)); by intros e [= <-]. Qed.

Lemma row_getitem_fails df i c : fails_only table (row_getitem df i c).
Proof.
  unfold row_getitem. destruct (assoc c (columns df)) as [col|]; [|by intros e [= <-]].
  destruct (col !! i); by intros e [= <-].
Qed.

Lemma to_float_fails fos v : fails_only table (to_float fos v).
Proof.
  destruct v as [z|f|s]; simpl; try by intros e.
  destruct (fos s); by intros e [= <-].
Qed.

Lemma as_float_fails v : fails_only table (as_float v).
Proof. destruct v; by intros e [= <-]. Qed.

Lemma setitem_fails df c col : fails_only table (setitem df c col).
Proof. unfold setitem. destruct (Nat.eqb _ _); by intros e [= <-]. Qed.

Lemma column_sum_fails df c : fails_only table (column_sum df c).
Proof.
  unfold column_sum. apply fails_only_bind; [apply getitem_fails|]. intros col _.
  apply fails_only_bind; [|by intros fs _ e].
  apply fails_only_mapM. apply as_float_fails.
Qed.

Lemma select_fails df cs : fails_only table (select df cs).
Proof.
  unfold select. apply fails_only_bind; [|by intros cols _ e].
  apply fails_only_mapM. intros c.
  apply fails_only_bind; [apply getitem_fails|]. by intros col _ e.
Qed.

Lemma merge_left_fails l r on : fails_only table (merge_left l r on).
Proof.
  unfold merge_left. apply fails_only_bind; [apply getitem_fails|]. intros lkey _.
  apply fails_only_bind; [apply getitem_fails|]. by intros rkey _ e.
Qed.

Lemma new_pred_frame_fails years capex opex :
  fails_only table (new_pred_frame years capex opex).
Proof. unfold new_pred_frame. destruct (Nat.eqb _ _); by intros e [= <-]. Qed.

(** The guard of a percentage: the division is reached with a divisor that
    is not zero. *)
Lemma guarded_division_returns (a b : pyfloat) (k : pyfloat → pyfloat) :
  returns (if truthy b then q ← fdiv a b; mret (k q) else mret (Fin 0)).
Proof.
  unfold returns, fdiv. unfold_result.
  destruct b as [q| | |]; simpl; eauto.
  destruct (Qeq_bool q 0); simpl; eauto.
Qed.

Lemma guarded_division_fails (P : exn → Prop) (a b : pyfloat) (k : pyfloat → pyfloat) :
  fails_only P (if truthy b then q ← fdiv a b; mret (k q) else mret (Fin 0)).
Proof.
  destruct (guarded_division_returns a b k) as [v ->]. by intros e.
Qed.

Lemma deref_raises l : raises_only table (deref l).
Proof. intros σ e. unfold deref. destruct (σ !! l); by intros [= <-]. Qed.

Lemma alloc_raises (P : exn → Prop) df : raises_only P (alloc df).
Proof. by intros σ e. Qed.

Lemma update_raises (P : exn → Prop) l df : raises_only P (update l df).
Proof. by intros σ e. Qed.

Lemma copy_raises l : raises_only table (copy l).
Proof.
  apply raises_only_bind; [apply deref_raises|]. intros df. apply alloc_raises.
Qed.

Lemma setitem_inplace_raises l c col : raises_only table (setitem_inplace l c col).
Proof.
  apply raises_only_bind; [apply deref_raises|]. intros df.
  apply raises_only_bind; [apply raises_only_lift, setitem_fails|]. intros df'.
  apply update_raises.
Qed.

Lemma iterrows_loop_fails minimize fos r a b g df rows : ∀ acc1 acc2,
  fails_only table (iterrows_loop minimize fos r a b g df rows acc1 acc2).
Proof.
  induction rows as [|i rows IH]; intros acc1 acc2; [by intros e|].
  rewrite iterrows_loop_cons.
  destruct (row_forecast fos df i) as [p|e'] eqn:E; [apply IH|].
  intros e [= <-]. revert E. unfold row_forecast.
  assert (fails_only table (row_getitem df i "Forecast_CapEx" ≫= to_float fos)) as H1.
  { apply fails_only_bind; [apply row_getitem_fails|]. intros v _. apply to_float_fails. }
  assert (fails_only table (row_getitem df i "Forecast_OpEx" ≫= to_float fos)) as H2.
  { apply fails_only_bind; [apply row_getitem_fails|]. intros v _. apply to_float_fails. }
  intros E. eapply (fails_only_bind table); [exact H1| |exact E].
  intros pc _. apply fails_only_bind; [exact H2|]. by intros po _ e.
Qed.

Lemma optimize_expenditures_raises minimize fos df r a b g :
  raises_only table (optimize_expenditures minimize fos df r a b g).
Proof.
  unfold optimize_expenditures.
  apply raises_only_bind; [apply deref_raises|]. intros frame.
  apply raises_only_bind; [apply raises_only_lift, iterrows_loop_fails|]. intros [oc oo].
  apply raises_only_bind; [apply copy_raises|]. intros out.
  apply raises_only_bind; [apply setitem_inplace_raises|]. intros _.
  apply raises_only_bind; [apply setitem_inplace_raises|]. intros _.
  apply raises_only_ret.
Qed.

Lemma calculate_metrics_raises full_df : raises_only table (calculate_metrics full_df).
Proof.
  unfold calculate_metrics.
  apply raises_only_bind; [apply deref_raises|]. intros full.
  do 4 (apply raises_only_bind; [apply raises_only_lift, column_sum_fails|]; intros ?).
  apply raises_only_bind; [apply raises_only_lift, guarded_division_fails|]. intros ?.
  apply raises_only_ret.
Qed.

Lemma recommendation_figures_fails pred opt :
  fails_only table (recommendation_figures pred opt).
Proof.
  unfold recommendation_figures.
  do 4 (apply fails_only_bind; [apply column_sum_fails|]; intros ? _).
  do 3 (apply fails_only_bind; [apply guarded_division_fails|]; intros ? _).
  by intros e.
Qed.

Lemma generate_recommendations_raises fmt pred_df opt_df :
  raises_only table (generate_recommendations fmt pred_df opt_df).
Proof.
  unfold generate_recommendations.
  apply raises_only_bind; [apply deref_raises|]. intros pred.
  apply raises_only_bind; [apply deref_raises|]. intros opt.
  apply raises_only_bind; [apply raises_only_lift, recommendation_figures_fails|].
  intros [[[? ?] ?] ?]. apply raises_only_ret.
Qed.

(** ** Lists: ranges, joins and sums *)

Lemma length_py_range a b : length (py_range a b) = Z.to_nat (b - a).
Proof. unfold py_range. by rewrite length_fmap, length_seq. Qed.

Lemma lookup_py_range a b (i : nat) :
  (i < Z.to_nat (b - a))%nat → py_range a b !! i = Some (a + Z.of_nat i).
Proof.
  intros Hi. unfold py_range. rewrite list_lookup_fmap, lookup_seq_lt by done. done.
Qed.

Lemma NoDup_py_range a b : NoDup (py_range a b).
Proof.
  unfold py_range. apply NoDup_fmap_2; [|apply NoDup_seq].
  intros j k. lia.
Qed.

Lemma length_pad n (l : list pyfloat) : (length l ≤ n)%nat → length (pad n l) = n.
Proof. intros H. unfold pad. rewrite length_app, length_replicate. lia. Qed.

Lemma pad_exact n (l : list pyfloat) : length l = n → pad n l = l.
Proof. intros <-. unfold pad. by rewrite Nat.sub_diag, app_nil_r. Qed.

Lemma fmap_lookup_seq {A} (d : A) (l : list A) :
  (λ i, default d (l !! i)) <$> seq 0 (length l) = l.
Proof.
  apply list_eq. intros i. rewrite list_lookup_fmap.
  destruct (decide (i < length l)%nat) as [Hi|Hi].
  - rewrite lookup_seq_lt by done. simpl.
    destruct (lookup_lt_is_Some_2 l i Hi) as [x Hx]. by rewrite Hx.
  - rewrite lookup_seq_ge by lia. simpl. symmetry. apply lookup_ge_None. lia.
Qed.

Lemma positions_from_absent j y (ys : list Z) :
  y ∉ ys → positions_from j (VInt y) (VInt <$> ys) = [].
Proof.
  revert j. induction ys as [|z ys IH]; intros j; [done|].
  rewrite not_elem_of_cons. intros [Hne Hy]. csimpl.
  destruct (y =? z) eqn:E; [apply Z.eqb_eq in E; done|]. by apply IH.
Qed.

Lemma positions_from_unique (ys : list Z) : ∀ j i y,
  NoDup ys → ys !! i = Some y →
  positions_from j (VInt y) (VInt <$> ys) = [(j + i)%nat].
Proof.
  induction ys as [|z ys IH]; intros j i y Hnd Hi; [done|].
  apply NoDup_cons in Hnd as [Hz Hnd]. csimpl.
  destruct i as [|i]; simpl in Hi.
  - injection Hi as ->. rewrite Z.eqb_refl, positions_from_absent by done.
    by rewrite Nat.add_0_r.
  - destruct (y =? z) eqn:E.
    + apply Z.eqb_eq in E as ->. apply list_elem_of_lookup_2 in Hi. done.
    + rewrite (IH (S j) i y Hnd Hi). f_equal. lia.
Qed.

(** A left join of a column of distinct years with itself pairs every row
    with itself. *)
Lemma left_join_self (ys : list Z) :
  NoDup ys →
  left_join (VInt <$> ys) (VInt <$> ys) = (λ i, (i, Some i)) <$> seq 0 (length ys).
Proof.
  intros Hnd. unfold left_join.
  assert (∀ (l : list Z) n,
    (∀ i y, l !! i = Some y → ys !! (n + i)%nat = Some y) →
    concat (imap (λ i k,
      match positions_from 0 k (VInt <$> ys) with
      | [] => [((n + i)%nat, None)]
      | js => (λ j, ((n + i)%nat, Some j)) <$> js
      end) (VInt <$> l)) = (λ i, (i, Some i)) <$> seq n (length l)) as Hgen.
  { induction l as [|y l IH]; intros n Hl; [done|].
    csimpl. rewrite (positions_from_unique ys 0 (n + 0) y Hnd (Hl 0%nat y eq_refl)).
    simpl. rewrite Nat.add_0_r. f_equal.
    rewrite <- (IH (S n)).
    - f_equal. apply imap_ext. intros i k _. simpl.
      replace (n + S i)%nat with (S (n + i)) by lia. done.
    - intros i z Hi. replace (S n + i)%nat with (n + S i)%nat by lia. by apply Hl. }
  apply (Hgen ys 0%nat). by intros i y.
Qed.

Lemma take_left_self (col : list value) :
  take_left col ((λ i, (i, Some i)) <$> seq 0 (length col)) = col.
Proof.
  unfold take_left. rewrite <- list_fmap_compose.
  apply (fmap_lookup_seq (VFloat NaN)).
Qed.

Lemma take_right_self (col : list value) :
  take_right col ((λ i, (i, Some i)) <$> seq 0 (length col)) = col.
Proof.
  unfold take_right. rewrite <- list_fmap_compose.
  apply (fmap_lookup_seq (VFloat NaN)).
Qed.

Lemma take_left_length (col : list value) n :
  length col = n → take_left col ((λ i, (i, Some i)) <$> seq 0 n) = col.
Proof. intros <-. apply take_left_self. Qed.

Lemma take_right_length (col : list value) n :
  length col = n → take_right col ((λ i, (i, Some i)) <$> seq 0 n) = col.
Proof. intros <-. apply take_right_self. Qed.

Lemma mapM_as_float (l : list pyfloat) : mapM as_float (VFloat <$> l) = Ok l.
Proof.
  induction l as [|x l IH]; [done|]. csimpl. unfold_result. simpl.
  unfold mbind, result_bind, rbind in IH. by rewrite IH.
Qed.

(** The sum of a column of finite floats. *)
Lemma fsum_Fin_from (qs : list Q) : ∀ acc,
  fold_left (λ acc v, if isnan v then acc else (acc + v)%F) (Fin <$> qs) (Fin acc)
  = Fin (fold_left Qplus qs acc).
Proof. induction qs as [|q qs IH]; intros acc; [done|]. csimpl. apply IH. Qed.

Lemma fsum_Fin (qs : list Q) : fsum (Fin <$> qs) = Fin (fold_left Qplus qs 0%Q).
Proof. apply fsum_Fin_from. Qed.

Lemma fold_left_max_spec (rest : list Z) : ∀ y,
  fold_left Z.max rest y ∈ y :: rest ∧ ∀ z, z ∈ y :: rest → z ≤ fold_left Z.max rest y.
Proof.
  induction rest as [|x rest IH]; intros y; simpl.
  - split; [apply list_elem_of_here|]. intros z ->%list_elem_of_singleton. lia.
  - destruct (IH (Z.max y x)) as [Hin Hmax]. split.
    + apply elem_of_cons in Hin as [Heq|Hin].
      * rewrite Heq. destruct (Z.max_spec y x) as [[_ ->]|[_ ->]].
        -- apply list_elem_of_further, list_elem_of_here.
        -- apply list_elem_of_here.
      * by do 2 apply list_elem_of_further.
    + intros z Hz. rewrite !elem_of_cons in Hz.
      destruct Hz as [->|[->|Hz]].
      * etransitivity; [|apply Hmax, list_elem_of_here]. lia.
      * etransitivity; [|apply Hmax, list_elem_of_here]. lia.
      * by apply Hmax, list_elem_of_further.
Qed.

(** [Series.max()] is the largest element of a column that is not empty. *)
Lemma year_max_spec (l : list Z) :
  l ≠ [] → year_max l ∈ l ∧ ∀ y, y ∈ l → y ≤ year_max l.
Proof. destruct l as [|y rest]; [done|]. intros _. apply fold_left_max_spec. Qed.

(** ** The pipeline *)

Section PipelineFacts.

Variable minimize : solver.
Variable float_of_str : string → option pyfloat.
Variable to_numeric_str : string → option Q.
Variable str_of_number : Q → string.
Variable Model : Type.
Variable auto_arima : list Q → Model.
Variable predict : Model → Z → list pyfloat.
Variable format_float : string → pyfloat → string.

Local Abbreviation load_history' := (load_history to_numeric_str str_of_number).
Local Abbreviation bank_rows' := (bank_rows to_numeric_str str_of_number).
Local Abbreviation forecast_expenditure' :=
  (forecast_expenditure to_numeric_str Model auto_arima predict).

(** *** Cleaning *)

Lemma load_history_Ok sheet bank_name current_year :
  bank_rows' sheet bank_name ≠ [] →
  load_history' sheet bank_name current_year
  = Ok (groupby_year_sum
          (coerce_expenditures to_numeric_str
             (List.filter (λ r, yr_year r <=? current_year - 1)
                (bank_rows' sheet bank_name)))).
Proof.
  unfold load_history, bank_rows.
  by destruct (List.filter (is_bank str_of_number bank_name) _).
Qed.

Lemma load_history_Raise sheet bank_name current_year :
  bank_rows' sheet bank_name = [] →
  load_history' sheet bank_name current_year = Raise (ValueError_no_bank bank_name).
Proof. unfold load_history, bank_rows. by intros ->. Qed.

Lemma coerce_expenditures_years df :
  h_year <$> coerce_expenditures to_numeric_str df = yr_year <$> df.
Proof. unfold coerce_expenditures. rewrite <- list_fmap_compose. done. Qed.

Lemma fmap_filter_year (m : Z) (df : list YearRow) :
  yr_year <$> List.filter (λ r, yr_year r <=? m) df
  = List.filter (λ y, y <=? m) (yr_year <$> df).
Proof.
  induction df as [|r df IH]; [done|]. csimpl.
  destruct (yr_year r <=? m); csimpl; by rewrite IH.
Qed.

(** [grouped] has one row for each historical year of the institution. *)
Lemma load_history_length sheet bank_name current_year grouped :
  load_history' sheet bank_name current_year = Ok grouped →
  length grouped
  = length (historical_years to_numeric_str str_of_number sheet bank_name current_year)
  ∧ ∀ y, y ∈ h_year <$> grouped
         ↔ y ∈ historical_years to_numeric_str str_of_number sheet bank_name current_year.
Proof.
  destruct (bank_rows' sheet bank_name) as [|r rows] eqn:Hrows.
  { by rewrite load_history_Raise. }
  rewrite load_history_Ok by (by rewrite Hrows). intros [= <-].
  unfold historical_years. rewrite Hrows. split.
  - by rewrite groupby_length, coerce_expenditures_years, fmap_filter_year.
  - intros y.
    by rewrite elem_of_groupby, coerce_expenditures_years, fmap_filter_year,
         elem_of_remove_dups.
Qed.

Lemma historical_years_no_rows sheet bank_name current_year :
  bank_rows' sheet bank_name = [] →
  historical_years to_numeric_str str_of_number sheet bank_name current_year = [].
Proof. unfold historical_years. by intros ->. Qed.

Lemma sum_of_year_coerce (y : Z) (df : list YearRow) :
  sum_of_year y (λ g, Some (h_capex g)) h_year (coerce_expenditures to_numeric_str df)
  = sum_of_year y (λ r, r.1.2) (λ r, r.1.1) (spec_coerce to_numeric_str df)
  ∧ sum_of_year y (λ g, Some (h_opex g)) h_year (coerce_expenditures to_numeric_str df)
    = sum_of_year y (λ r, r.2) (λ r, r.1.1) (spec_coerce to_numeric_str df).
Proof.
  induction df as [|r df [IH1 IH2]]; [done|]. csimpl.
  destruct (yr_year r =? y); by rewrite IH1, IH2.
Qed.

Lemma spec_coerce_years df :
  (λ r, r.1.1) <$> spec_coerce to_numeric_str df = yr_year <$> df.
Proof. unfold spec_coerce. by rewrite <- list_fmap_compose. Qed.

(** The grouping of the code against the grouping in words: the years that
    occur, in increasing order, each with the sums of its rows. *)
Lemma groupby_refines (df : list YearRow) :
  Forall2 hist_eq
    (groupby_year_sum (coerce_expenditures to_numeric_str df))
    (spec_groupby (spec_coerce to_numeric_str df)).
Proof.
  unfold spec_groupby.
  rewrite spec_coerce_years, <- coerce_expenditures_years, <- groupby_years.
  apply Forall2_fmap_r, Forall2_fmap_r, Forall_Forall2_diag, Forall_forall.
  intros g Hg. unfold hist_eq. simpl. split; [done|].
  destruct (sum_of_year_coerce (h_year g) df) as [<- <-].
  split; apply (groupby_sums _ _ g); try done; intros g' r; simpl; lra.
Qed.

(** The order of the first two steps shows on a [Year] column with a text
    that is no number: filled forward first, the text reaches the blank
    below it, and both rows are dropped. *)
Example forward_fill_before_coercion :
  to_numeric no_number <$> ffill Blank [Number 2020; Text "tbd"; Blank; Number 2021; Blank]
  = [Some 2020%Q; None; None; Some 2021%Q; Some 2021%Q].
Proof. reflexivity. Qed.

(** *** Forecasting *)

Lemma omap_to_numeric_Number {A} (f : A → Q) (l : list A) :
  omap (to_numeric to_numeric_str) ((λ g, Number (f g)) <$> l) = f <$> l.
Proof. induction l as [|a l IH]; [done|]. csimpl. by rewrite IH. Qed.

Lemma numeric_points_omap series :
  numeric_points to_numeric_str series = length (omap (to_numeric to_numeric_str) series).
Proof.
  unfold numeric_points. induction series as [|c series IH]; [done|]. csimpl.
  destruct (to_numeric to_numeric_str c) as [q|] eqn:E; simpl.
  - by rewrite IH.
  - done.
Qed.

Lemma forecast_expenditure_few series periods :
  (numeric_points to_numeric_str series < 3)%nat →
  forecast_expenditure' series periods
  = Raise (ValueError_points (numeric_points to_numeric_str series)).
Proof.
  rewrite numeric_points_omap. intros H. unfold forecast_expenditure.
  apply Nat.ltb_lt in H. by rewrite H.
Qed.

Lemma forecast_expenditure_enough series periods :
  (3 ≤ numeric_points to_numeric_str series)%nat →
  forecast_expenditure' series periods
  = Ok (predict (auto_arima (omap (to_numeric to_numeric_str) series)) periods).
Proof.
  rewrite numeric_points_omap. intros H. unfold forecast_expenditure.
  apply Nat.ltb_ge in H. by rewrite H.
Qed.

Lemma forecast_expenditure_grouped {A} (f : A → Q) (l : list A) periods :
  (3 ≤ length l)%nat →
  forecast_expenditure' ((λ g, Number (f g)) <$> l) periods
  = Ok (predict (auto_arima (f <$> l)) periods).
Proof.
  intros H. rewrite forecast_expenditure_enough.
  - by rewrite omap_to_numeric_Number.
  - by rewrite numeric_points_omap, omap_to_numeric_Number, length_fmap.
Qed.

(** *** Forecast table, optimization and merge *)

Lemma new_pred_frame_Ok years capex opex :
  length years = Nat.max (length capex) (length opex) →
  new_pred_frame years capex opex
  = Ok (forecast_table years (pad (length years) capex) (pad (length years) opex)).
Proof.
  intros H. unfold new_pred_frame, forecast_table. rewrite <- H, Nat.eqb_refl. done.
Qed.

Lemma new_pred_frame_Raise years capex opex :
  length years ≠ Nat.max (length capex) (length opex) →
  new_pred_frame years capex opex = Raise ValueError_length.
Proof.
  intros H. unfold new_pred_frame. apply Nat.eqb_neq in H. by rewrite H.
Qed.

Lemma row_forecast_table years capex opex i p :
  zip capex opex !! i = Some p →
  row_forecast float_of_str (forecast_table years capex opex) i = Ok p.
Proof.
  intros Hp. destruct p as [pc po].
  apply lookup_zip_with_Some in Hp as (x & y & [= <- <-] & Hx & Hy).
  unfold row_forecast, row_getitem. simpl.
  by rewrite !list_lookup_fmap, Hx, Hy.
Qed.

Lemma optimize_forecast_table years capex opex σ l :
  length capex = length years → length opex = length years →
  σ !! l = Some (forecast_table years capex opex) →
  optimize_expenditures minimize float_of_str l default_inflation_rate default_alpha
    default_beta default_gamma σ
  = Ok (fresh (dom σ), <[fresh (dom σ) := combined_table minimize years capex opex]> σ).
Proof.
  intros Hc Ho Hl. apply optimize_expenditures_Ok.
  exists (forecast_table years capex opex), (zip capex opex).
  split; [done|]. split.
  { apply Forall2_same_length_lookup_2.
    - rewrite length_seq, length_zip_with. simpl. lia.
    - intros i j p Hi Hp. apply lookup_seq in Hi as [-> _].
      by apply row_forecast_table. }
  split; [done|]. f_equal. unfold combined_table, optimized_points. simpl.
  by rewrite <- !list_fmap_compose.
Qed.

Lemma merge_combined years capex opex :
  NoDup years → length capex = length years → length opex = length years →
  (right ← select (combined_table minimize years capex opex)
             ["Year"; "Optimized_CapEx"; "Optimized_OpEx"];
   merge_left (forecast_table years capex opex) right "Year")
  = Ok (combined_table minimize years capex opex).
Proof.
  intros Hnd Hc Ho. unfold select, merge_left, getitem. unfold_result. simpl.
  rewrite (left_join_self years Hnd). rewrite length_fmap, length_seq.
  unfold combined_table. f_equal. f_equal.
  assert (length (optimized_points minimize capex opex) = length years) as Hp.
  { unfold optimized_points. rewrite length_fmap, length_zip_with. lia. }
  rewrite !(take_left_length _ (length years)), !(take_right_length _ (length years));
    rewrite ?length_fmap; done.
Qed.

Lemma forecast_and_optimize_Ok grouped forecast_years σ :
  (3 ≤ length grouped)%nat →
  let years :=
    py_range (year_max (h_year <$> grouped) + 1)
      (year_max (h_year <$> grouped) + 1 + forecast_years) in
  let capex := predict (auto_arima (h_capex <$> grouped)) forecast_years in
  let opex := predict (auto_arima (h_opex <$> grouped)) forecast_years in
  length years = Nat.max (length capex) (length opex) →
  ∃ pred_df optimized_df full_df,
    pred_df ≠ optimized_df ∧ pred_df ≠ full_df
    ∧ forecast_and_optimize minimize float_of_str to_numeric_str Model auto_arima predict
        grouped forecast_years σ
      = Ok ((pred_df, full_df),
            <[full_df := combined_table minimize years (pad (length years) capex)
                           (pad (length years) opex)]>
              (<[optimized_df := combined_table minimize years (pad (length years) capex)
                                   (pad (length years) opex)]>
                 (<[pred_df := forecast_table years (pad (length years) capex)
                                 (pad (length years) opex)]> σ))).
Proof.
  intros Hlen years capex opex Hyears.
  assert (length (pad (length years) capex) = length years) as Hc by (apply length_pad; lia).
  assert (length (pad (length years) opex) = length years) as Ho by (apply length_pad; lia).
  set (pred := forecast_table years (pad (length years) capex) (pad (length years) opex)).
  set (full := combined_table minimize years (pad (length years) capex)
                 (pad (length years) opex)).
  set (l1 := fresh (dom σ)).
  set (σ1 := <[l1 := pred]> σ).
  set (l2 := fresh (dom σ1)).
  set (σ2 := <[l2 := full]> σ1).
  set (l3 := fresh (dom σ2)).
  assert (σ !! l1 = None) as H1 by apply not_elem_of_dom, is_fresh.
  assert (σ1 !! l2 = None) as H2 by apply not_elem_of_dom, is_fresh.
  assert (σ2 !! l3 = None) as H3 by apply not_elem_of_dom, is_fresh.
  assert (σ1 !! l1 = Some pred) as H11 by apply lookup_insert_eq.
  assert (l1 ≠ l2) as H12 by congruence.
  assert (σ2 !! l1 = Some pred) as H21 by (subst σ2; by rewrite lookup_insert_ne).
  assert (l1 ≠ l3) as H13 by congruence.
  exists l1, l2, l3. split; [done|]. split; [done|].
  unfold forecast_and_optimize. unfold_M.
  rewrite !forecast_expenditure_grouped by done.
  fold years capex opex. rewrite (new_pred_frame_Ok years capex opex Hyears).
  fold pred l1 σ1.
  rewrite (optimize_forecast_table years _ _ σ1 l1 Hc Ho H11).
  fold full l2 σ2. rewrite H21.
  assert (σ2 !! l2 = Some full) as -> by apply lookup_insert_eq.
  pose proof (merge_combined years _ _ (NoDup_py_range _ _) Hc Ho) as Hm.
  unfold mbind in Hm. subst pred full. rewrite Hm.
  done.
Qed.

Lemma forecast_and_optimize_Raise grouped forecast_years σ :
  (3 ≤ length grouped)%nat →
  let years :=
    py_range (year_max (h_year <$> grouped) + 1)
      (year_max (h_year <$> grouped) + 1 + forecast_years) in
  let capex := predict (auto_arima (h_capex <$> grouped)) forecast_years in
  let opex := predict (auto_arima (h_opex <$> grouped)) forecast_years in
  length years ≠ Nat.max (length capex) (length opex) →
  forecast_and_optimize minimize float_of_str to_numeric_str Model auto_arima predict
    grouped forecast_years σ = Raise ValueError_length.
Proof.
  intros Hlen years capex opex Hyears.
  unfold forecast_and_optimize. unfold_M.
  rewrite !forecast_expenditure_grouped by done.
  fold years capex opex. by rewrite (new_pred_frame_Raise years capex opex Hyears).
Qed.

(** *** Metrics and recommendations *)

Lemma column_sum_forecast_table years capex opex :
  column_sum (forecast_table years capex opex) "Forecast_CapEx" = Ok (fsum capex)
  ∧ column_sum (forecast_table years capex opex) "Forecast_OpEx" = Ok (fsum opex).
Proof.
  unfold column_sum, getitem. unfold_result. simpl. by rewrite !mapM_as_float.
Qed.

Lemma column_sum_combined_table years capex opex :
  column_sum (combined_table minimize years capex opex) "Forecast_CapEx" = Ok (fsum capex)
  ∧ column_sum (combined_table minimize years capex opex) "Forecast_OpEx" = Ok (fsum opex)
  ∧ column_sum (combined_table minimize years capex opex) "Optimized_CapEx"
    = Ok (fsum (optimized_points minimize capex opex).*1)
  ∧ column_sum (combined_table minimize years capex opex) "Optimized_OpEx"
    = Ok (fsum (optimized_points minimize capex opex).*2).
Proof.
  unfold column_sum, getitem. unfold_result. simpl. by rewrite !mapM_as_float.
Qed.

Lemma guarded_division_zero (a b : pyfloat) (k : pyfloat → pyfloat) v :
  (if truthy b then q ← fdiv a b; mret (k q) else mret (Fin 0)) = Ok v →
  truthy b = false → v = Fin 0.
Proof. intros H Hb. rewrite Hb in H. by injection H. Qed.

Lemma calculate_metrics_Ok years capex opex σ full_df :
  σ !! full_df = Some (combined_table minimize years capex opex) →
  ∃ pct,
    calculate_metrics full_df σ
    = Ok (mkKPI
            ((fsum capex + fsum opex)
             - (fsum (optimized_points minimize capex opex).*1
                + fsum (optimized_points minimize capex opex).*2))%F
            pct
            (fsum capex + fsum opex)%F
            (fsum (optimized_points minimize capex opex).*1
             + fsum (optimized_points minimize capex opex).*2)%F, σ)
    ∧ (truthy (fsum capex + fsum opex)%F = false → pct = Fin 0).
Proof.
  intros Hfull. unfold calculate_metrics. unfold_M. rewrite Hfull.
  destruct (column_sum_combined_table years capex opex) as (-> & -> & -> & ->).
  set (tf := (fsum capex + fsum opex)%F).
  set (ts := (tf - (fsum (optimized_points minimize capex opex).*1
                    + fsum (optimized_points minimize capex opex).*2))%F).
  destruct (guarded_division_returns ts tf (λ q, (q * Fin 100)%F)) as [pct Hpct].
  pose proof (guarded_division_zero ts tf (λ q, (q * Fin 100)%F) pct Hpct) as Hzero.
  unfold mbind, mret in Hpct. rewrite Hpct. eauto.
Qed.

Lemma recommendation_figures_returns years capex opex :
  returns (recommendation_figures (forecast_table years capex opex)
             (combined_table minimize years capex opex)).
Proof.
  unfold recommendation_figures.
  destruct (column_sum_forecast_table years capex opex) as (-> & ->).
  destruct (column_sum_combined_table years capex opex) as (_ & _ & -> & ->).
  set (oc := fsum (optimized_points minimize capex opex).*1).
  set (oo := fsum (optimized_points minimize capex opex).*2).
  set (tf := fsum [fsum capex; fsum opex]).
  set (ts := (tf - fsum [oc; oo])%F).
  destruct (guarded_division_returns ts tf (λ q, (q * Fin 100)%F)) as [v1 H1].
  destruct (guarded_division_returns oc (fsum capex) (λ q, ((Fin 1 - q) * Fin 100)%F))
    as [v2 H2].
  destruct (guarded_division_returns oo (fsum opex) (λ q, ((Fin 1 - q) * Fin 100)%F))
    as [v3 H3].
  subst tf ts.
  unfold returns. unfold mbind at 1 2 3 4. unfold result_bind at 1 2 3 4. unfold rbind.
  cbv zeta.
  rewrite H1. unfold mbind at 1. unfold result_bind at 1. unfold rbind.
  rewrite H2. unfold mbind at 1. unfold result_bind at 1. unfold rbind.
  rewrite H3. unfold mbind at 1. unfold result_bind at 1. unfold rbind.
  eauto.
Qed.

Lemma generate_recommendations_Ok years capex opex σ pred_df full_df :
  σ !! pred_df = Some (forecast_table years capex opex) →
  σ !! full_df = Some (combined_table minimize years capex opex) →
  ∃ text, generate_recommendations format_float pred_df full_df σ = Ok (text, σ).
Proof.
  intros Hpred Hfull. unfold generate_recommendations. unfold_M.
  rewrite Hpred, Hfull.
  destruct (recommendation_figures_returns years capex opex) as [[[[ts sp] cp] op] ->].
  eauto.
Qed.

(** *** The exceptions of [run_analysis] *)

Lemma load_history_fails sheet bank_name current_year :
  fails_only (λ e, data_error e = true) (load_history' sheet bank_name current_year).
Proof.
  unfold load_history. destruct (List.filter _ _); by intros e [= <-].
Qed.

Lemma forecast_expenditure_fails series periods :
  fails_only (λ e, data_error e = true) (forecast_expenditure' series periods).
Proof.
  unfold forecast_expenditure. destruct (_ <? _)%nat; by intros e [= <-].
Qed.

Local Abbreviation known := (λ e, table_error e = true ∨ data_error e = true).

Lemma forecast_and_optimize_raises grouped forecast_years :
  raises_only known
    (forecast_and_optimize minimize float_of_str to_numeric_str Model auto_arima predict
       grouped forecast_years).
Proof.
  unfold forecast_and_optimize. cbv zeta.
  apply raises_only_bind.
  { apply raises_only_lift. eapply fails_only_impl; [|apply forecast_expenditure_fails].
    by right. }
  intros capex. apply raises_only_bind.
  { apply raises_only_lift. eapply fails_only_impl; [|apply forecast_expenditure_fails].
    by right. }
  intros opex.
  eapply raises_only_impl; [intros e He; left; exact He|].
  apply raises_only_bind.
  { apply raises_only_bind; [apply raises_only_lift, new_pred_frame_fails|].
    intros df. apply alloc_raises. }
  intros pred_df. apply raises_only_bind; [apply optimize_expenditures_raises|].
  intros optimized_df. apply raises_only_bind; [apply deref_raises|].
  intros pred. apply raises_only_bind; [apply deref_raises|].
  intros optimized. apply raises_only_bind; [|intros; apply raises_only_ret].
  apply raises_only_bind; [|intros; apply alloc_raises].
  apply raises_only_lift. apply fails_only_bind; [apply select_fails|].
  intros right _. apply merge_left_fails.
Qed.

(** [run_analysis] raises nothing but the errors about the data and the
    errors of the table operations. *)
Lemma run_analysis_raises sheet bank_name forecast_years current_year :
  raises_only known
    (run_analysis minimize float_of_str to_numeric_str str_of_number Model auto_arima
       predict format_float sheet bank_name forecast_years current_year).
Proof.
  unfold run_analysis.
  apply raises_only_bind.
  { apply raises_only_lift. eapply fails_only_impl; [|apply load_history_fails].
    by right. }
  intros grouped. destruct (_ <? _)%nat.
  { apply raises_only_throw. by right. }
  apply raises_only_bind; [apply forecast_and_optimize_raises|].
  intros [pred_df full_df].
  eapply raises_only_impl; [intros e He; left; exact He|].
  apply raises_only_bind; [apply calculate_metrics_raises|]. intros kpi.
  apply raises_only_bind; [apply generate_recommendations_raises|]. intros text.
  apply raises_only_ret.
Qed.

(** *** [run_analysis], case by case *)

Local Abbreviation run_analysis' :=
  (run_analysis minimize float_of_str to_numeric_str str_of_number Model auto_arima predict
     format_float).

Lemma run_analysis_cases sheet bank_name forecast_years current_year σ :
  match load_history' sheet bank_name current_year with
  | Raise e => run_analysis' sheet bank_name forecast_years current_year σ = Raise e
  | Ok grouped =>
      if (length grouped <? 3)%nat
      then run_analysis' sheet bank_name forecast_years current_year σ
           = Raise (ValueError_history bank_name current_year (length grouped))
      else
        let years :=
          py_range (year_max (h_year <$> grouped) + 1)
            (year_max (h_year <$> grouped) + 1 + forecast_years) in
        let capex := predict (auto_arima (h_capex <$> grouped)) forecast_years in
        let opex := predict (auto_arima (h_opex <$> grouped)) forecast_years in
        if Nat.eqb (length years) (Nat.max (length capex) (length opex))
        then
          let capex := pad (length years) capex in
          let opex := pad (length years) opex in
          ∃ res σ' pct,
            run_analysis' sheet bank_name forecast_years current_year σ = Ok (res, σ')
            ∧ σ' !! combined_df res = Some (combined_table minimize years capex opex)
            ∧ kpi_metrics res
              = mkKPI
                  ((fsum capex + fsum opex)
                   - (fsum (optimized_points minimize capex opex).*1
                      + fsum (optimized_points minimize capex opex).*2))%F
                  pct
                  (fsum capex + fsum opex)%F
                  (fsum (optimized_points minimize capex opex).*1
                   + fsum (optimized_points minimize capex opex).*2)%F
            ∧ (truthy (fsum capex + fsum opex)%F = false → pct = Fin 0)
        else run_analysis' sheet bank_name forecast_years current_year σ
             = Raise ValueError_length
  end.
Proof.
  unfold run_analysis.
  destruct (load_history' sheet bank_name current_year) as [grouped|e] eqn:Hload;
    [|by unfold_M].
  destruct (length grouped <? 3)%nat eqn:Hlen; [by unfold_M; rewrite Hlen|].
  apply Nat.ltb_ge in Hlen as Hlen'. cbv zeta.
  destruct (Nat.eqb _ _) eqn:Hyears.
  - apply Nat.eqb_eq in Hyears.
    destruct (forecast_and_optimize_Ok grouped forecast_years σ Hlen' Hyears)
      as (l1 & l2 & l3 & H12 & H13 & Hrun).
    match type of Hrun with _ = Ok (_, ?s) => set (σ3 := s) in * end.
    match goal with |- context [combined_table minimize ?ys ?c ?o] =>
      set (years := ys); set (capex := c); set (opex := o) end.
    assert (σ3 !! l3 = Some (combined_table minimize years capex opex)) as H3
      by apply lookup_insert_eq.
    assert (σ3 !! l1 = Some (forecast_table years capex opex)) as H1.
    { subst σ3. rewrite !lookup_insert_ne by done. apply lookup_insert_eq. }
    destruct (calculate_metrics_Ok years capex opex σ3 l3 H3) as (pct & Hkpi & Hpct).
    destruct (generate_recommendations_Ok years capex opex σ3 l1 l3 H1 H3) as (text & Htext).
    eexists _, σ3, pct. unfold_M. rewrite Hlen, Hrun. cbv beta iota.
    rewrite Hkpi. cbv beta iota. rewrite Htext. cbv beta iota.
    split; [reflexivity|]. simpl. done.
  - apply Nat.eqb_neq in Hyears.
    pose proof (forecast_and_optimize_Raise grouped forecast_years σ Hlen' Hyears) as Hrun.
    unfold_M. by rewrite Hlen, Hrun.
Qed.

End PipelineFacts.

Lemma trend_predict_length (series : list Q) (periods : Z) :
  length (trend_predict series periods) = Z.to_nat periods.
Proof.
  unfold trend_predict. destruct (rev series) as [|last [|prev rest]];
    by rewrite length_fmap, length_seq.
Qed.



(** C4.  [run_analysis] raises a [ValueError] that says so (no data for the
    bank, or not enough historical data) whenever the selected institution
    has fewer than three distinct historical years at or before
    [current_year - 1]; [forecast_expenditure] raises its [ValueError]
    whenever fewer than three points of its series are numeric; with three
    or more years [run_analysis] raises none of these errors, and with three
    or more numeric points [forecast_expenditure] returns. *)
Theorem too_little_history_raises
  (minimize : solver) (float_of_str : string → option pyfloat)
  (to_numeric_str : string → option Q) (str_of_number : Q → string)
  (Model : Type) (auto_arima : list Q → Model) (predict : Model → Z → list pyfloat)
  (format_float : string → pyfloat → string)
  (sheet : list SheetRow) (bank_name : string) (forecast_years current_year : Z)
  (σ : store) (series : list cell) (periods : Z) :
  let years := historical_years to_numeric_str str_of_number sheet bank_name current_year in
  let run :=
    run_analysis minimize float_of_str to_numeric_str str_of_number Model auto_arima
      predict format_float sheet bank_name forecast_years current_year σ in
  let forecast :=
    forecast_expenditure to_numeric_str Model auto_arima predict series periods in
  ((length years < 3)%nat →
     ∃ e, run = Raise e ∧ is_ValueError e = true
          ∧ (e = ValueError_no_bank bank_name
             ∨ e = ValueError_history bank_name current_year (length years)))
  ∧ ((3 ≤ length years)%nat → ∀ e, run = Raise e → data_error e = false)
  ∧ ((numeric_points to_numeric_str series < 3)%nat →
     forecast = Raise (ValueError_points (numeric_points to_numeric_str series)))
  ∧ ((3 ≤ numeric_points to_numeric_str series)%nat → returns forecast).
Proof.
  intros years run forecast.
  pose proof (run_analysis_cases minimize float_of_str to_numeric_str str_of_number Model
                auto_arima predict format_float sheet bank_name forecast_years
                current_year σ) as Hrun.
  fold run in Hrun.
  pose proof (load_history_length to_numeric_str str_of_number sheet bank_name
                current_year) as Hlen.
  fold years in Hlen.
  destruct (load_history _ _ sheet bank_name current_year) as [grouped|e0] eqn:Hload.
  - destruct (Hlen grouped eq_refl) as [Hlength _]. clear Hlen. rewrite Hlength in Hrun.
    repeat split.
    + intros Hlt. apply Nat.ltb_lt in Hlt as Hlt'. rewrite Hlt' in Hrun.
      eexists. split; [exact Hrun|]. split; [done|]. by right.
    + intros Hge e He. apply Nat.ltb_ge in Hge. rewrite Hge in Hrun. cbv zeta in Hrun.
      destruct (Nat.eqb _ _).
      * destruct Hrun as (res & σ' & pct & Hrun & _). congruence.
      * rewrite Hrun in He. by injection He as <-.
    + apply forecast_expenditure_few.
    + intros Hge. subst forecast. rewrite forecast_expenditure_enough by done.
      by eexists.
  - assert (years = [] ∧ e0 = ValueError_no_bank bank_name) as [Hnone ->].
    { subst years. unfold load_history in Hload. unfold historical_years, bank_rows.
      destruct (List.filter _ _) as [|r rows]; [|done]. by injection Hload as <-. }
    repeat split.
    + intros _. eexists. split; [exact Hrun|]. split; [done|]. by left.
    + rewrite Hnone. simpl. lia.
    + apply forecast_expenditure_few.
    + intros Hge. subst forecast. rewrite forecast_expenditure_enough by done.
      by eexists.
Qed.

Lemma too_little_history_raises_witness :
  ∃ e,
    run_analysis solver_newton no_float no_number plain_str (list Q) id trend_predict
      plain_format example_sheet "beta" 3 2023 ∅ = Raise e
    ∧ is_ValueError e = true
    ∧ (e = ValueError_no_bank "beta"
       ∨ e = ValueError_history "beta" 2023
               (length (historical_years no_number plain_str example_sheet "beta" 2023))).
Proof.
  apply (proj1 (too_little_history_raises solver_newton no_float no_number plain_str
                  (list Q) id trend_predict plain_format example_sheet "beta" 3 2023 ∅
                  [] 0)).
  vm_compute. lia.
Defined.

Lemma truthy_zero (q : Q) : (q == 0)%Q → truthy (Fin q) = false.
Proof. intros Hq. simpl. apply Qeq_bool_iff in Hq. by rewrite Hq. Qed.

(** C6.  Computing [savings_pct] never raises a division by zero, in
    [run_analysis] and in [generate_recommendations], whatever the totals
    are; and [savings_pct] is [0] when [total_forecast] is [0]: in the KPIs
    that [run_analysis] returns, and among the figures that
    [generate_recommendations] prints. *)
Theorem savings_pct_guarded
  (minimize : solver) (float_of_str : string → option pyfloat)
  (to_numeric_str : string → option Q) (str_of_number : Q → string)
  (Model : Type) (auto_arima : list Q → Model) (predict : Model → Z → list pyfloat)
  (format_float : string → pyfloat → string)
  (sheet : list SheetRow) (bank_name : string) (forecast_years current_year : Z)
  (σ : store) (pred_df opt_df : loc) (pred opt : DataFrame) :
  let run :=
    run_analysis minimize float_of_str to_numeric_str str_of_number Model auto_arima
      predict format_float sheet bank_name forecast_years current_year σ in
  run ≠ Raise ZeroDivisionError
  ∧ (∀ res σ' q,
       run = Ok (res, σ') → total_forecast (kpi_metrics res) = Fin q → (q == 0)%Q →
       savings_pct (kpi_metrics res) = Fin 0)
  ∧ generate_recommendations format_float pred_df opt_df σ ≠ Raise ZeroDivisionError
  ∧ recommendation_figures pred opt ≠ Raise ZeroDivisionError
  ∧ (∀ forecast_capex forecast_opex total_savings savings_pct capex_pct opex_pct q,
       column_sum pred "Forecast_CapEx" = Ok forecast_capex →
       column_sum pred "Forecast_OpEx" = Ok forecast_opex →
       recommendation_figures pred opt = Ok (total_savings, savings_pct, capex_pct, opex_pct) →
       fsum [forecast_capex; forecast_opex] = Fin q → (q == 0)%Q →
       savings_pct = Fin 0).
Proof.
  intros run. split; [|split; [|split; [|split]]].
  - intros Hrun.
    destruct (run_analysis_raises minimize float_of_str to_numeric_str str_of_number Model
                auto_arima predict format_float sheet bank_name forecast_years
                current_year σ _ Hrun) as [?|?]; done.
  - intros res σ' q Hrun Htotal Hq.
    pose proof (run_analysis_cases minimize float_of_str to_numeric_str str_of_number Model
                  auto_arima predict format_float sheet bank_name forecast_years
                  current_year σ) as Hcases.
    fold run in Hcases.
    destruct (load_history _ _ _ _ _) as [grouped|e]; [|congruence].
    destruct (_ <? _)%nat; [congruence|]. cbv zeta in Hcases.
    destruct (Nat.eqb _ _); [|congruence].
    destruct Hcases as (res' & σ'' & pct & Hrun' & _ & Hkpi & Hzero).
    rewrite Hrun in Hrun'. injection Hrun' as <- <-.
    rewrite Hkpi in *. simpl in *. apply Hzero. rewrite Htotal. by apply truthy_zero.
  - intros Hrun.
    by pose proof (generate_recommendations_raises format_float pred_df opt_df σ _ Hrun).
  - intros Hrun. by pose proof (recommendation_figures_fails pred opt _ Hrun).
  - intros fc fo ts sp cp op q Hfc Hfo Hfig Htotal Hq.
    unfold recommendation_figures in Hfig. rewrite Hfc, Hfo in Hfig.
    unfold mbind at 1 2 in Hfig. unfold result_bind at 1 2 in Hfig. unfold rbind in Hfig.
    destruct (column_sum opt "Optimized_CapEx") as [oc|]; [|done].
    destruct (column_sum opt "Optimized_OpEx") as [oo|]; [|done].
    unfold mbind at 1 2 in Hfig. unfold result_bind at 1 2 in Hfig. unfold rbind in Hfig.
    cbv zeta in Hfig. rewrite Htotal, (truthy_zero q Hq) in Hfig.
    unfold mbind at 1, mret at 1 in Hfig. unfold result_bind, result_ret, rbind in Hfig.
    destruct (if truthy fc then _ else _) as [v2|]; [|done].
    destruct (if truthy fo then _ else _) as [v3|]; [|done].
    by injection Hfig as _ <- _ _.
Qed.

Lemma savings_pct_guarded_witness :
  total_forecast (kpi_metrics (outcome_of idle_run).1) = Fin 0
  ∧ savings_pct (kpi_metrics (outcome_of idle_run).1) = Fin 0.
Proof.
  split; [vm_compute; reflexivity|].
  apply (proj1 (proj2 (savings_pct_guarded solver_newton no_float no_number plain_str
                         (list Q) id trend_predict plain_format idle_sheet "delta" 2 2023 ∅
                         1%positive 1%positive (forecast_frame []) (forecast_frame [])))
           (outcome_of idle_run).1 (outcome_of idle_run).2 0%Q).
  - vm_compute. reflexivity.
  - vm_compute. reflexivity.
  - reflexivity.
Defined.

(** ** Savings *)

Lemma Qsquare_nonneg (x : Q) : (0 <= x * x)%Q.
Proof.
  unfold Qle, Qmult. simpl. rewrite Z.mul_1_r. apply Z.square_nonneg.
Qed.

Lemma start_feasible (pc po : Q) :
  (0 <= pc)%Q → (0 <= po)%Q →
  feasible bounds (constraints (Fin pc) (Fin po)) (Fin pc, Fin po) = true.
Proof.
  intros Hc Ho. unfold feasible, within_bounds, in_bound, bounds, constraints. simpl.
  rewrite !andb_true_r. rewrite !andb_true_iff, !Qle_bool_iff.
  repeat split; lra.
Qed.

(** With the default weights, a point that is no worse than a forecast that
    is not negative, or the fallback, costs no more than the forecast. *)
Lemma optimize_point_saves (minimize : solver) (pc po : Q) :
  solver_descends minimize → (0 <= pc)%Q → (0 <= po)%Q →
  ∃ c o,
    optimize_point minimize default_inflation_rate default_alpha default_beta
      default_gamma (Fin pc) (Fin po) = (Fin c, Fin o)
    ∧ (c + o <= pc + po)%Q.
Proof.
  intros Hdesc Hc Ho. unfold optimize_point.
  specialize (Hdesc (objective default_inflation_rate default_alpha default_beta
                       default_gamma (Fin pc) (Fin po))
                (Fin pc, Fin po) bounds (constraints (Fin pc) (Fin po))).
  destruct (minimize _ _ _ _) as [ok x]. simpl in Hdesc |- *.
  destruct (ok && all_finite x) eqn:E.
  - apply andb_prop in E as [-> (c & o & ->)%all_finite_inv].
    exists c, o. split; [done|].
    specialize (Hdesc eq_refl (start_feasible pc po Hc Ho) eq_refl).
    simpl in Hdesc. apply Qle_bool_iff in Hdesc.
    pose proof (Qsquare_nonneg (c + - pc)).
    pose proof (Qsquare_nonneg (o + - po)).
    assert ((pc + - pc) * (pc + - pc) == 0)%Q as E1 by ring.
    assert ((po + - po) * (po + - po) == 0)%Q as E2 by ring.
    rewrite E1, E2 in Hdesc. lra.
  - simpl. eexists _, _. split; [done|]. lra.
Qed.

Lemma fold_left_Qplus_acc (l : list Q) : ∀ a,
  (fold_left Qplus l a == a + fold_left Qplus l 0)%Q.
Proof.
  induction l as [|q l IH]; intros a; simpl; [lra|].
  rewrite (IH (a + q)%Q), (IH (0 + q)%Q). lra.
Qed.

Lemma fold_left_Qplus_nonneg (l : list Q) :
  Forall (λ q, 0 <= q)%Q l → (0 <= fold_left Qplus l 0)%Q.
Proof.
  induction 1 as [|q l Hq Hl IH]; simpl; [lra|].
  rewrite fold_left_Qplus_acc. lra.
Qed.

Lemma optimized_points_sum (minimize : solver) (cs : list Q) :
  solver_descends minimize →
  ∀ os, Forall (λ q, 0 <= q)%Q cs → Forall (λ q, 0 <= q)%Q os →
  ∃ cs' os',
    (optimized_points minimize (Fin <$> cs) (Fin <$> os)).*1 = Fin <$> cs'
    ∧ (optimized_points minimize (Fin <$> cs) (Fin <$> os)).*2 = Fin <$> os'
    ∧ (fold_left Qplus cs' 0 + fold_left Qplus os' 0
       <= fold_left Qplus cs 0 + fold_left Qplus os 0)%Q.
Proof.
  intros Hdesc. induction cs as [|c cs IH]; intros os Hcs Hos.
  - exists [], []. repeat split; try done. simpl.
    pose proof (fold_left_Qplus_nonneg os Hos). lra.
  - destruct os as [|o os].
    + exists [], []. repeat split; try done. simpl.
      pose proof (fold_left_Qplus_nonneg (c :: cs) Hcs). simpl in *. lra.
    + apply Forall_cons in Hcs as [Hc Hcs]. apply Forall_cons in Hos as [Ho Hos].
      destruct (IH os Hcs Hos) as (cs' & os' & E1 & E2 & Hle).
      destruct (optimize_point_saves minimize c o Hdesc Hc Ho) as (c' & o' & Ep & Hp).
      exists (c' :: cs'), (o' :: os'). unfold optimized_points in *. csimpl.
      rewrite E1, E2. unfold optimize_row. cbn [fst snd]. rewrite Ep. repeat split; try done. simpl.
      rewrite (fold_left_Qplus_acc cs' (0 + c')), (fold_left_Qplus_acc os' (0 + o')),
        (fold_left_Qplus_acc cs (0 + c)), (fold_left_Qplus_acc os (0 + o)).
      lra.
Qed.

Lemma nonneg_column (l : list pyfloat) :
  Forall nonneg (VFloat <$> l) → ∃ qs, l = Fin <$> qs ∧ Forall (λ q, 0 <= q)%Q qs.
Proof.
  induction l as [|x l IH]; csimpl; intros H.
  - by exists [].
  - apply Forall_cons in H as [(q & [= ->] & Hq) Hl].
    destruct (IH Hl) as (qs & -> & Hqs). exists (q :: qs). by split; [|constructor].
Qed.

Lemma clip_in_bound (b : bound) (v : pyfloat) : in_bound b v = true → clip b v = v.
Proof.
  destruct b as [[l|] [u|]]; unfold in_bound, clip; simpl.
  - intros [-> ->]%andb_prop. done.
  - rewrite andb_true_r. by intros ->.
  - by intros ->.
  - done.
Qed.

Lemma clip_point_feasible bnds cons (x : point) :
  feasible bnds cons x = true → clip_point bnds x = x.
Proof.
  unfold feasible. intros [Hb _]%andb_prop. destruct x as [a b].
  destruct bnds as [|b1 [|b2 [|b3 bnds]]]; try done.
  unfold within_bounds in Hb. simpl in Hb.
  apply andb_prop in Hb as [H1 [H2 _]%andb_prop].
  unfold clip_point. simpl. by rewrite !clip_in_bound.
Qed.

Lemma solver_clip_descends : solver_descends solver_clip.
Proof.
  intros obj x0 bnds cons. simpl. intros _ Hx0 Hfin.
  rewrite (clip_point_feasible bnds cons x0 Hx0). apply fle_refl.
  by destruct (obj x0).
Qed.

Lemma solver_newton_descends : solver_descends solver_newton.
Proof.
  intros obj x0 bnds cons. unfold solver_newton.
  destruct (feasible bnds cons _ && _) eqn:E.
  - simpl. intros _ _ _. by apply andb_prop in E as [_ E].
  - apply solver_clip_descends.
Qed.




(** ** The floors of the optimized values *)

Lemma lookup_VFloat (l : list pyfloat) (i : nat) (x : pyfloat) :
  (VFloat <$> l) !! i = Some (VFloat x) → l !! i = Some x.
Proof.
  rewrite list_lookup_fmap. destruct (l !! i); simpl; [|done]. by intros [= ->].
Qed.

Lemma row_getitem_Ok df i c v :
  row_getitem df i c = Ok v → ∃ col, assoc c (columns df) = Some col ∧ col !! i = Some v.
Proof.
  unfold row_getitem. destruct (assoc c (columns df)) as [col|]; [|done].
  destruct (col !! i) as [v'|] eqn:E; [|done]. intros [= ->]. eauto.
Qed.



(** ** The password check *)

(** The two functions only pass their arguments on: whether a password is
    accepted against the hash of another is what [bcrypt.checkpw] answers. *)
Lemma verify_after_hash (salt : Type) (hashpw : string → salt → string)
  (checkpw : string → string → bool) (encode : string → string)
  (password provided : string) (gensalt : salt) :
  Auth.verify_password checkpw encode
    (Auth.hash_password salt hashpw encode password gensalt) provided
  = checkpw (encode provided) (hashpw (encode password) gensalt).
Proof. reflexivity. Qed.

(** ** The grouped table *)

(** X2.  [grouped], the result of [groupby('Year').agg(sum)] on the
    historical rows, has its years in strictly increasing order, one row for each year
    that occurs among the rows, and in each row the sums of the two
    expenditures over the rows of that year. *)
Theorem grouped_by_year (rows : list HistRow) :
  StronglySorted Z.lt (h_year <$> groupby_year_sum rows)
  ∧ (∀ y, y ∈ h_year <$> groupby_year_sum rows ↔ y ∈ h_year <$> rows)
  ∧ (∀ g, g ∈ groupby_year_sum rows →
       (h_capex g == sum_of_year (h_year g) (λ r, Some (h_capex r)) h_year rows)%Q
       ∧ (h_opex g == sum_of_year (h_year g) (λ r, Some (h_opex r)) h_year rows)%Q).
Proof.
  split; [apply groupby_sorted|]. split; [apply elem_of_groupby|].
  intros g Hg. split; apply (groupby_sums _ _ g); try done; intros g' r; simpl; lra.
Qed.

(** ** The cleaning of the input table *)




(** ** The user table *)

Module DatabaseFacts.
Import Database.

Lemma select_hash_taken name t stored :
  select_hash name t = Some stored → taken name t = true.
Proof.
  unfold select_hash, taken.
  destruct (List.find _ (rows t)) as [r|] eqn:Hfind; [|done].
  intros _. apply find_some in Hfind as [Hin Heq].
  apply existsb_exists. eauto.
Qed.

(** A signup that succeeds stores the hash it was given under the name. *)
Lemma first_signup_stored name hash db user_id db' :
  add_user (Some name) (Some hash) db = (Returned (Some user_id), db') →
  check_user name db' = Some hash.
Proof.
  unfold add_user, insert. destruct db as [t|]; [|done].
  destruct (taken name t) eqn:Htaken; [done|].
  intros [= <- <-]. simpl. unfold select_hash. simpl.
  unfold taken in Htaken.
  assert (List.find (λ r, String.eqb (username r) name) (rows t) = None) as Hnone.
  { destruct (List.find _ (rows t)) as [r|] eqn:Hfind; [|done].
    apply find_some in Hfind as [Hin Heq].
    assert (existsb (λ r, String.eqb (username r) name) (rows t) = true) as Hex.
    { apply existsb_exists. eauto. }
    congruence. }
  induction (rows t) as [|r rs IH]; simpl in *.
  - by rewrite String.eqb_refl.
  - destruct (String.eqb (username r) name); [done|].
    apply orb_false_elim in Htaken as [_ Htaken]. by apply IH.
Qed.

(** A username that is taken is refused, and nothing is written. *)
Lemma add_user_taken name stored hash db :
  check_user name db = Some stored →
  add_user (Some name) hash db = (Returned None, db).
Proof.
  intros Hstored. unfold add_user, insert, check_user in *.
  destruct db as [t|]; [|done].
  destruct hash as [hash|]; [|done].
  by rewrite (select_hash_taken _ _ _ Hstored).
Qed.

End DatabaseFacts.

(** C7.  When a username is already in the table [users], with the hash
    [stored], a call of [add_user] with that username returns [None] and
    leaves the database as it was: the hash stored under the username is
    still [stored]. *)
Theorem second_signup_rejected
  (db : Database.database) (name stored : string) (hash : option string) :
  Database.check_user name db = Some stored →
  Database.add_user (Some name) hash db = (Database.Returned None, db)
  ∧ Database.check_user name (Database.add_user (Some name) hash db).2 = Some stored.
Proof.
  intros Hstored.
  pose proof (DatabaseFacts.add_user_taken _ _ hash _ Hstored) as Hadd.
  split; [exact Hadd|]. by rewrite Hadd.
Qed.

Lemma second_signup_rejected_witness :
  let db := (Database.add_user (Some "ann@gmail.com") (Some "$2b$12$first")
               (Database.setup_database None)).2 in
  Database.add_user (Some "ann@gmail.com") (Some "$2b$12$second") db
    = (Database.Returned None, db)
  ∧ Database.check_user "ann@gmail.com"
      (Database.add_user (Some "ann@gmail.com") (Some "$2b$12$second") db).2
    = Some "$2b$12$first".
Proof.
  intros db.
  apply (second_signup_rejected db "ann@gmail.com" "$2b$12$first" (Some "$2b$12$second")).
  reflexivity.
Defined.

(** X1.  Two signups with one username, from any state of the database in
    which the first succeeds: the second returns [None], nothing is written, and
    the hash stored under the username is the first one. *)
Corollary two_signups
  (db db' : Database.database) (name first second : string) (user_id : Z) :
  Database.add_user (Some name) (Some first) db = (Database.Returned (Some user_id), db') →
  Database.add_user (Some name) (Some second) db' = (Database.Returned None, db')
  ∧ Database.check_user name db' = Some first.
Proof.
  intros Hfirst. apply DatabaseFacts.first_signup_stored in Hfirst.
  split; [|done]. by eapply DatabaseFacts.add_user_taken.
Qed.

Lemma two_signups_witness :
  let db := (Database.add_user (Some "ann@gmail.com") (Some "$2b$12$first")
               (Database.setup_database None)).2 in
  Database.add_user (Some "ann@gmail.com") (Some "$2b$12$second") db
    = (Database.Returned None, db)
  ∧ Database.check_user "ann@gmail.com" db = Some "$2b$12$first".
Proof.
  intros db.
  apply (two_signups (Database.setup_database None) db "ann@gmail.com" "$2b$12$first"
           "$2b$12$second" 1).
  reflexivity.
Defined.

(** ** Regular expressions *)

Section Regex.

Lemma nullable_lang r : nullable r = true ↔ lang r [].
Proof.
  split.
  - induction r as [| |items|r1 IH1 r2 IH2|r1 IH1 r2 IH2|r IH]; simpl; try done; intros H.
    + constructor.
    + apply andb_true_iff in H as [??]. apply (lang_Seq _ _ [] []); auto.
    + apply orb_true_iff in H as [?|?]; [apply lang_Alt_l|apply lang_Alt_r]; auto.
    + constructor.
  - intros H. remember [] as s eqn:Hs.
    induction H as [|items c Hc|r1 r2 s t _ IH1 _ IH2|r1 r2 s _ IH|r1 r2 s _ IH| |r s t _ _ _ _];
      simpl; try done.
    + apply app_eq_nil in Hs as [-> ->]. by rewrite IH1, IH2.
    + by rewrite IH.
    + rewrite IH by done. apply orb_true_r.
Qed.

Lemma lang_Seq_inv r1 r2 u :
  lang (Seq r1 r2) u → ∃ s t, u = s ++ t ∧ lang r1 s ∧ lang r2 t.
Proof. inversion 1; subst. eauto. Qed.

Lemma lang_Star_cons r c s :
  lang (Star r) (c :: s) → ∃ s1 s2, s = s1 ++ s2 ∧ lang r (c :: s1) ∧ lang (Star r) s2.
Proof.
  intros H. remember (Star r) as r' eqn:Hr. remember (c :: s) as u eqn:Hu.
  induction H as [| | | | | |r0 s0 t H1 _ H2 IH2]; try discriminate.
  injection Hr as ->. destruct s0 as [|c' s1]; simpl in Hu.
  - by apply IH2.
  - injection Hu as -> <-. by exists s1, t.
Qed.

Lemma deriv_lang c r : ∀ s, lang (deriv c r) s ↔ lang r (c :: s).
Proof.
  induction r as [| |items|r1 IH1 r2 IH2|r1 IH1 r2 IH2|r IH]; intros s; simpl.
  - split; inversion 1.
  - split; inversion 1.
  - destruct (existsb (in_item c) items) eqn:Hc; split; intros H; inversion H; subst.
    + by constructor.
    + constructor.
    + congruence.
  - assert (lang (Seq (deriv c r1) r2) s → lang (Seq r1 r2) (c :: s)) as Hfirst.
    { intros (s1 & t & -> & H1 & H2)%lang_Seq_inv.
      apply IH1 in H1. by apply (lang_Seq _ _ (c :: s1) t). }
    assert (lang (Seq r1 r2) (c :: s) →
            lang (Seq (deriv c r1) r2) s ∨ (lang r1 [] ∧ lang r2 (c :: s))) as Hinv.
    { intros (s1 & t & Heq & H1 & H2)%lang_Seq_inv.
      destruct s1 as [|c' s1]; simpl in Heq.
      - right. by subst.
      - injection Heq as -> ->. left. constructor; [by apply IH1|done]. }
    destruct (nullable r1) eqn:Hn.
    + split.
      * intros H. inversion H; subst; [by apply Hfirst|].
        apply (lang_Seq _ _ [] (c :: s)); [by apply nullable_lang|by apply IH2].
      * intros [H|[_ H]]%Hinv; [by apply lang_Alt_l|]. apply lang_Alt_r. by apply IH2.
    + split; [done|]. intros [H|[H _]]%Hinv; [done|].
      apply nullable_lang in H. congruence.
  - split; intros H; inversion H; subst.
    + apply lang_Alt_l. by apply IH1.
    + apply lang_Alt_r. by apply IH2.
    + apply lang_Alt_l. by apply IH1.
    + apply lang_Alt_r. by apply IH2.
  - split.
    + intros (s1 & t & -> & H1 & H2)%lang_Seq_inv.
      apply IH in H1. by apply (lang_Star_app _ (c :: s1) t).
    + intros (s1 & s2 & -> & H1 & H2)%lang_Star_cons.
      constructor; [by apply IH|done].
Qed.

(** [re.match]: some prefix of the text is a text of the pattern. *)
Lemma re_match_lang s : ∀ r, re_match r s = true ↔ ∃ p t, s = p ++ t ∧ lang r p.
Proof.
  induction s as [|c s IH]; intros r; simpl.
  - rewrite orb_false_r, nullable_lang. split.
    + intros H. by exists [], [].
    + intros (p & t & Heq & H). symmetry in Heq. by apply app_eq_nil in Heq as [-> _].
  - rewrite orb_true_iff, nullable_lang, IH. split.
    + intros [H|(p & t & -> & H)].
      * by exists [], (c :: s).
      * exists (c :: p), t. split; [done|]. by apply deriv_lang.
    + intros (p & t & Heq & H). destruct p as [|c' p]; simpl in Heq.
      * by left.
      * injection Heq as <- ->. right. exists p, t. split; [done|]. by apply deriv_lang.
Qed.

(** [re.match] with [$] last: the text, or the text without the newline
    that ends it, is a text of the pattern. *)
Lemma re_match_dollar_lang s : ∀ r,
  re_match_dollar r s = true ↔ lang r s ∨ ∃ p, s = p ++ [newline] ∧ lang r p.
Proof.
  induction s as [|c s IH]; intros r; simpl.
  - rewrite nullable_lang. split; [by left|]. intros [H|(p & Heq & _)]; [done|].
    by destruct p.
  - rewrite orb_true_iff, !andb_true_iff, bool_decide_eq_true, nullable_lang, IH.
    rewrite Ascii.eqb_eq, deriv_lang. split.
    + intros [[[H ->] ->]|[H|(p & -> & H)]].
      * right. by exists [].
      * by left.
      * right. exists (c :: p). split; [done|]. by apply deriv_lang.
    + intros [H|(p & Heq & H)]; [by right; left|].
      destruct p as [|c' p]; simpl in Heq.
      * injection Heq as -> ->. by left.
      * injection Heq as <- ->. right. right. exists p. split; [done|]. by apply deriv_lang.
Qed.

(** [re.search]: some part of the text is a text of the pattern. *)
Lemma re_search_lang r s :
  re_search r s = true ↔ ∃ pre p post, s = pre ++ p ++ post ∧ lang r p.
Proof.
  induction s as [|c s IH]; cbn [re_search].
  - rewrite orb_false_r, re_match_lang. split.
    + intros (p & t & Heq & H). by exists [], p, t.
    + intros (pre & p & post & Heq & H). symmetry in Heq.
      apply app_eq_nil in Heq as [-> Heq]. by exists p, post.
  - rewrite orb_true_iff, re_match_lang, IH. split.
    + intros [(p & t & Heq & H)|(pre & p & post & -> & H)].
      * by exists [], p, t.
      * by exists (c :: pre), p, post.
    + intros (pre & p & post & Heq & H). destruct pre as [|c' pre]; simpl in Heq.
      * left. by exists p, post.
      * injection Heq as <- ->. right. by exists pre, p, post.
Qed.

Lemma lang_Chars_iff items p :
  lang (Chars items) p ↔ ∃ c, p = [c] ∧ existsb (in_item c) items = true.
Proof.
  split.
  - inversion 1; subst. eauto.
  - intros (c & -> & H). by constructor.
Qed.

Lemma lang_Star_Chars items p :
  lang (Star (Chars items)) p ↔ Forall (λ c, existsb (in_item c) items = true) p.
Proof.
  split.
  - intros H. remember (Star (Chars items)) as r eqn:Hr.
    induction H as [| | | | | |r0 s t H1 _ H2 IH2]; try discriminate; [done|].
    injection Hr as ->. apply Forall_app. split; [|by apply IH2].
    apply lang_Chars_iff in H1 as (c & -> & Hc). by constructor.
  - induction 1 as [|c p Hc _ IH]; [constructor|].
    apply (lang_Star_app _ [c] p); [by constructor|done].
Qed.

Lemma lang_Plus_Chars items p :
  lang (Plus (Chars items)) p
  ↔ p ≠ [] ∧ Forall (λ c, existsb (in_item c) items = true) p.
Proof.
  unfold Plus. split.
  - intros (s & t & -> & H1 & H2)%lang_Seq_inv.
    apply lang_Chars_iff in H1 as (c & -> & Hc). apply lang_Star_Chars in H2.
    split; [done|]. by constructor.
  - intros [Hne H]. destruct H as [|c p Hc H]; [done|].
    apply (lang_Seq _ _ [c] p); [by constructor|by apply lang_Star_Chars].
Qed.

Lemma lang_literal w p : lang (literal w) p ↔ p = w.
Proof.
  revert p. induction w as [|c w IH]; intros p; simpl.
  - split; [by inversion 1|intros ->; constructor].
  - split.
    + intros (s & t & -> & H1 & H2)%lang_Seq_inv.
      apply lang_Chars_iff in H1 as (c' & -> & Hc). apply IH in H2 as ->.
      simpl in Hc. rewrite orb_false_r in Hc. by apply Ascii.eqb_eq in Hc as ->.
    + intros ->. apply (lang_Seq _ _ [c] w); [|by apply IH].
      constructor. simpl. by rewrite Ascii.eqb_refl.
Qed.

(** A search for one class finds a character of the class. *)
Lemma re_search_Chars items s :
  re_search (Chars items) s = true ↔ Exists (λ c, existsb (in_item c) items = true) s.
Proof.
  rewrite re_search_lang, Exists_exists. split.
  - intros (pre & p & post & -> & (c & -> & Hc)%lang_Chars_iff).
    exists c. split; [|done]. set_solver.
  - intros (c & Hin & Hc). apply list_elem_of_split in Hin as (pre & post & ->).
    exists pre, [c], post. split; [done|]. by constructor.
Qed.

End Regex.

(** ** Text as lists of characters *)

Lemma list_ascii_of_string_app (s t : string) :
  list_ascii_of_string (s +:+ t) = list_ascii_of_string s ++ list_ascii_of_string t.
Proof. induction s as [|c s IH]; simpl; [done|]. by rewrite IH. Qed.

Lemma string_of_list_ascii_app (l k : list ascii) :
  string_of_list_ascii (l ++ k) = string_of_list_ascii l +:+ string_of_list_ascii k.
Proof. induction l as [|c l IH]; simpl; [done|]. by rewrite IH. Qed.

Lemma list_ascii_of_string_inj (s t : string) :
  list_ascii_of_string s = list_ascii_of_string t → s = t.
Proof.
  intros H. rewrite <- (string_of_list_ascii_of_string s), <- (string_of_list_ascii_of_string t).
  by rewrite H.
Qed.

Lemma length_list_ascii_of_string (s : string) :
  length (list_ascii_of_string s) = String.length s.
Proof. induction s as [|c s IH]; simpl; [done|]. by rewrite IH. Qed.

Lemma endswith_spec s suffix :
  endswith s suffix = true ↔ ∃ start, s = start +:+ suffix.
Proof.
  unfold endswith. rewrite bool_decide_eq_true. split.
  - intros [k Hk]. exists (string_of_list_ascii k).
    apply list_ascii_of_string_inj.
    by rewrite list_ascii_of_string_app, list_ascii_of_string_of_list_ascii.
  - intros [start ->]. exists (list_ascii_of_string start).
    apply list_ascii_of_string_app.
Qed.

Lemma startswith_spec s start :
  startswith s start = true ↔ ∃ rest, s = start +:+ rest.
Proof.
  unfold startswith. rewrite bool_decide_eq_true. split.
  - intros [k Hk]. exists (string_of_list_ascii k).
    apply list_ascii_of_string_inj.
    by rewrite list_ascii_of_string_app, list_ascii_of_string_of_list_ascii.
  - intros [rest ->]. exists (list_ascii_of_string rest).
    apply list_ascii_of_string_app.
Qed.

(** ** The sign-up form: the two tests *)

Module AppFacts.
Import App.

Lemma lang_gmail_pattern s :
  lang gmail_pattern s
  ↔ ∃ l, s = l ++ list_ascii_of_string "@gmail.com" ∧ l ≠ []
         ∧ Forall (λ c, existsb (in_item c) local_part_class = true) l.
Proof.
  unfold gmail_pattern. split.
  - intros (l & t & -> & [Hne Hl]%lang_Plus_Chars & ->%lang_literal)%lang_Seq_inv.
    by exists l.
  - intros (l & -> & Hne & Hl). constructor; [by apply lang_Plus_Chars|by apply lang_literal].
Qed.

End AppFacts.

(** X3.  [is_valid_gmail] accepts an address exactly when it is a local
    part followed by [@gmail.com], where the local part is not empty and
    is made of ASCII letters, digits and the characters [._%+-]: nothing
    before, between or after, and no newline at the end. *)
Theorem valid_gmail_shape (email : string) :
  App.is_valid_gmail email = true
  ↔ ∃ local_part : string,
      email = local_part +:+ "@gmail.com"
      ∧ local_part ≠ EmptyString
      ∧ Forall (λ c, existsb (in_item c) App.local_part_class = true)
          (list_ascii_of_string local_part).
Proof.
  unfold App.is_valid_gmail. split.
  - destruct (String.eqb email EmptyString); [done|].
    destruct (endswith email "@gmail.com") eqn:Hends; [|done]. simpl.
    intros [H|(p & Hp & _)]%re_match_dollar_lang.
    + apply AppFacts.lang_gmail_pattern in H as (l & Hl & Hne & Hclass).
      exists (string_of_list_ascii l). split; [|split].
      * apply list_ascii_of_string_inj.
        by rewrite list_ascii_of_string_app, list_ascii_of_string_of_list_ascii.
      * intros Hempty. apply Hne.
        by rewrite <- (list_ascii_of_string_of_list_ascii l), Hempty.
      * by rewrite list_ascii_of_string_of_list_ascii.
    + apply endswith_spec in Hends as [start ->].
      rewrite list_ascii_of_string_app in Hp.
      change (list_ascii_of_string "@gmail.com")
        with (list_ascii_of_string "@gmail.co" ++ ["m"%char]) in Hp.
      rewrite app_assoc in Hp. by apply app_inj_tail in Hp as [_ [=]].
  - intros (local_part & -> & Hne & Hclass).
    destruct (String.eqb_spec (local_part +:+ "@gmail.com") EmptyString) as [Heq|_].
    { by destruct local_part. }
    rewrite (proj2 (endswith_spec _ _)) by eauto. simpl.
    apply re_match_dollar_lang. left. apply AppFacts.lang_gmail_pattern.
    exists (list_ascii_of_string local_part). split; [apply list_ascii_of_string_app|].
    split; [|done]. intros Hnil. apply Hne. apply list_ascii_of_string_inj. by rewrite Hnil.
Qed.

(** X4.  [is_strong_password] answers [True] exactly for the passwords of
    at least eight characters that hold an uppercase letter, a lowercase
    letter, a digit and one of the special characters; and its message is
    "Password is strong." exactly then. *)
Theorem strong_password_rules (password : string) :
  let holds items :=
    Exists (λ c, existsb (in_item c) items = true) (list_ascii_of_string password) in
  ((App.is_strong_password password).1 = true
   ↔ (8 ≤ String.length password)%nat
     ∧ holds [Range "A" "Z"] ∧ holds [Range "a" "z"] ∧ holds [Range "0" "9"]
     ∧ holds App.special_class)
  ∧ ((App.is_strong_password password).2 = "Password is strong."
     ↔ (App.is_strong_password password).1 = true).
Proof.
  intros holds. unfold holds, App.is_strong_password.
  rewrite <- !re_search_Chars.
  destruct (Nat.ltb_spec (String.length password) 8) as [Hlen|Hlen].
  { split; [|done]. split; [done|]. intros [? _]. lia. }
  repeat match goal with
         | |- context [re_search ?r ?s] => destruct (re_search r s); simpl
         end; (split; [|done]); (split; [try done|]); try tauto; intros (_ & ? & ? & ? & ?); done.
Qed.

(** ** The user table, call after call *)

Module AccountFacts.
Import Database.

Lemma taken_spec name t : taken name t = true ↔ name ∈ username <$> rows t.
Proof.
  unfold taken. rewrite list_elem_of_fmap. split.
  - intros (r & Hin & Heq%String.eqb_eq)%existsb_exists.
    exists r. split; [done|]. by apply list_elem_of_In.
  - intros (r & -> & Hin). apply existsb_exists. exists r.
    split; [by apply list_elem_of_In|apply String.eqb_refl].
Qed.

Lemma select_hash_None name t : select_hash name t = None ↔ taken name t = false.
Proof.
  unfold select_hash, taken. induction (rows t) as [|r rs IH]; simpl; [done|].
  destruct (String.eqb (username r) name); simpl; [split; discriminate|done].
Qed.

Lemma select_hash_app name rs extra seq seq' :
  select_hash name {| rows := rs ++ extra; sequence := seq |}
  = match select_hash name {| rows := rs; sequence := seq' |} with
    | Some h => Some h
    | None => select_hash name {| rows := extra; sequence := seq |}
    end.
Proof.
  unfold select_hash. simpl. induction rs as [|r rs IH]; simpl; [done|].
  by destruct (String.eqb (username r) name).
Qed.

(** What [add_user] does to a table that exists. *)
Lemma add_user_Some name hash t :
  add_user (Some name) (Some hash) (Some t)
  = if taken name t then (Returned None, Some t)
    else (Returned (Some (sequence t + 1)),
          Some {| rows := rows t ++ [mkUser (sequence t + 1) name hash];
                  sequence := sequence t + 1 |}).
Proof. unfold add_user, insert. by destruct (taken name t). Qed.

Lemma add_user_null name hash t :
  name = None ∨ hash = None → add_user name hash (Some t) = (Returned None, Some t).
Proof. unfold add_user, insert. intros [-> | ->]; [done|]. by destruct name. Qed.

Lemma add_user_ordered name hash t :
  ordered t →
  ∃ t', (add_user name hash (Some t)).2 = Some t'
        ∧ ordered t' ∧ rows t `prefix_of` rows t'.
Proof.
  intros (Hnodup & Hids & Hbounds & Hseq).
  destruct name as [name|]; [|exists t; by rewrite add_user_null by auto].
  destruct hash as [hash|]; [|exists t; by rewrite add_user_null by auto].
  rewrite add_user_Some. destruct (taken name t) eqn:Htaken; [by exists t|].
  eexists. split; [done|]. simpl. split; [|by eexists].
  split; [|split; [|split]]; simpl.
  - rewrite fmap_app. simpl. apply NoDup_app. split; [done|].
    split; [|apply NoDup_singleton].
    intros x Hx ->%list_elem_of_singleton. apply taken_spec in Hx. congruence.
  - rewrite fmap_app. simpl. apply StronglySorted_app_2; [|done|repeat constructor].
    intros x1 x2 (r & -> & Hr)%list_elem_of_fmap ->%list_elem_of_singleton.
    rewrite Forall_forall in Hbounds. specialize (Hbounds r Hr). lia.
  - apply Forall_app. split; [|constructor; [simpl; lia|done]].
    eapply Forall_impl; [exact Hbounds|]. intros r Hr. simpl in *. lia.
  - lia.
Qed.

End AccountFacts.

(** X5.  The table under any calls of [add_user], with whatever
    arguments, from a table in which no username stands in two rows and
    the ids grow along the rows, each at least [1] and at most the counter:
    the table is still so afterwards, and the rows that were there are
    still there, unchanged and first.  No call removes or alters an
    account, repeats a username or hands out an id again. *)
Theorem users_stay_ordered
  (calls : list (option string * option string)) (t : Database.users_table) :
  ordered t →
  ∃ t', add_users calls (Some t) = Some t'
        ∧ ordered t'
        ∧ Database.rows t `prefix_of` Database.rows t'.
Proof.
  revert t. induction calls as [|[name hash] calls IH]; intros t Ht.
  - by exists t.
  - change (add_users ((name, hash) :: calls) (Some t))
      with (add_users calls (Database.add_user name hash (Some t)).2).
    destruct (AccountFacts.add_user_ordered name hash t Ht) as (t1 & -> & Ht1 & Hpre1).
    destruct (IH t1 Ht1) as (t' & Ht' & Hord & Hpre).
    exists t'. split; [done|]. split; [done|]. by etrans.
Qed.

Lemma users_stay_ordered_witness :
  ∃ t', add_users [ (Some "ann@gmail.com", Some "$2b$12$first");
                    (Some "ann@gmail.com", Some "$2b$12$second");
                    (None, Some "$2b$12$third");
                    (Some "bob@gmail.com", Some "$2b$12$fourth") ]
          (Database.setup_database None) = Some t'
        ∧ ordered t'
        ∧ [] `prefix_of` Database.rows t'.
Proof.
  apply (users_stay_ordered
           [ (Some "ann@gmail.com", Some "$2b$12$first");
             (Some "ann@gmail.com", Some "$2b$12$second");
             (None, Some "$2b$12$third");
             (Some "bob@gmail.com", Some "$2b$12$fourth") ]
           {| Database.rows := []; Database.sequence := 0 |}).
  repeat split; simpl; try constructor; lia.
Defined.

(** X6.  Reading after writing: after a call of [add_user] with a
    username and a hash, [check_user] gives for every name what it gave
    before, except that a name that had no hash and is the one just added
    to an existing table has the new hash.  A hash that is stored is never
    replaced. *)
Theorem check_user_after_add_user
  (name hash n : string) (db : Database.database) :
  Database.check_user n (Database.add_user (Some name) (Some hash) db).2
  = match Database.check_user n db, db with
    | Some stored, _ => Some stored
    | None, Some _ => if String.eqb n name then Some hash else None
    | None, None => None
    end.
Proof.
  destruct db as [t|]; [|done]. rewrite AccountFacts.add_user_Some.
  destruct (Database.taken name t) eqn:Htaken; simpl.
  - destruct (Database.select_hash n t) eqn:Hn; [done|].
    destruct (String.eqb_spec n name) as [->|]; [|done].
    apply AccountFacts.select_hash_None in Hn. congruence.
  - rewrite (AccountFacts.select_hash_app _ _ _ _ (Database.sequence t)).
    replace {| Database.rows := Database.rows t; Database.sequence := Database.sequence t |}
      with t by by destruct t.
    destruct (Database.select_hash n t); [done|].
    unfold Database.select_hash. simpl. rewrite (String.eqb_sym name n).
    by destruct (String.eqb n name).
Qed.

(** ** The sign-up and sign-in forms *)

Module FormFacts.
Import Database App.

Section Forms.

Variable salt : Type.
Variable hashpw : string → salt → string.
Variable checkpw : string → string → bool.
Variable encode : string → string.

Local Abbreviation create_account' := (create_account salt hashpw encode).

Lemma create_account_passes u p g db :
  passes u p →
  create_account' u p g db
  = match add_user (Some u) (Some (hashpw (encode p) g)) db with
    | (Returned user_id, db') =>
        if truthy_id user_id
        then (Returned (Success "Account created! Please sign in."), db')
        else (Returned (Error "Email already exists."), db')
    | (Raised e, db') => (Raised e, db')
    end.
Proof.
  intros [Hu Hp]. unfold create_account.
  destruct (is_strong_password p) as [is_strong message] eqn:Hstrong.
  simpl in Hp. subst is_strong. rewrite Hu.
  destruct u; [done|]. destruct p; [done|]. done.
Qed.

Lemma create_account_fails u p g db :
  ¬ passes u p →
  ∃ body, create_account' u p g db = (Returned (Warning body), db)
          ∨ create_account' u p g db = (Returned (Error body), db).
Proof.
  intros Hnot. unfold create_account.
  destruct (is_strong_password p) as [is_strong message] eqn:Hstrong.
  destruct (_ || _); [eauto|].
  destruct (is_valid_gmail u) eqn:Hu; simpl; [|eauto].
  destruct is_strong; simpl; [|eauto].
  destruct Hnot. split; [done|]. by rewrite Hstrong.
Qed.

(** What a submission does to the table: nothing, or one row more. *)
Lemma create_account_table u p g t :
  (create_account' u p g (Some t)).2 = Some t
  ∨ (passes u p ∧ taken u t = false
     ∧ (create_account' u p g (Some t)).2
       = Some {| rows := rows t ++ [mkUser (sequence t + 1) u (hashpw (encode p) g)];
                 sequence := sequence t + 1 |}).
Proof.
  destruct (decide (is_valid_gmail u = true ∧ (is_strong_password p).1 = true)) as [Hpass|Hnot].
  - rewrite (create_account_passes u p g _ Hpass).
    change (Auth.hash_password salt hashpw encode p g) with (hashpw (encode p) g).
    rewrite AccountFacts.add_user_Some. destruct (taken u t) eqn:Htaken; [by left|].
    right. split; [done|]. split; [done|]. by destruct (truthy_id _).
  - left. by destruct (create_account_fails u p g (Some t) Hnot) as [body [-> | ->]].
Qed.

End Forms.
End FormFacts.



(** X8.  Signing in after signing up.  When [bcrypt.checkpw] accepts a
    password against its own hash and no hash is empty: once the form has
    created an account, the button "Log In" with the same address and
    password signs in; and before the account was created no password
    signed in under that address. *)
Theorem signup_then_login
  (salt : Type) (hashpw : string → salt → string) (checkpw : string → string → bool)
  (encode : string → string)
  (new_username new_password : string) (gensalt : salt)
  (db db' : Database.database) (body : string) :
  (∀ password s, checkpw (encode password) (hashpw (encode password) s) = true) →
  (∀ password s, hashpw password s ≠ EmptyString) →
  App.create_account salt hashpw encode new_username new_password gensalt db
    = (Database.Returned (App.Success body), db') →
  App.log_in checkpw encode new_username new_password db' = App.Signed_in new_username
  ∧ ∀ password,
      App.log_in checkpw encode new_username password db
      = App.Refused "Incorrect email or password.".
Proof.
  intros Hcheck Hhash Hrun.
  destruct (decide (App.passes new_username new_password)) as [Hpass|Hfail].
  2: { by destruct (FormFacts.create_account_fails salt hashpw encode _ _ gensalt db Hfail)
         as [b [Heq | Heq]]; rewrite Heq in Hrun. }
  rewrite (FormFacts.create_account_passes _ _ _ _ _ _ _ Hpass) in Hrun.
  destruct db as [t|]; [|done]. rewrite AccountFacts.add_user_Some in Hrun.
  destruct (Database.taken new_username t) eqn:Htaken; [done|].
  destruct (App.truthy_id _); [|done]. injection Hrun as _ <-.
  unfold App.log_in. split.
  - cbn [Database.check_user].
    rewrite (AccountFacts.select_hash_app _ _ _ _ (Database.sequence t)).
    replace {| Database.rows := Database.rows t; Database.sequence := Database.sequence t |}
      with t by by destruct t.
    rewrite (proj2 (AccountFacts.select_hash_None _ _) Htaken).
    unfold Database.select_hash. simpl. rewrite String.eqb_refl. simpl.
    unfold Auth.verify_password. rewrite Hcheck.
    destruct (String.eqb_spec (hashpw (encode new_password) gensalt) EmptyString) as [Heq|];
      [by apply Hhash in Heq|done].
  - intros password. cbn [Database.check_user].
    by rewrite (proj2 (AccountFacts.select_hash_None _ _) Htaken).
Qed.

Lemma signup_then_login_witness :
  let db := Database.setup_database None in
  let db' := (App.create_account string toy_hashpw id "ann@gmail.com" "Secret#2024" "salt" db).2 in
  App.log_in toy_checkpw id "ann@gmail.com" "Secret#2024" db' = App.Signed_in "ann@gmail.com"
  ∧ ∀ password,
      App.log_in toy_checkpw id "ann@gmail.com" password db
      = App.Refused "Incorrect email or password.".
Proof.
  intros db db'.
  apply (signup_then_login string toy_hashpw toy_checkpw id "ann@gmail.com" "Secret#2024"
           "salt" db db' "Account created! Please sign in.").
  - intros password s. unfold toy_checkpw, toy_hashpw.
    apply endswith_spec. by exists s.
  - intros password s. unfold toy_hashpw. by destruct s.
  - reflexivity.
Defined.

Lemma submissions_rows
  (salt : Type) (hashpw : string → salt → string) (encode : string → string)
  (entries : list (string * string * salt)) : ∀ (t : Database.users_table) earlier,
  let from_form entries (r : Database.user) :=
    ∃ p g, (Database.username r, p, g) ∈ entries
           ∧ App.passes (Database.username r) p
           ∧ Database.password_hash r = hashpw (encode p) g in
  NoDup (Database.username <$> Database.rows t) →
  Forall (from_form earlier) (Database.rows t) →
  ∃ t', App.submissions salt hashpw encode entries (Some t) = Some t'
        ∧ NoDup (Database.username <$> Database.rows t')
        ∧ Forall (from_form (earlier ++ entries)) (Database.rows t').
Proof.
  induction entries as [|[[u p] g] entries IH]; intros t earlier from_form Hnodup Hrows.
  - exists t. by rewrite app_nil_r.
  - change (App.submissions salt hashpw encode ((u, p, g) :: entries) (Some t))
      with (App.submissions salt hashpw encode entries
              (App.create_account salt hashpw encode u p g (Some t)).2).
    replace (earlier ++ (u, p, g) :: entries) with ((earlier ++ [(u, p, g)]) ++ entries)
      by by rewrite <- app_assoc.
    assert (Forall (from_form (earlier ++ [(u, p, g)])) (Database.rows t)) as Hrows'.
    { eapply Forall_impl; [exact Hrows|]. intros r (p' & g' & Hin & Hpass & Hhash).
      exists p', g'. split; [|done]. apply elem_of_app. by left. }
    destruct (FormFacts.create_account_table salt hashpw encode u p g t)
      as [-> | (Hpass & Htaken & ->)].
    + by apply IH.
    + apply IH; simpl.
      * rewrite fmap_app. simpl. apply NoDup_app. split; [done|].
        split; [|apply NoDup_singleton].
        intros x Hx ->%list_elem_of_singleton. apply AccountFacts.taken_spec in Hx. congruence.
      * apply Forall_app. split; [done|]. constructor; [|done].
        exists p, g. simpl. split; [|done]. apply elem_of_app. right. by left.
Qed.

(** X9.  The accounts of a database that only the sign-up form has written
    to, whatever was typed into it and however often: every stored username
    is an address that [is_valid_gmail] accepts, stored once, and its hash is
    the hash of a password that [is_strong_password] accepts, typed with that
    address. *)
Theorem accounts_from_form
  (salt : Type) (hashpw : string → salt → string) (encode : string → string)
  (entries : list (string * string * salt)) :
  ∃ t, App.submissions salt hashpw encode entries (Database.setup_database None) = Some t
       ∧ NoDup (Database.username <$> Database.rows t)
       ∧ Forall (λ r, ∃ p g, (Database.username r, p, g) ∈ entries
                             ∧ App.passes (Database.username r) p
                             ∧ Database.password_hash r = hashpw (encode p) g)
           (Database.rows t).
Proof.
  destruct (submissions_rows salt hashpw encode entries
              {| Database.rows := []; Database.sequence := 0 |} [])
    as (t & Ht & Hnodup & Hrows); [constructor|constructor|].
  by exists t.
Qed.

(** ** [str.strip] and [str.lower] *)

Section Strip.

Local Abbreviation space := (λ a, is_space a = true).

Lemma lstrip_spaces pre l : Forall space pre → lstrip (pre ++ l) = lstrip l.
Proof. induction 1 as [|a pre Ha _ IH]; simpl; [done|]. by rewrite Ha. Qed.

Lemma lstrip_all_spaces l : Forall space l → lstrip l = [].
Proof. intros H. rewrite <- (app_nil_r l). by rewrite lstrip_spaces. Qed.

Lemma lstrip_app l k :
  lstrip (l ++ k) = match lstrip l with [] => lstrip k | _ => lstrip l ++ k end.
Proof.
  induction l as [|a l IH]; simpl; [done|].
  destruct (is_space a); [done|]. done.
Qed.

(** What [lstrip] leaves does not start with a space. *)
Lemma lstrip_fixed l : lstrip (lstrip l) = lstrip l.
Proof.
  induction l as [|a l IH]; simpl; [done|].
  destruct (is_space a) eqn:Ha; [done|]. simpl. by rewrite Ha.
Qed.

Lemma lstrip_nil_spaces l : lstrip l = [] → Forall space l.
Proof.
  induction l as [|a l IH]; simpl; [done|].
  destruct (is_space a) eqn:Ha; [|done]. intros H. constructor; auto.
Qed.

(** [rstrip], the other half of [py_strip]. *)
Local Abbreviation rstrip := (λ l, rev (lstrip (rev l))).
Local Abbreviation strip := (λ l, rstrip (lstrip l)).

Lemma rstrip_spaces l post : Forall space post → rstrip (l ++ post) = rstrip l.
Proof.
  intros H. simpl. rewrite rev_app_distr, lstrip_spaces; [done|].
  apply Forall_forall. intros a Ha. rewrite Forall_forall in H. apply H.
  by apply list_elem_of_In, in_rev, list_elem_of_In.
Qed.

Lemma strip_spaces pre l post :
  Forall space pre → Forall space post → strip (pre ++ l ++ post) = strip l.
Proof.
  intros Hpre Hpost. simpl. rewrite lstrip_spaces by done. rewrite lstrip_app.
  destruct (lstrip l) as [|a l'] eqn:Hl.
  - by rewrite (lstrip_all_spaces post).
  - by rewrite (rstrip_spaces (a :: l') post).
Qed.

(** A text that starts with no space keeps its start when its end is
    stripped. *)
Lemma lstrip_rstrip l : lstrip l = l → lstrip (rstrip l) = rstrip l.
Proof.
  intros Hl. simpl. destruct l as [|a l]; [done|].
  simpl in Hl. destruct (is_space a) eqn:Ha.
  { assert (length (lstrip l) ≤ length l)%nat as Hlen.
    { clear. induction l as [|b l IH]; simpl; [done|]. destruct (is_space b); simpl; lia. }
    rewrite Hl in Hlen. simpl in Hlen. lia. }
  clear Hl. change (rev (a :: l)) with (rev l ++ [a]). rewrite lstrip_app.
  destruct (lstrip (rev l)) as [|b k] eqn:Hk.
  - simpl. rewrite Ha. simpl. by rewrite Ha.
  - rewrite rev_app_distr. simpl. by rewrite Ha.
Qed.

Lemma strip_fixed l : strip (strip l) = strip l.
Proof.
  simpl. rewrite (lstrip_rstrip (lstrip l)) by apply lstrip_fixed.
  by rewrite rev_involutive, lstrip_fixed.
Qed.

Lemma is_space_lower a : is_space (lower_ascii a) = is_space a.
Proof. by destruct a as [[] [] [] [] [] [] [] []]. Qed.

Lemma lstrip_lower l : lstrip (lower_ascii <$> l) = lower_ascii <$> lstrip l.
Proof.
  induction l as [|a l IH]; simpl; [done|]. rewrite is_space_lower.
  by destruct (is_space a).
Qed.

Lemma fmap_rev {A B} (f : A → B) (l : list A) : f <$> rev l = rev (f <$> l).
Proof. induction l as [|a l IH]; simpl; [done|]. by rewrite fmap_app, IH. Qed.

Lemma strip_lower l : strip (lower_ascii <$> l) = lower_ascii <$> strip l.
Proof. simpl. by rewrite lstrip_lower, <- fmap_rev, lstrip_lower, fmap_rev. Qed.

Lemma py_strip_fixed s : py_strip (py_strip s) = py_strip s.
Proof.
  unfold py_strip. rewrite list_ascii_of_string_of_list_ascii.
  f_equal. apply strip_fixed.
Qed.

Lemma py_lower_strip s : py_lower (py_strip s) = py_strip (py_lower s).
Proof.
  unfold py_lower, py_strip. rewrite !list_ascii_of_string_of_list_ascii.
  f_equal. symmetry. apply strip_lower.
Qed.

Lemma py_strip_spaces pre s post :
  Forall space pre → Forall space post →
  py_strip (string_of_list_ascii (pre ++ list_ascii_of_string s ++ post)) = py_strip s.
Proof.
  intros Hpre Hpost. unfold py_strip. rewrite list_ascii_of_string_of_list_ascii.
  f_equal. by apply strip_spaces.
Qed.

End Strip.

(** ** The name of the institution *)

Section BankName.

Variable to_numeric_str : string → option Q.
Variable str_of_number : Q → string.

Local Abbreviation bank_rows' := (bank_rows to_numeric_str str_of_number).
Local Abbreviation load_history' := (load_history to_numeric_str str_of_number).

Lemma bank_rows_spelling sheet b1 b2 :
  py_lower (py_strip b1) = py_lower (py_strip b2) →
  bank_rows' sheet b1 = bank_rows' sheet b2.
Proof.
  intros Heq. unfold bank_rows.
  induction (astype_int _) as [|r df IH]; simpl; [done|].
  unfold is_bank at 1 3. by rewrite Heq, IH.
Qed.

(** [load_history] reads the sheet and the name only through the rows
    of the institution. *)
Lemma load_history_bank_rows sheet1 b1 sheet2 b2 current_year :
  bank_rows' sheet1 b1 = bank_rows' sheet2 b2 →
  ∀ grouped, load_history' sheet1 b1 current_year = Ok grouped
             ↔ load_history' sheet2 b2 current_year = Ok grouped.
Proof.
  intros Heq grouped.
  destruct (bank_rows' sheet2 b2) as [|r rows] eqn:Hrows.
  - by rewrite !load_history_Raise.
  - by rewrite !load_history_Ok, Heq, Hrows by congruence.
Qed.

(** The rows of the institution, from the sheet, row by row; [last] is the
    year that a blank is filled with. *)
Local Abbreviation from_sheet := (λ bank_name last sheet,
  List.filter (is_bank str_of_number bank_name)
    (astype_int
       (dropna_year
          (zip sheet (to_numeric to_numeric_str <$> ffill last (Year <$> sheet)))))).

Lemma from_sheet_cons bank_name last r sheet :
  from_sheet bank_name last (r :: sheet)
  = let c := match Year r with Blank => last | Number q => Number q | Text s => Text s end in
    match to_numeric to_numeric_str c with
    | Some q =>
        if is_bank str_of_number bank_name (mkYearRow (Banks r) 0 Blank Blank)
        then [mkYearRow (Banks r) (Qtrunc q) (Capital_Expenditure r) (Operating_Expenditure r)]
        else []
    | None => []
    end ++ from_sheet bank_name
             match Year r with Blank => last | Number q => Number q | Text s => Text s end
             sheet.
Proof.
  cbv zeta. unfold dropna_year. csimpl. destruct (Year r) as [|y|s]; csimpl.
  - destruct (to_numeric to_numeric_str last) as [q|]; csimpl; [|done].
    unfold is_bank. simpl. by destruct (String.eqb _ _).
  - unfold is_bank. simpl. by destruct (String.eqb _ _).
  - destruct (to_numeric_str s) as [q|]; csimpl; [|done].
    unfold is_bank. simpl. by destruct (String.eqb _ _).
Qed.

Lemma bank_rows_from_sheet sheet bank_name :
  bank_rows' sheet bank_name = from_sheet bank_name Blank sheet.
Proof. done. Qed.

Lemma ffill_cons last y ys :
  ffill last (y :: ys)
  = match y with Blank => last | Number q => Number q | Text s => Text s end
    :: ffill match y with Blank => last | Number q => Number q | Text s => Text s end ys.
Proof. by destruct y. Qed.

(** Rows of other institutions do not count, when no row of the
    institution needs a year from above. *)
Lemma from_sheet_rows_of bank_name sheet : ∀ last1 last2,
  Forall (λ r, Year r ≠ Blank) (rows_of str_of_number bank_name sheet) →
  from_sheet bank_name last1 (rows_of str_of_number bank_name sheet)
  = from_sheet bank_name last2 sheet.
Proof.
  induction sheet as [|r sheet IH]; intros last1 last2 Hyears; [done|].
  rewrite (from_sheet_cons _ last2). cbv zeta.
  unfold rows_of in *. cbn [List.filter] in *.
  destruct (is_bank str_of_number bank_name (mkYearRow (Banks r) 0 Blank Blank)) eqn:Hbank.
  - apply Forall_cons in Hyears as [Hyear Hyears].
    rewrite from_sheet_cons. cbv zeta. rewrite Hbank.
    destruct (Year r) as [|y|s]; [done| |].
    + by rewrite (IH (Number y) (Number y) Hyears).
    + by rewrite (IH (Text s) (Text s) Hyears).
  - rewrite (IH last1 match Year r with
                      | Blank => last2 | Number q => Number q | Text s => Text s
                      end Hyears).
    by destruct (to_numeric _ _).
Qed.

(** A row of the institution is found when every year is a number once
    the blanks are filled. *)
Lemma from_sheet_found bank_name r sheet : ∀ last,
  Forall (λ c, is_Some (to_numeric to_numeric_str c)) (ffill last (Year <$> sheet)) →
  r ∈ sheet →
  is_bank str_of_number bank_name (mkYearRow (Banks r) 0 Blank Blank) = true →
  from_sheet bank_name last sheet ≠ [].
Proof.
  induction sheet as [|r0 sheet IH]; intros last Hyears Hin Hbank.
  { by apply elem_of_nil in Hin. }
  rewrite from_sheet_cons. cbv zeta.
  rewrite fmap_cons, ffill_cons in Hyears. apply Forall_cons in Hyears as [[q Hq] Hyears].
  apply elem_of_cons in Hin as [<-|Hin].
  - by rewrite Hq, Hbank.
  - intros [_ Hnil]%app_eq_nil. by apply (IH _ Hyears Hin Hbank).
Qed.

End BankName.

(** ** The list of institutions *)

Module BankListFacts.
Import App.

Lemma unique_fold (l : list string) : ∀ seen,
  NoDup seen →
  let out := fold_left (λ seen x, if bool_decide (x ∈ seen) then seen else seen ++ [x]) l seen in
  NoDup out ∧ ∀ x, x ∈ out ↔ x ∈ seen ∨ x ∈ l.
Proof.
  induction l as [|a l IH]; intros seen Hseen; simpl.
  - split; [done|]. intros x. rewrite elem_of_nil. tauto.
  - destruct (bool_decide_reflect (a ∈ seen)) as [Ha|Ha].
    + destruct (IH seen Hseen) as [Hnodup Hin]. split; [done|].
      intros x. rewrite Hin, elem_of_cons. split; [tauto|]. intros [?|[->|?]]; tauto.
    + destruct (IH (seen ++ [a])) as [Hnodup Hin].
      { apply NoDup_app. split; [done|]. split; [|apply NoDup_singleton].
        by intros x Hx ->%list_elem_of_singleton. }
      split; [done|]. intros x.
      rewrite Hin, elem_of_app, list_elem_of_singleton, elem_of_cons. tauto.
Qed.

Lemma NoDup_unique l : NoDup (unique l).
Proof. apply (unique_fold l []). constructor. Qed.

Lemma elem_of_unique l x : x ∈ unique l ↔ x ∈ l.
Proof.
  destruct (unique_fold l [] (NoDup_nil_2)) as [_ Hin]. unfold unique.
  rewrite Hin, elem_of_nil. tauto.
Qed.

Lemma sorted_spec l :
  StronglySorted String.le (sorted l) ∧ sorted l ≡ₚ l.
Proof.
  split; [apply StronglySorted_merge_sort; apply _|apply merge_sort_Permutation].
Qed.

Lemma elem_of_get_bank_list str_of_number sheet b :
  b ∈ get_bank_list str_of_number sheet
  ↔ ∃ r, r ∈ sheet ∧ b = py_strip (astype_str str_of_number (Banks r)).
Proof.
  unfold get_bank_list. rewrite (proj2 (sorted_spec _)), elem_of_unique, list_elem_of_fmap.
  split; intros (r & H1 & H2); by exists r.
Qed.

End BankListFacts.

Section RunAnalysisBank.

Variable minimize : solver.
Variable float_of_str : string → option pyfloat.
Variable to_numeric_str : string → option Q.
Variable str_of_number : Q → string.
Variable Model : Type.
Variable auto_arima : list Q → Model.
Variable predict : Model → Z → list pyfloat.
Variable format_float : string → pyfloat → string.

Local Abbreviation bank_rows' := (bank_rows to_numeric_str str_of_number).
Local Abbreviation run_analysis' :=
  (run_analysis minimize float_of_str to_numeric_str str_of_number Model auto_arima predict
     format_float).

(** [run_analysis] reads the sheet and the name only through the rows of
    the institution, but for the text of its errors. *)
Lemma run_analysis_bank_rows sheet1 b1 sheet2 b2 forecast_years current_year σ :
  bank_rows' sheet1 b1 = bank_rows' sheet2 b2 →
  ∀ out, run_analysis' sheet1 b1 forecast_years current_year σ = Ok out
         ↔ run_analysis' sheet2 b2 forecast_years current_year σ = Ok out.
Proof.
  intros Heq out. unfold run_analysis. unfold_M.
  destruct (bank_rows' sheet2 b2) as [|r rows] eqn:Hrows.
  - by rewrite !load_history_Raise.
  - rewrite !load_history_Ok, Heq, Hrows by congruence.
    by destruct (_ <? _)%nat.
Qed.

End RunAnalysisBank.



Lemma StronglySorted_impl {A} (R S : A → A → Prop) (l : list A) :
  (∀ a b, R a b → S a b) → StronglySorted R l → StronglySorted S l.
Proof.
  intros HRS. induction 1 as [|a l _ IH Hall]; constructor; [done|].
  eapply Forall_impl; [exact Hall|]. intros b. apply HRS.
Qed.


(** X12.  An institution that [get_bank_list] offers is found by
    [run_analysis] in the same sheet, when every year of the sheet is a
    number once the blanks are filled from above: the rows of the
    institution are not empty, the cleaning returns, and the error "No data
    for bank" is not raised. *)
Theorem listed_bank_is_found
  (minimize : solver) (float_of_str : string → option pyfloat)
  (to_numeric_str : string → option Q) (str_of_number : Q → string)
  (Model : Type) (auto_arima : list Q → Model) (predict : Model → Z → list pyfloat)
  (format_float : string → pyfloat → string)
  (sheet : list SheetRow) (bank_name : string) (forecast_years current_year : Z)
  (σ : store) :
  Forall (λ c, is_Some (to_numeric to_numeric_str c)) (ffill Blank (Year <$> sheet)) →
  bank_name ∈ App.get_bank_list str_of_number sheet →
  bank_rows to_numeric_str str_of_number sheet bank_name ≠ []
  ∧ returns (load_history to_numeric_str str_of_number sheet bank_name current_year)
  ∧ run_analysis minimize float_of_str to_numeric_str str_of_number Model auto_arima
      predict format_float sheet bank_name forecast_years current_year σ
    ≠ Raise (ValueError_no_bank bank_name).
Proof.
  intros Hyears (r & Hin & ->)%BankListFacts.elem_of_get_bank_list.
  set (bank_name := py_strip (astype_str str_of_number (Banks r))).
  assert (bank_rows to_numeric_str str_of_number sheet bank_name ≠ []) as Hrows.
  { rewrite bank_rows_from_sheet. apply (from_sheet_found _ _ _ r); [done|done|].
    unfold is_bank, bank_name. simpl. rewrite py_strip_fixed. apply String.eqb_refl. }
  split; [done|].
  pose proof (run_analysis_cases minimize float_of_str to_numeric_str str_of_number Model
                auto_arima predict format_float sheet bank_name forecast_years
                current_year σ) as Hrun.
  rewrite (load_history_Ok _ _ _ _ _ Hrows) in *. split; [by eexists|].
  destruct (_ <? _)%nat; [by rewrite Hrun|]. cbv zeta in Hrun.
  destruct (Nat.eqb _ _); [|by rewrite Hrun].
  destruct Hrun as (res & σ' & pct & -> & _). done.
Qed.

Lemma listed_bank_is_found_witness :
  bank_rows no_number plain_str example_sheet "Beta" ≠ []
  ∧ returns (load_history no_number plain_str example_sheet "Beta" 2023)
  ∧ run_analysis solver_clip no_float no_number plain_str (list Q) id trend_predict
      plain_format example_sheet "Beta" 3 2023 ∅
    ≠ Raise (ValueError_no_bank "Beta").
Proof.
  apply (listed_bank_is_found solver_clip no_float no_number plain_str (list Q) id
           trend_predict plain_format example_sheet "Beta" 3 2023 ∅).
  - repeat constructor; by eexists.
  - vm_compute. set_solver.
Defined.




(** ** [optimize_expenditures] at the edges *)

(** X15.  [optimize_expenditures] on a table it cannot read: a table
    without rows is copied and gets the two columns, empty, whatever its
    other columns are; on a table with rows, a missing column
    [Forecast_CapEx] raises [KeyError], and a text in the first row of that
    column that [float] does not read raises [ValueError]. *)
Theorem optimize_expenditures_edges
  (minimize : solver) (float_of_str : string → option pyfloat)
  (inflation_rate alpha beta gamma : pyfloat)
  (df : loc) (σ : store) (frame : DataFrame) :
  σ !! df = Some frame →
  let run :=
    optimize_expenditures minimize float_of_str df inflation_rate alpha beta gamma σ in
  (nrows frame = 0%nat →
     run = Ok (fresh (dom σ),
               <[fresh (dom σ) :=
                   {| nrows := 0;
                      columns := set_assoc "Optimized_OpEx" []
                                   (set_assoc "Optimized_CapEx" [] (columns frame)) |}]> σ))
  ∧ ((0 < nrows frame)%nat → assoc "Forecast_CapEx" (columns frame) = None →
     run = Raise (KeyError "Forecast_CapEx"))
  ∧ (∀ col s,
       (0 < nrows frame)%nat → assoc "Forecast_CapEx" (columns frame) = Some col →
       col !! 0%nat = Some (VStr s) → float_of_str s = None →
       run = Raise (ValueError_float s)).
Proof.
  intros Hdf run. subst run. split; [|split].
  - intros Hrows. apply optimize_expenditures_Ok. exists frame, [].
    rewrite Hrows. split; [done|]. split; [constructor|]. done.
  - intros Hrows Hcol. unfold optimize_expenditures. unfold_M. rewrite Hdf.
    destruct (nrows frame) as [|n]; [lia|]. simpl.
    unfold row_getitem. rewrite Hcol. done.
  - intros col s Hrows Hcol Hs Hfloat. unfold optimize_expenditures. unfold_M. rewrite Hdf.
    destruct (nrows frame) as [|n]; [lia|]. simpl.
    unfold row_getitem. rewrite Hcol, Hs. simpl. rewrite Hfloat. done.
Qed.

Lemma optimize_expenditures_edges_witness :
  optimize_expenditures solver_clip no_float 1%positive default_inflation_rate default_alpha
    default_beta default_gamma
    (one_frame {| nrows := 2; columns := [("Year", [VInt 2024; VInt 2025])] |})
  = Raise (KeyError "Forecast_CapEx").
Proof.
  apply (optimize_expenditures_edges solver_clip no_float default_inflation_rate default_alpha
           default_beta default_gamma 1%positive
           (one_frame {| nrows := 2; columns := [("Year", [VInt 2024; VInt 2025])] |})
           {| nrows := 2; columns := [("Year", [VInt 2024; VInt 2025])] |}).
  - reflexivity.
  - simpl. lia.
  - reflexivity.
Defined.

(** ** The point that the optimisation asks for *)

Lemma qmax_spec (a b : Q) :
  ((a <= b)%Q ∧ qmax a b = b) ∨ ((b < a)%Q ∧ qmax a b = a).
Proof.
  unfold qmax. destruct (Qle_bool a b) eqn:E.
  - left. by apply Qle_bool_iff in E.
  - right. split; [|done]. apply Qnot_le_lt. intros H%Qle_bool_iff. congruence.
Qed.

Lemma Qsquare_zero (x : Q) : (x * x <= 0)%Q → (x == 0)%Q.
Proof.
  intros H. destruct (Q_dec x 0) as [[Hneg|Hpos]|Hzero]; [| |done].
  - assert (0 < (- x) * (- x))%Q as Hsq by (apply Qmult_lt_0_compat; lra).
    assert ((- x) * (- x) == x * x)%Q as E by ring. rewrite E in Hsq. lra.
  - assert (0 < x * x)%Q as Hsq by (by apply Qmult_lt_0_compat). lra.
Qed.

(** One coordinate: the cost [k * c + g * (c - p)²] above a floor. *)
Lemma coordinate_least (p c floor : Q) :
  let best := least floor p in
  (0 <= c)%Q → (floor * p <= c)%Q →
  ((0 <= best)%Q ∧ (floor * p <= best)%Q)
  ∧ ((515 # 1000) * best + (1 # 1000) * ((best - p) * (best - p))
     <= (515 # 1000) * c + (1 # 1000) * ((c - p) * (c - p)))%Q
  ∧ ((515 # 1000) * c + (1 # 1000) * ((c - p) * (c - p))
     <= (515 # 1000) * best + (1 # 1000) * ((best - p) * (best - p)) → c == best)%Q.
Proof.
  intros best Hc Hfloor.
  assert ((0 <= best)%Q ∧ (floor * p <= best)%Q ∧ (p - (515 # 2) <= best)%Q
          ∧ (0 <= (c - best) * (best - (p - (515 # 2))))%Q) as (Hb0 & Hbf & Hbv & Hde).
  { subst best. unfold least.
    destruct (qmax_spec (floor * p) (p - (515 # 2))) as [[H1 ->]|[H1 ->]];
      match goal with |- context [qmax 0 ?x] =>
        destruct (qmax_spec 0 x) as [[H2 ->]|[H2 ->]] end.
    all: repeat split; try lra.
    all: apply Qmult_le_0_compat; lra. }
  pose proof (Qsquare_nonneg (c - best)) as Hsq.
  assert ((515 # 1000) * c + (1 # 1000) * ((c - p) * (c - p))
          - ((515 # 1000) * best + (1 # 1000) * ((best - p) * (best - p)))
          == (1 # 1000) * ((c - best) * (c - best))
             + (2 # 1000) * ((c - best) * (best - (p - (515 # 2)))))%Q as E by ring.
  split; [done|]. split; [lra|].
  intros H. assert ((c - best) * (c - best) <= 0)%Q as Hzero by lra.
  apply Qsquare_zero in Hzero. lra.
Qed.

Lemma least_cut (floor p : Q) :
  (0 <= p)%Q → (0 <= floor)%Q → (floor <= 1)%Q →
  (0 <= p - least floor p)%Q
  ∧ (p - least floor p <= (1 - floor) * p)%Q
  ∧ (p - least floor p <= 515 # 2)%Q.
Proof.
  intros Hp Hf0 Hf1. unfold least.
  assert (floor * p <= p)%Q as Hfp by nra.
  assert (0 <= floor * p)%Q as Hfp0 by (by apply Qmult_le_0_compat).
  destruct (qmax_spec (floor * p) (p - (515 # 2))) as [[H1 ->]|[H1 ->]];
    match goal with |- context [qmax 0 ?x] =>
      destruct (qmax_spec 0 x) as [[H2 ->]|[H2 ->]] end.
  all: repeat split; lra.
Qed.

(** X16.  What the optimisation of a row asks for, with the default
    arguments and finite forecasts: among the finite points that satisfy
    the two bounds and the two constraints, the objective is least at one
    point only, whose coordinates are the largest of [0], [0.8] (for OpEx
    [0.7]) times the forecast and the forecast less [257.5].  So for
    forecasts that are not negative an exact solver cuts each forecast by
    the smaller of 20 % (for OpEx 30 %) and [257.5], and never raises
    it. *)
Theorem least_point_is_least (pred_capex pred_opex capex opex : Q) :
  feasible bounds (constraints (Fin pred_capex) (Fin pred_opex)) (Fin capex, Fin opex) = true →
  let cost :=
    objective default_inflation_rate default_alpha default_beta default_gamma
      (Fin pred_capex) (Fin pred_opex) in
  feasible bounds (constraints (Fin pred_capex) (Fin pred_opex))
    (least_point pred_capex pred_opex) = true
  ∧ (cost (least_point pred_capex pred_opex) <=? cost (Fin capex, Fin opex))%F = true
  ∧ ((cost (Fin capex, Fin opex) <=? cost (least_point pred_capex pred_opex))%F = true →
     (capex == least (8 # 10) pred_capex)%Q ∧ (opex == least (7 # 10) pred_opex)%Q)
  ∧ ((0 <= pred_capex)%Q →
     (0 <= pred_capex - least (8 # 10) pred_capex)%Q
     ∧ (pred_capex - least (8 # 10) pred_capex <= (2 # 10) * pred_capex)%Q
     ∧ (pred_capex - least (8 # 10) pred_capex <= 515 # 2)%Q)
  ∧ ((0 <= pred_opex)%Q →
     (0 <= pred_opex - least (7 # 10) pred_opex)%Q
     ∧ (pred_opex - least (7 # 10) pred_opex <= (3 # 10) * pred_opex)%Q
     ∧ (pred_opex - least (7 # 10) pred_opex <= 515 # 2)%Q).
Proof.
  intros Hfeasible cost. subst cost.
  unfold feasible, within_bounds, in_bound, bounds, constraints in Hfeasible.
  simpl in Hfeasible. rewrite !andb_true_r, !andb_true_iff, !Qle_bool_iff in Hfeasible.
  destruct Hfeasible as [[Hc0 Ho0] [Hcf Hof]].
  destruct (coordinate_least pred_capex capex (8 # 10)) as ([Hb0 Hbf] & Hle & Huniq);
    [done|lra|].
  destruct (coordinate_least pred_opex opex (7 # 10)) as ([Hb0' Hbf'] & Hle' & Huniq');
    [done|lra|].
  set (c := least (8 # 10) pred_capex) in *. set (o := least (7 # 10) pred_opex) in *.
  split; [|split; [|split; [|split]]].
  - unfold feasible, within_bounds, in_bound, bounds, constraints, least_point. simpl.
    rewrite !andb_true_r, !andb_true_iff, !Qle_bool_iff. fold c o. repeat split; lra.
  - unfold least_point. fold c o. simpl. apply Qle_bool_iff. lra.
  - unfold least_point. fold c o. simpl. intros H%Qle_bool_iff.
    split; [apply Huniq|apply Huniq']; lra.
  - intros Hp. subst c. pose proof (least_cut (8 # 10) pred_capex Hp) as H.
    destruct H as (H1 & H2 & H3); [lra|lra|]. repeat split; lra.
  - intros Hp. subst o. pose proof (least_cut (7 # 10) pred_opex Hp) as H.
    destruct H as (H1 & H2 & H3); [lra|lra|]. repeat split; lra.
Qed.

Lemma least_point_is_least_witness :
  let cost :=
    objective default_inflation_rate default_alpha default_beta default_gamma
      (Fin 2000) (Fin 100) in
  feasible bounds (constraints (Fin 2000) (Fin 100)) (least_point 2000 100) = true
  ∧ (cost (least_point 2000 100) <=? cost (Fin 1800, Fin 90))%F = true
  ∧ ((cost (Fin 1800, Fin 90) <=? cost (least_point 2000 100))%F = true →
     (1800 == least (8 # 10) 2000)%Q ∧ (90 == least (7 # 10) 100)%Q)
  ∧ ((0 <= 2000)%Q →
     (0 <= 2000 - least (8 # 10) 2000)%Q
     ∧ (2000 - least (8 # 10) 2000 <= (2 # 10) * 2000)%Q
     ∧ (2000 - least (8 # 10) 2000 <= 515 # 2)%Q)
  ∧ ((0 <= 100)%Q →
     (0 <= 100 - least (7 # 10) 100)%Q
     ∧ (100 - least (7 # 10) 100 <= (3 # 10) * 100)%Q
     ∧ (100 - least (7 # 10) 100 <= 515 # 2)%Q).
Proof.
  apply (least_point_is_least 2000 100 1800 90). reflexivity.
Defined.

(** For these two forecasts the point is [(1742.5, 70)]: the larger one is
    cut by [257.5], the smaller one by 30 %. *)
Example least_point_example :
  least_point 2000 100 = (Fin (3485 # 2), Fin (700 # 10)).
Proof. reflexivity. Qed.

(** ** A cap on the savings *)

(** One row: the optimized values are finite and at or above the floors. *)
Lemma optimize_point_above (minimize : solver) (pc po : Q) :
  solver_feasible minimize →
  ∃ c o,
    optimize_point minimize default_inflation_rate default_alpha default_beta
      default_gamma (Fin pc) (Fin po) = (Fin c, Fin o)
    ∧ ((8 # 10) * pc <= c)%Q ∧ ((7 # 10) * po <= o)%Q.
Proof.
  intros Hfeasible. unfold optimize_point.
  specialize (Hfeasible (objective default_inflation_rate default_alpha default_beta
                           default_gamma (Fin pc) (Fin po))
                (Fin pc, Fin po) bounds (constraints (Fin pc) (Fin po))).
  destruct (minimize _ _ _ _) as [ok x]. simpl in Hfeasible |- *.
  destruct (ok && all_finite x) eqn:E.
  - apply andb_prop in E as [-> Hfin]. specialize (Hfeasible eq_refl Hfin).
    apply all_finite_inv in Hfin as (c & o & ->). exists c, o. split; [done|].
    unfold feasible, within_bounds, in_bound, constraints in Hfeasible. simpl in Hfeasible.
    rewrite !andb_true_r, !andb_true_iff, !Qle_bool_iff in Hfeasible. lra.
  - simpl. eexists _, _. split; [done|]. lra.
Qed.

Lemma optimized_points_above (minimize : solver) (cs : list Q) :
  solver_feasible minimize →
  ∀ os, length cs = length os →
  ∃ cs' os',
    (optimized_points minimize (Fin <$> cs) (Fin <$> os)).*1 = Fin <$> cs'
    ∧ (optimized_points minimize (Fin <$> cs) (Fin <$> os)).*2 = Fin <$> os'
    ∧ ((8 # 10) * fold_left Qplus cs 0 <= fold_left Qplus cs' 0)%Q
    ∧ ((7 # 10) * fold_left Qplus os 0 <= fold_left Qplus os' 0)%Q.
Proof.
  intros Hfeasible. induction cs as [|c cs IH]; intros [|o os] Hlen; try done.
  - exists [], []. repeat split; try done; simpl; lra.
  - injection Hlen as Hlen. destruct (IH os Hlen) as (cs' & os' & E1 & E2 & Hc & Ho).
    destruct (optimize_point_above minimize c o Hfeasible) as (c' & o' & Ep & Hc' & Ho').
    exists (c' :: cs'), (o' :: os'). unfold optimized_points in *. csimpl.
    rewrite E1, E2. unfold optimize_row. cbn [fst snd]. rewrite Ep.
    repeat split; try done; simpl.
    + rewrite (fold_left_Qplus_acc cs' (0 + c')), (fold_left_Qplus_acc cs (0 + c)). lra.
    + rewrite (fold_left_Qplus_acc os' (0 + o')), (fold_left_Qplus_acc os (0 + o)). lra.
Qed.

Lemma finite_column (l : list pyfloat) :
  Forall (λ v, ∃ q, v = VFloat (Fin q)) (VFloat <$> l) → ∃ qs, l = Fin <$> qs.
Proof.
  induction l as [|x l IH]; csimpl; intros H.
  - by exists [].
  - apply Forall_cons in H as [(q & [= ->]) Hl].
    destruct (IH Hl) as (qs & ->). by exists (q :: qs).
Qed.

(** X17.  A cap on the savings.  Provided that a point the solver reports
    with success satisfies the bounds and the constraints it was given: for
    every run of [run_analysis] that returns and whose forecasts are all
    finite, the total optimized expenditure is at least 80 % of the total
    forecast CapEx plus 70 % of the total forecast OpEx, so that
    [total_savings] is at most 20 % of the one plus 30 % of the other. *)
Theorem savings_capped
  (minimize : solver) (float_of_str : string → option pyfloat)
  (to_numeric_str : string → option Q) (str_of_number : Q → string)
  (Model : Type) (auto_arima : list Q → Model) (predict : Model → Z → list pyfloat)
  (format_float : string → pyfloat → string)
  (sheet : list SheetRow) (bank_name : string) (forecast_years current_year : Z)
  (σ σ' : store) (res : Analysis) (full : DataFrame)
  (forecast_capex forecast_opex : list value) :
  solver_feasible minimize →
  run_analysis minimize float_of_str to_numeric_str str_of_number Model auto_arima
    predict format_float sheet bank_name forecast_years current_year σ = Ok (res, σ') →
  σ' !! combined_df res = Some full →
  getitem full "Forecast_CapEx" = Ok forecast_capex →
  getitem full "Forecast_OpEx" = Ok forecast_opex →
  Forall (λ v, ∃ q, v = VFloat (Fin q)) forecast_capex →
  Forall (λ v, ∃ q, v = VFloat (Fin q)) forecast_opex →
  ∃ capex opex optimized savings,
    column_sum full "Forecast_CapEx" = Ok (Fin capex)
    ∧ column_sum full "Forecast_OpEx" = Ok (Fin opex)
    ∧ total_optimized (kpi_metrics res) = Fin optimized
    ∧ total_savings (kpi_metrics res) = Fin savings
    ∧ ((8 # 10) * capex + (7 # 10) * opex <= optimized)%Q
    ∧ (savings <= (2 # 10) * capex + (3 # 10) * opex)%Q.
Proof.
  intros Hfeasible Hrun Hfull Hfc Hfo Hcapex Hopex.
  pose proof (run_analysis_cases minimize float_of_str to_numeric_str str_of_number Model
                auto_arima predict format_float sheet bank_name forecast_years
                current_year σ) as Hcases.
  destruct (load_history _ _ _ _ _) as [grouped|e]; [|congruence].
  destruct (_ <? _)%nat; [congruence|]. cbv zeta in Hcases.
  destruct (Nat.eqb _ _) eqn:Hlen; [|congruence].
  destruct Hcases as (res' & σ'' & pct & Hrun' & Hfull' & Hkpi & _).
  rewrite Hrun in Hrun'. injection Hrun' as <- <-.
  rewrite Hfull in Hfull'. injection Hfull' as ->.
  apply Nat.eqb_eq in Hlen.
  set (years := py_range _ _) in *.
  set (capex := pad (length years)
                  (predict (auto_arima (h_capex <$> grouped)) forecast_years)) in *.
  set (opex := pad (length years)
                 (predict (auto_arima (h_opex <$> grouped)) forecast_years)) in *.
  assert (length capex = length years ∧ length opex = length years) as [Hlc Hlo].
  { split; apply length_pad; lia. }
  destruct (column_sum_combined_table minimize years capex opex) as (S1 & S2 & _).
  unfold getitem in Hfc, Hfo. simpl in Hfc, Hfo.
  injection Hfc as <-. injection Hfo as <-.
  clearbody years capex opex.
  apply finite_column in Hcapex as (cs & ->).
  apply finite_column in Hopex as (os & ->).
  rewrite !length_fmap in Hlc, Hlo.
  destruct (optimized_points_above minimize cs Hfeasible os)
    as (cs' & os' & E1 & E2 & Hc & Ho); [lia|].
  eexists _, _, _, _. rewrite S1, S2, Hkpi. simpl. rewrite E1, E2, !fsum_Fin. simpl.
  split; [done|]. split; [done|]. split; [done|]. split; [done|]. split; lra.
Qed.

Lemma savings_capped_witness :
  let full :=
    combined_table solver_newton [2023; 2024] [Fin 3000; Fin 3500] [Fin 4000; Fin 4500] in
  ∃ capex opex optimized savings,
    column_sum full "Forecast_CapEx" = Ok (Fin capex)
    ∧ column_sum full "Forecast_OpEx" = Ok (Fin opex)
    ∧ total_optimized (kpi_metrics (outcome_of rising_run).1) = Fin optimized
    ∧ total_savings (kpi_metrics (outcome_of rising_run).1) = Fin savings
    ∧ ((8 # 10) * capex + (7 # 10) * opex <= optimized)%Q
    ∧ (savings <= (2 # 10) * capex + (3 # 10) * opex)%Q.
Proof.
  intros full.
  apply (savings_capped solver_newton no_float no_number plain_str (list Q) id
           trend_predict plain_format rising_sheet "gamma" 2 2023 ∅
           (outcome_of rising_run).2 (outcome_of rising_run).1 full
           [VFloat (Fin 3000); VFloat (Fin 3500)]
           [VFloat (Fin 4000); VFloat (Fin 4500)]).
  - exact solver_newton_feasible.
  - vm_compute. reflexivity.
  - vm_compute. reflexivity.
  - reflexivity.
  - reflexivity.
  - repeat constructor; by eexists.
  - repeat constructor; by eexists.
Defined.

(** ** The files of a report *)

Section ReportFiles.

Local Abbreviation chars := list_ascii_of_string.

Lemma string_app_inv_head (s t u : string) : s +:+ t = s +:+ u → t = u.
Proof.
  intros H. apply list_ascii_of_string_inj.
  apply (f_equal chars) in H. rewrite !list_ascii_of_string_app in H.
  by apply app_inv_head in H.
Qed.

Lemma string_app_assoc (s t u : string) : (s +:+ t) +:+ u = s +:+ (t +:+ u).
Proof.
  apply list_ascii_of_string_inj. by rewrite !list_ascii_of_string_app, app_assoc.
Qed.

(** The directory part that [path_join] puts before a relative name. *)
Local Abbreviation base := (λ output_dir : string,
  if String.eqb output_dir EmptyString || endswith output_dir "/"
  then output_dir else output_dir +:+ "/").

Lemma path_join_relative output_dir bank_name ending :
  startswith bank_name "/" = false → startswith ending "/" = false →
  ending ≠ EmptyString →
  path_join output_dir (bank_name +:+ ending) = base output_dir +:+ bank_name +:+ ending.
Proof.
  intros Hbank Hending Hne. unfold path_join.
  assert (startswith (bank_name +:+ ending) "/" = false) as ->.
  { destruct bank_name as [|c rest]; [done|].
    apply not_true_is_false. intros [k Hk]%startswith_spec.
    apply not_true_iff_false in Hbank. apply Hbank, startswith_spec.
    simpl in Hk. injection Hk as -> _. by exists rest. }
  destruct (_ || _); [done|]. by rewrite string_app_assoc.
Qed.

(** Two of the three endings after two names give one text only when the
    endings and the names are the same. *)
Lemma endings_apart (b1 b2 e1 e2 : string) :
  e1 ∈ ["_forecast_optimized.xlsx"; "_chart.png"; "_report.pdf"] →
  e2 ∈ ["_forecast_optimized.xlsx"; "_chart.png"; "_report.pdf"] →
  b1 +:+ e1 = b2 +:+ e2 → b1 = b2 ∧ e1 = e2.
Proof.
  intros H1 H2 Heq. apply (f_equal chars) in Heq.
  rewrite !list_ascii_of_string_app in Heq.
  assert (∀ e, chars b1 ++ chars e = chars b2 ++ chars e → b1 = b2) as Hsame.
  { intros e H. by apply app_inv_tail, list_ascii_of_string_inj in H. }
  repeat (apply elem_of_cons in H1 as [->|H1]); [| | |by apply elem_of_nil in H1];
    (repeat (apply elem_of_cons in H2 as [->|H2]); [| | |by apply elem_of_nil in H2]);
    try (split; [by eapply Hsame|done]).
  all: exfalso; revert Heq.
  all: match goal with
       | |- _ ++ chars ?e1 = _ ++ chars ?e2 → _ =>
           let l1 := eval vm_compute in (removelast (chars e1)) in
           let c1 := eval vm_compute in (List.last (chars e1) "a"%char) in
           let l2 := eval vm_compute in (removelast (chars e2)) in
           let c2 := eval vm_compute in (List.last (chars e2) "a"%char) in
           change (chars e1) with (l1 ++ [c1]); change (chars e2) with (l2 ++ [c2])
       end.
  all: rewrite !app_assoc; by intros [_ [=]]%app_inj_tail.
Qed.

End ReportFiles.



(** ** The combined table, whole *)



(** ** The session *)

Module SessionFacts.
Import Session.

Section Session.

Variable R : Type.
Variable analyse : string → Z → Z → result R.
Variable str_of_exn : exn → string.
Variable banks : list string.

Local Abbreviation step' := (step R analyse str_of_exn banks).

(** A session that holds the message of an error. *)
Local Abbreviation failed := (λ s : state R,
  ∃ message, error s = Some message ∧ message ≠ EmptyString).

Lemma view_failed s : failed s → ∀ r, view R s ≠ Results_page (Shows_results r).
Proof.
  intros (message & Herr & Hne) r. unfold view. rewrite Herr.
  destruct (negb (authenticated s)); [done|]. destruct (negb (run_clicked s)); [done|].
  destruct (String.eqb_spec message EmptyString); [done|]. by destruct (results s).
Qed.

Lemma step_failed s ev :
  (∀ e, str_of_exn e ≠ EmptyString) →
  (∀ name, ev ≠ Log_in (App.Signed_in name)) →
  failed s → failed (step' s ev).
Proof.
  intros Hstr Hev Hs. pose proof (view_failed s Hs) as Hview.
  unfold step. destruct (view R s) as [| |c] eqn:Hpage.
  - destruct ev as [[name|]| | | |]; try done. by destruct (Hev name).
  - destruct ev as [found| |bank h y| |]; try done.
    destruct (_ && _); [|done]. unfold generate_forecast.
    destruct (analyse bank h y) as [r|e]; [done|]. simpl. eauto.
  - destruct c as [message|r|]; [|by destruct (Hview r)|]; by destruct ev.
Qed.

End Session.
End SessionFacts.

(** X20.  An error of an analysis stays in the session: once the session
    holds the message of a failed analysis, whatever is clicked afterwards
    short of a new login there is still such a message (that one, or that
    of a later analysis that failed), and the page of the results shows an
    error and never the results, also when a later analysis has
    succeeded. *)
Theorem analysis_error_sticks
  (R : Type) (analyse : string → Z → Z → result R) (str_of_exn : exn → string)
  (banks : list string) (s : Session.state R) (events : list Session.event) :
  (∀ e, str_of_exn e ≠ EmptyString) →
  (∃ message, Session.error s = Some message ∧ message ≠ EmptyString) →
  Forall (λ ev, ∀ name, ev ≠ Session.Log_in (App.Signed_in name)) events →
  let s' := Session.steps R analyse str_of_exn banks events s in
  (∃ message, Session.error s' = Some message ∧ message ≠ EmptyString)
  ∧ ∀ r, Session.view R s' ≠ Session.Results_page (Session.Shows_results r).
Proof.
  intros Hstr Hs Hevents s'.
  assert (∃ message, Session.error s' = Some message ∧ message ≠ EmptyString) as Hs'.
  { subst s'. revert s Hs. induction Hevents as [|ev events Hev _ IH]; intros s Hs; [done|].
    apply IH. by apply SessionFacts.step_failed. }
  split; [done|]. by apply SessionFacts.view_failed.
Qed.

Lemma analysis_error_sticks_witness :
  let signed_in := Session.logged_in _ "ann@gmail.com" (Session.initial _) in
  let failed := example_step signed_in (Session.Generate_forecast "Beta" 3 2023) in
  let s' :=
    Session.steps _ example_analyse plain_exn (App.get_bank_list plain_str example_sheet)
      [Session.New_analysis; Session.Generate_forecast "Alpha" 3 2023] failed in
  (∃ message, Session.error s' = Some message ∧ message ≠ EmptyString)
  ∧ ∀ r, Session.view _ s' ≠ Session.Results_page (Session.Shows_results r).
Proof.
  intros signed_in failed.
  apply (analysis_error_sticks (Analysis * store) example_analyse plain_exn
           (App.get_bank_list plain_str example_sheet) failed
           [Session.New_analysis; Session.Generate_forecast "Alpha" 3 2023]).
  - done.
  - exists "error". split; [vm_compute; reflexivity|done].
  - by repeat constructor.
Defined.

(** In that session the second analysis has succeeded, and its results are
    in the session next to the message of the first. *)
Example later_results_hidden :
  let signed_in := Session.logged_in _ "ann@gmail.com" (Session.initial _) in
  let s' :=
    fold_left example_step
      [Session.Generate_forecast "Beta" 3 2023; Session.New_analysis;
       Session.Generate_forecast "Alpha" 3 2023] signed_in in
  Session.results s' = Some (outcome_of falling_run)
  ∧ Session.view _ s' = Session.Results_page (Session.Shows_error "error").
Proof. vm_compute. split; reflexivity. Qed.

(** X21.  Nothing happens to a session that is not signed in, whatever
    is clicked, until the button "Log In" accepts a password: no analysis
    is run and no result or error is stored. *)
Theorem no_analysis_before_login
  (R : Type) (analyse : string → Z → Z → result R) (str_of_exn : exn → string)
  (banks : list string) (s : Session.state R) (events : list Session.event) :
  Session.authenticated s = false →
  Forall (λ ev, ∀ name, ev ≠ Session.Log_in (App.Signed_in name)) events →
  Session.steps R analyse str_of_exn banks events s = s.
Proof.
  intros Hs Hevents. induction Hevents as [|ev events Hev _ IH]; [done|].
  unfold Session.steps in *. simpl.
  assert (Session.step R analyse str_of_exn banks s ev = s) as ->; [|done].
  unfold Session.step, Session.view. rewrite Hs. simpl.
  destruct ev as [[name|]| | | |]; try done. by destruct (Hev name).
Qed.

Lemma no_analysis_before_login_witness :
  Session.steps _ example_analyse plain_exn (App.get_bank_list plain_str example_sheet)
    [ Session.Generate_forecast "Alpha" 3 2023;
      Session.Log_in (App.Refused "Incorrect email or password.");
      Session.New_analysis; Session.Logout ]
    (Session.initial _)
  = Session.initial _.
Proof.
  apply (no_analysis_before_login (Analysis * store) example_analyse plain_exn
           (App.get_bank_list plain_str example_sheet) (Session.initial _)).
  - reflexivity.
  - by repeat constructor.
Defined.

Section ShownResults.

Variable R : Type.
Variable analyse : string → Z → Z → result R.
Variable str_of_exn : exn → string.
Variable banks : list string.

Local Abbreviation sound' := (Session.sound R analyse banks).

Lemma step_sound s ev :
  (∀ e, str_of_exn e ≠ EmptyString) →
  sound' s → sound' (Session.step R analyse str_of_exn banks s ev).
Proof.
  intros Hstr Hs. unfold Session.step.
  destruct (Session.view R s) as [| |c] eqn:Hpage.
  - destruct ev as [[name|]| | | |]; try done. left. by split.
  - destruct ev as [found| |bank h y| |]; try done.
    destruct (_ && _) eqn:Hguard; [|done].
    repeat (apply andb_prop in Hguard as [Hguard ?]).
    apply bool_decide_eq_true in Hguard.
    unfold Session.generate_forecast. destruct (analyse bank h y) as [r|e] eqn:Hrun.
    + destruct Hs as [[Herr Hres]|Hfailed]; [|by right].
      left. split; [done|]. intros r' [= <-]. exists bank, h, y. simpl.
      repeat split; try done; lia.
    + right. simpl. eauto.
  - destruct c as [message|r|]; destruct ev as [found| | | |tab]; try done.
    by destruct (bool_decide _).
Qed.

Lemma steps_sound events : ∀ s,
  (∀ e, str_of_exn e ≠ EmptyString) →
  sound' s → sound' (Session.steps R analyse str_of_exn banks events s).
Proof.
  induction events as [|ev events IH]; intros s Hstr Hs; [done|].
  apply IH; [done|]. by apply step_sound.
Qed.

End ShownResults.

(** X22.  The results that the page shows are those of the institution in
    its title: in a session that started at the first run of [main], after
    whatever clicks, logins and logouts, when the page of the results shows
    results they are what [run_analysis] returned for the institution in
    [selected_bank], which is one of the select box, with a number of years
    from 1 to 10 and a current year from 2010 to 2100. *)
Theorem shown_results_match_title
  (R : Type) (analyse : string → Z → Z → result R) (str_of_exn : exn → string)
  (banks : list string) (events : list Session.event) (r : R) :
  (∀ e, str_of_exn e ≠ EmptyString) →
  let s := Session.steps R analyse str_of_exn banks events (Session.initial R) in
  Session.view R s = Session.Results_page (Session.Shows_results r) →
  ∃ bank forecast_horizon current_year,
    Session.selected_bank s = Some bank ∧ bank ∈ banks
    ∧ 1 ≤ forecast_horizon ≤ 10 ∧ 2010 ≤ current_year ≤ 2100
    ∧ analyse bank forecast_horizon current_year = Ok r.
Proof.
  intros Hstr s Hview.
  assert (Session.sound R analyse banks s) as Hs.
  { apply steps_sound; [done|]. left. by split. }
  unfold Session.view in Hview.
  destruct (negb (Session.authenticated s)); [done|].
  destruct (negb (Session.run_clicked s)); [done|].
  destruct Hs as [[Herr Hres]|(message & Herr & Hne)]; rewrite Herr in Hview.
  - apply Hres. destruct (Session.results s) as [r'|]; [|done]. by injection Hview as ->.
  - destruct (String.eqb_spec message EmptyString); done.
Qed.

Lemma shown_results_match_title_witness :
  let s :=
    Session.steps _ example_analyse plain_exn (App.get_bank_list plain_str example_sheet)
      [ Session.Log_in (App.Signed_in "ann@gmail.com");
        Session.Generate_forecast "Alpha" 3 2023 ]
      (Session.initial _) in
  ∃ bank forecast_horizon current_year,
    Session.selected_bank s = Some bank
    ∧ bank ∈ App.get_bank_list plain_str example_sheet
    ∧ 1 ≤ forecast_horizon ≤ 10 ∧ 2010 ≤ current_year ≤ 2100
    ∧ example_analyse bank forecast_horizon current_year = Ok (outcome_of falling_run).
Proof.
  apply (shown_results_match_title (Analysis * store) example_analyse plain_exn
           (App.get_bank_list plain_str example_sheet)
           [ Session.Log_in (App.Signed_in "ann@gmail.com");
             Session.Generate_forecast "Alpha" 3 2023 ]
           (outcome_of falling_run)).
  - done.
  - vm_compute. reflexivity.
Defined.
